(** * Part-of-speech tagging data pipeline: parser, splitter, vectorizers

    A shallow embedding of [data_input.py] and [text_vectorizer.py].

    Conventions of the embedding.
    - A Python [str] is a [string]; a character is a code point below 256.
    - A one-dimensional numpy array, a Python list and a tuple are all a
      [list], and an array of arrays is a nested list.  numpy is the one
      the code was written for, before version 1.24: [np.array] applied
      to arrays of different lengths builds a one-dimensional array of
      arrays (the code relies on it: documents have different lengths).
      [np.array] is the identity on a list of one-dimensional arrays,
      where it cannot fail (lemma [array_vectors]); on a list of matrices
      it is [Np.array], which raises [ValueError] when the matrices agree
      on their first dimension only.
    - A raised exception is the [Raise] case of [result]; the classes of
      exceptions are the constructors of [exn].
    - A file is given by its decoded text (newlines already translated by
      the text layer); [print] calls and the optional persistence of the
      splits ([path_store]) leave the returned values unchanged and are
      omitted.
    - A floating-point number is given by its exact value; the one
      floating-point operation of the splitter, a product, is rounded by a
      parameter [fl].  The values of the embedding vectors are never
      inspected: their type [F] is a parameter.
    - Library code is either a parameter ([np.loadtxt], the number reader
      of [np.fromstring], the iteration order of a set, the thresholding
      decoder of [LabelBinarizer.inverse_transform]) or modelled from its
      documented behaviour ([random.shuffle], [np.array], the separator
      handling of [np.fromstring], [LabelBinarizer.fit], [transform] and
      the multiclass decoder, Python's string methods and slices). *)

From Stdlib Require Import ZArith QArith Qround Lqa Ascii String.
From stdpp Require Import gmap strings list fin_maps sorting.

Set Warnings "-clear-no-such-hyp".

(** ** Python layer *)

Module Py.

(** Exception classes.  [ValueError], [KeyError], [IndexError] and
    [AttributeError] are Python built-ins; [NotAdaptedError] is declared
    in text_vectorizer.py; [NotFittedError] is scikit-learn's.  [ParseError] and [FormatError] are the two
    kinds the specification names; no statement of the sources raises
    them, so no definition below builds them. *)
Inductive exn : Type :=
  | ValueError
  | KeyError
  | IndexError
  | AttributeError
  | NotAdaptedError
  | NotFittedError
  | ParseError (line : string)
  | FormatError (line : string).

Inductive result (A : Type) : Type :=
  | Ok (a : A)
  | Raise (e : exn).
Arguments Ok {A} a.
Arguments Raise {A} e.

Definition bind {A B : Type} (m : result A) (k : A -> result B) : result B :=
  match m with
  | Ok a => k a
  | Raise e => Raise e
  end.

(** [try: m  except cls: raise e'] for one exception class. *)
Definition try_except {A : Type} (m : result A) (cls e' : exn) : result A :=
  match m with
  | Ok a => Ok a
  | Raise e =>
      match e, cls with
      | KeyError, KeyError => Raise e'
      | ValueError, ValueError => Raise e'
      | IndexError, IndexError => Raise e'
      | AttributeError, AttributeError => Raise e'
      | NotAdaptedError, NotAdaptedError => Raise e'
      | _, _ => Raise e
      end
  end.

(** A list comprehension whose body may raise: elements are evaluated
    left to right and the first exception aborts the comprehension. *)
Fixpoint comprehension {A B : Type} (f : A -> result B) (l : list A)
  : result (list B) :=
  match l with
  | [] => Ok []
  | a :: l' =>
      bind (f a) (fun b => bind (comprehension f l') (fun bs => Ok (b :: bs)))
  end.

Definition TAB : ascii := ascii_of_nat 9.
Definition LF : ascii := ascii_of_nat 10.

(** [str.isspace] on one character (code points below 256). *)
Definition isspace (c : ascii) : bool :=
  let n := nat_of_ascii c in
  ((9 <=? n) && (n <=? 13)) || ((28 <=? n) && (n <=? 32))
  || (n =? 133) || (n =? 160).

Fixpoint lstrip (s : string) : string :=
  match s with
  | EmptyString => EmptyString
  | String c r => if isspace c then lstrip r else s
  end.

Fixpoint rstrip (s : string) : string :=
  match s with
  | EmptyString => EmptyString
  | String c r =>
      match rstrip r with
      | EmptyString => if isspace c then EmptyString else String c EmptyString
      | r' => String c r'
      end
  end.

(** [s.strip()] *)
Definition strip (s : string) : string := rstrip (lstrip s).

(** [s.split(sep)] for a one-character separator: never empty, and the
    number of fields is the number of separators plus one. *)
Fixpoint split (sep : ascii) (s : string) : list string :=
  match s with
  | EmptyString => [EmptyString]
  | String c r =>
      if Ascii.eqb c sep then EmptyString :: split sep r
      else match split sep r with
           | f :: fs => String c f :: fs
           | [] => [String c EmptyString]
           end
  end.

(** [f.readlines()] and iteration over a text file: the text is cut
    after every line feed, which stays at the end of its line. *)
Fixpoint readlines (s : string) : list string :=
  match s with
  | EmptyString => []
  | String c r =>
      if Ascii.eqb c LF then String c EmptyString :: readlines r
      else match readlines r with
           | l :: ls => String c l :: ls
           | [] => [String c EmptyString]
           end
  end.

(** The C library's [isspace], which numpy's text reader uses. *)
Definition c_isspace (c : ascii) : bool :=
  let n := nat_of_ascii c in
  ((9 <=? n) && (n <=? 13)) || (n =? 32).

(** Skipping the C whitespace at the head of a text. *)
Fixpoint c_lstrip (s : string) : string :=
  match s with
  | EmptyString => EmptyString
  | String c r => if c_isspace c then c_lstrip r else s
  end.

(** The first whitespace-free word of a text, and what follows it. *)
Fixpoint split_word (s : string) : string * string :=
  match s with
  | EmptyString => (EmptyString, EmptyString)
  | String c r =>
      if isspace c then (EmptyString, s)
      else let '(w, t) := split_word r in (String c w, t)
  end.

(** [s.split(maxsplit=1)]: whitespace-separated, at most two fields; the
    second field keeps its trailing whitespace. *)
Definition split_maxsplit1 (s : string) : list string :=
  match lstrip s with
  | EmptyString => []
  | s' =>
      let '(w, t) := split_word s' in
      match lstrip t with
      | EmptyString => [w]
      | rest => [w; rest]
      end
  end.

(** Normalisation of one bound of a slice of a sequence of length [len]:
    a negative bound counts from the end, and bounds are clamped. *)
Definition slice_bound (len i : Z) : Z :=
  if (i <? 0)%Z then Z.max (i + len) 0 else Z.min i len.

(** [l[lo:hi]]; [None] is an omitted bound. *)
Definition slice {A : Type} (lo hi : option Z) (l : list A) : list A :=
  let len := Z.of_nat (length l) in
  let lo' := match lo with Some i => slice_bound len i | None => 0%Z end in
  let hi' := match hi with Some i => slice_bound len i | None => len end in
  drop (Z.to_nat lo') (take (Z.to_nat hi') l).

(** [l[i]] and [l[i] = v] for a non-negative index. *)
Definition getitem {A : Type} (l : list A) (i : nat) : result A :=
  match l !! i with
  | Some a => Ok a
  | None => Raise IndexError
  end.

Definition setitem {A : Type} (l : list A) (i : nat) (v : A) : result (list A) :=
  if decide (i < length l) then Ok (<[i:=v]> l) else Raise IndexError.

(** [int(q)]: truncation toward zero. *)
Definition int (q : Q) : Z := Z.quot (Qnum q) (Zpos (Qden q)).

End Py.

Import Py.

(** [x ← m; k] runs [m] and passes its value on; an exception of [m]
    propagates. *)
#[global] Instance result_ret : MRet result := @Ok.
#[global] Instance result_bind : MBind result := fun A B k m => Py.bind m k.

(** ** numpy arrays

    [np.array(l)] on a list [l] of arrays, as numpy does it before version
    1.24.  numpy first finds the shape of the result: it compares the
    arrays of [l] dimension by dimension, and the result has, after its
    first dimension [len(l)], the leading dimensions that all of them
    share.  Arrays of one shape are stacked.  Arrays whose first
    dimensions are not all the same are stored, as they are, in a
    one-dimensional array.  Arrays that share their first dimension but
    not their whole shape would each have to be copied into a slot of
    fewer dimensions, which numpy refuses with
    [ValueError: could not broadcast input array]. *)

Module Np.

(** The shape of [np.array(l)], from the shapes of the arrays of [l]. *)
Definition array_shape (shapes : list (list nat)) : result (list nat) :=
  match shapes with
  | [] => Ok [0]
  | s :: rest =>
      if decide (Forall (fun s' => s' = s) rest) then
        Ok (length shapes :: s)
      else if decide (Forall (fun s' => head s' = head s) rest) then
        Raise ValueError
      else Ok [length shapes]
  end.

(** [np.array(l)]: the nested list [l] stands for the array made of the
    arrays of [l]; [shape] gives the shape of each of them. *)
Definition array {A : Type} (shape : A -> list nat) (l : list A)
  : result (list A) :=
  match array_shape (map shape l) with
  | Ok _ => Ok l
  | Raise e => Raise e
  end.

(** The shape of a one-dimensional array, and the shape of the array that
    [np.array] makes of a list of one-dimensional arrays: a matrix when
    they have one length, a one-dimensional array of arrays otherwise. *)
Definition vector_shape {A : Type} (v : list A) : list nat := [length v].

Definition matrix_shape {A : Type} (rows : list (list A)) : list nat :=
  match array_shape (map vector_shape rows) with
  | Ok shape => shape
  | Raise _ => [length rows]
  end.

End Np.

(** ** data_input.py *)

Module DataInput.

Section ParseDataset.

(** [np.loadtxt(doc, str, delimiter="\t", usecols=(0, 1))] followed by the
    two column selections [np_doc[:, 0]] and [np_doc[:, 1]]: numpy's
    reader is a parameter of the parser. *)
Variable loadtxt_columns : string -> result (list string * list string).

(** The body of [for line in text_file.readlines()] (lines 75 to 86),
    over the four lists it appends to. *)
Fixpoint sentence_lines (lines : list string)
    (X y : list (list string)) (sentence_text sentence_tags : list string)
  : result (list (list string) * list (list string) * list string * list string) :=
  match lines with
  | [] => Ok (X, y, sentence_text, sentence_tags)
  | line :: rest =>
      if String.eqb (strip line) EmptyString then
        sentence_lines rest (X ++ [sentence_text]) (y ++ [sentence_tags]) [] []
      else
        match split TAB line with
        | [token; tag; number] =>
            sentence_lines rest X y (sentence_text ++ [token]) (sentence_tags ++ [tag])
        | _ => Raise ValueError
        end
  end.

(** One iteration of [for doc in docs] (lines 68 to 93). *)
Definition parse_doc (split_into_sentences : bool) (doc : string)
    (X y : list (list string))
  : result (list (list string) * list (list string)) :=
  if split_into_sentences then
    '(X1, y1, sentence_text, sentence_tags) ←
      sentence_lines (readlines doc) X y [] [];
    Ok (X1 ++ [sentence_text], y1 ++ [sentence_tags])
  else
    '(col0, col1) ← loadtxt_columns doc;
    Ok (X ++ [col0], y ++ [col1]).

Fixpoint parse_docs (split_into_sentences : bool) (docs : list string)
    (X y : list (list string))
  : result (list (list string) * list (list string)) :=
  match docs with
  | [] => Ok (X, y)
  | doc :: docs' =>
      '(X1, y1) ← parse_doc split_into_sentences doc X y;
      parse_docs split_into_sentences docs' X1 y1
  end.

(** [DataInput.parse_dataset]; [docs] holds the text of each document. *)
Definition parse_dataset (docs : list string) (split_into_sentences : bool)
  : result (list (list string) * list (list string)) :=
  parse_docs split_into_sentences docs [] [].

End ParseDataset.

(** The process-wide generator of the [random] module, seen through
    [_randbelow]: the outcomes of the successive calls and the number of
    calls made so far. *)
Record random_state : Type :=
  { outcomes : nat -> nat; consumed : nat }.

(** [randbelow(n)]: a number below [n]. *)
Definition randbelow (n : nat) (g : random_state) : nat * random_state :=
  (outcomes g (consumed g) mod n,
   {| outcomes := outcomes g; consumed := S (consumed g) |}).

(** [x[i], x[j] = x[j], x[i]] *)
Definition exchange {A : Type} (x : list A) (i j : nat) : result (list A) :=
  xj ← getitem x j;
  xi ← getitem x i;
  x1 ← setitem x i xj;
  setitem x1 j xi.

(** The loop of [random.shuffle]:
    [for i in reversed(range(1, len(x))): j = randbelow(i + 1); exchange]. *)
Fixpoint shuffle_from {A : Type} (i : nat) (x : list A) (g : random_state)
  : result (list A * random_state) :=
  match i with
  | O => Ok (x, g)
  | S i' =>
      let '(j, g1) := randbelow (i + 1) g in
      x1 ← exchange x i j;
      shuffle_from i' x1 g1
  end.

(** [random.shuffle(x)] *)
Definition shuffle {A : Type} (x : list A) (g : random_state)
  : result (list A * random_state) :=
  shuffle_from (length x - 1) x g.

(** Line 109, [X, y = zip(...)] over the unpacked list of pairs: [zip]
    of no argument yields nothing, and unpacking nothing into two names
    raises. *)
Definition unzip {A B : Type} (dataset : list (A * B))
  : result (list A * list B) :=
  match dataset with
  | [] => Raise ValueError
  | _ :: _ => Ok (dataset.*1, dataset.*2)
  end.

Section TrainDevTestSplit.

(** The rounding of a binary64 product to the nearest binary64.  Sizes
    are fractions given by their exact value. *)
Variable fl : Q -> Q.

Context {A B : Type}.

(** [DataInput.train_dev_test_split] with [path_store=None]
    (lines 106 to 140). *)
Definition train_dev_test_split (X : list A) (y : list B)
    (train_size dev_size : Q) (g : random_state)
  : result ((list A * list B) * (list A * list B) * (list A * list B)
            * random_state) :=
  let dataset := zip X y in
  '(dataset, g) ← shuffle dataset g;
  '(X, y) ← unzip dataset;
  let train_size := int (fl (train_size * inject_Z (Z.of_nat (length X)))) in
  let train_set :=
    (slice None (Some train_size) X, slice None (Some train_size) y) in
  let dev_size := int (fl (dev_size * inject_Z (Z.of_nat (length X)))) in
  let dev_set :=
    (slice (Some train_size) (Some (train_size + dev_size)%Z) X,
     slice (Some train_size) (Some (train_size + dev_size)%Z) y) in
  let test_set :=
    (slice (Some (train_size + dev_size)%Z) None X,
     slice (Some (train_size + dev_size)%Z) None y) in
  Ok (train_set, dev_set, test_set, g).

End TrainDevTestSplit.

(** [DataInput.__init__], lines 23 and 24: the texts of the files that
    [import_data] lists are parsed, and the parsed corpus is split.  (The
    splits are also written under [path_store], which the returned
    attributes [train], [dev] and [test] do not depend on.) *)
Definition init (loadtxt_columns : string -> result (list string * list string))
    (fl : Q -> Q) (docs : list string) (train_size dev_size : Q)
    (split_into_sentences : bool) (g : random_state)
  : result ((list (list string) * list (list string))
            * (list (list string) * list (list string))
            * (list (list string) * list (list string))
            * random_state) :=
  '(X, y) ← parse_dataset loadtxt_columns docs split_into_sentences;
  train_dev_test_split fl X y train_size dev_size g.

End DataInput.

(** ** text_vectorizer.py: TextVectorizer *)

Module TextVectorizer.

Section TextVectorizer.

(** The type of numpy's floating-point numbers. *)
Variable F : Type.

(** The number reader of [np.fromstring]: it reads one number at the head
    of a text and returns it with the unread rest, or nothing when no
    number starts there. *)
Variable strtod : string -> option (F * string).

(** The order in which a [for] loop visits a set. *)
Variable set_order : gset string -> list string.

(** numpy's global generator: the samples it will deliver and the number
    delivered so far.  (That [np.random.uniform(-1, 1, ...)] draws from
    [-1, 1) is a fact about the samples, which no definition uses.) *)
Record np_random : Type :=
  { samples : nat -> F; drawn : nat }.

(** [np.random.uniform(-1, 1, size=size)] *)
Definition uniform (size : nat) (g : np_random) : list F * np_random :=
  (map (samples g) (seq (drawn g) size),
   {| samples := samples g; drawn := drawn g + size |}).

(** The attributes of an instance. *)
Record t : Type :=
  { max_tokens : Z;
    embedding_dim : nat;
    vocabulary : gmap string (list F) }.

Definition set_vocabulary (self : t) (v : gmap string (list F)) : t :=
  {| max_tokens := max_tokens self;
     embedding_dim := embedding_dim self;
     vocabulary := v |}.

(** [np.fromstring(text, "f", sep=" ")]: numbers are read one after the
    other; after each number the separator must match, that is, some C
    whitespace must follow, and all of it is skipped; reading stops
    without an exception at the end of the text and at the first place
    where no number or no separator is found. *)
Fixpoint fromstring_from (fuel : nat) (text : string) : list F :=
  match fuel with
  | O => []
  | S fuel' =>
      match strtod text with
      | None => []
      | Some (v, rest) =>
          match rest with
          | EmptyString => [v]
          | String c _ =>
              if c_isspace c then
                match c_lstrip rest with
                | EmptyString => [v]
                | rest' => v :: fromstring_from fuel' rest'
                end
              else [v]
          end
      end
  end.

Definition fromstring (text : string) : list F :=
  fromstring_from (String.length text) text.

(** The body of [for line in f] (lines 85 to 88). *)
Fixpoint glove_lines (lines : list string) (vocabulary : gmap string (list F))
  : result (gmap string (list F)) :=
  match lines with
  | [] => Ok vocabulary
  | line :: rest =>
      match split_maxsplit1 line with
      | [word; coefs] =>
          let coefs := fromstring coefs in
          glove_lines rest (<[word := coefs]> vocabulary)
      | _ => Raise ValueError
      end
  end.

(** [TextVectorizer.parse_glove]; [embedding_folder d] is the text of the
    file [glove.6B.<d>d.txt] of the folder. *)
Definition parse_glove (self : t) (embedding_folder : nat -> string)
  : result (gmap string (list F)) :=
  let vocabulary : gmap string (list F) := ∅ in
  let embedding_file := embedding_folder (embedding_dim self) in
  glove_lines (readlines embedding_file) vocabulary.

(** [TextVectorizer.__init__], the embedding files being in place. *)
Definition init (max_tokens : Z) (embedding_dim : nat)
    (embedding_folder : nat -> string) : result t :=
  let self :=
    {| max_tokens := max_tokens; embedding_dim := embedding_dim;
       vocabulary := ∅ |} in
  vocabulary ← parse_glove self embedding_folder;
  Ok (set_vocabulary self vocabulary).

(** The loop [for word in oov_words] (lines 106 and 107). *)
Fixpoint assign_oov (oov_words : list string) (self : t) (g : np_random)
  : t * np_random :=
  match oov_words with
  | [] => (self, g)
  | word :: rest =>
      let '(v, g1) := uniform (embedding_dim self) g in
      assign_oov rest (set_vocabulary self (<[word := v]> (vocabulary self))) g1
  end.

(** [TextVectorizer.adapt]; the third component is the count it prints. *)
Definition adapt (self : t) (documents : list (list string)) (g : np_random)
  : t * np_random * nat :=
  let words : gset string := list_to_set (concat documents) in
  let oov_words := words ∖ dom (vocabulary self) in
  let '(self1, g1) := assign_oov (set_order oov_words) self g in
  (self1, g1, size oov_words).

(** [d[key]] on a dictionary. *)
Definition dict_getitem (d : gmap string (list F)) (key : string)
  : result (list F) :=
  match d !! key with
  | Some v => Ok v
  | None => Raise KeyError
  end.

(** [TextVectorizer._transform_document]: the vectors of the words are
    one-dimensional arrays. *)
Definition _transform_document (self : t) (document : list string)
  : result (list (list F)) :=
  try_except
    (vectors ← comprehension (dict_getitem (vocabulary self)) document;
     Np.array Np.vector_shape vectors)
    KeyError NotAdaptedError.

(** [TextVectorizer.transform]: the array of a document is the one that
    [_transform_document] made of its vectors. *)
Definition transform (self : t) (documents : list (list string))
  : result (list (list (list F))) :=
  arrays ← comprehension (_transform_document self) documents;
  Np.array Np.matrix_shape arrays.

End TextVectorizer.

Arguments max_tokens {F} _.
Arguments embedding_dim {F} _.
Arguments vocabulary {F} _.
Arguments set_vocabulary {F} _ _.
Arguments samples {F} _ _.
Arguments drawn {F} _.
Arguments uniform {F} _ _.
Arguments fromstring {F} _ _.
Arguments glove_lines {F} _ _ _.
Arguments parse_glove {F} _ _ _.
Arguments init {F} _ _ _ _.
Arguments assign_oov {F} _ _ _.
Arguments adapt {F} _ _ _ _.
Arguments dict_getitem {F} _ _.
Arguments _transform_document {F} _ _.
Arguments transform {F} _ _.

End TextVectorizer.

(** ** scikit-learn's label binarizer

    [sklearn.preprocessing.LabelBinarizer] on one-dimensional sequences of
    strings, with its default labels 0 and 1 and dense output. *)

Module LabelBinarizer.

(** [type_of_target] on a one-dimensional sequence of strings. *)
Inductive target_type : Type := binary | multiclass.

Definition is_binary (t : target_type) : bool :=
  match t with binary => true | multiclass => false end.

(** What [fit] stores: the attributes [y_type_] and [classes_]. *)
Record fitted : Type :=
  { y_type_ : target_type; classes_ : list string }.

(** An instance: the constructor stores the labels and the output format
    only; the attributes [y_type_] and [classes_] exist once [fit] has
    run. *)
Definition t : Type := option fitted.

(** [LabelBinarizer()] *)
Definition init : t := None.

(** Reading the attribute [classes_]. *)
Definition get_classes_ (self : t) : result (list string) :=
  match self with
  | Some f => Ok (classes_ f)
  | None => Raise AttributeError
  end.

(** [check_is_fitted(self)] *)
Definition check_is_fitted (self : t) : result fitted :=
  match self with
  | Some f => Ok f
  | None => Raise NotFittedError
  end.

(** Insertion of a label in a sorted list without repetition. *)
Fixpoint insert_label (s : string) (l : list string) : list string :=
  match l with
  | [] => [s]
  | h :: t =>
      match String.compare s h with
      | Lt => s :: l
      | Eq => l
      | Gt => h :: insert_label s t
      end
  end.

(** [unique_labels(y)], that is [np.unique]: the distinct labels, sorted. *)
Definition unique_labels (y : list string) : list string :=
  foldr insert_label [] y.

Definition type_of_target (y : list string) : target_type :=
  if length (unique_labels y) <=? 2 then binary else multiclass.

(** [LabelBinarizer.fit] *)
Definition fit (self : t) (y : list string) : result t :=
  let y_type := type_of_target y in
  if decide (length y = 0) then Raise ValueError
  else Ok (Some {| y_type_ := y_type; classes_ := unique_labels y |}).

(** One row of the indicator matrix: 1 in the column of the label, 0
    elsewhere (a label that is no class gives a row of zeros). *)
Definition indicator_row (classes : list string) (label : string) : list Z :=
  map (fun c => if String.eqb c label then 1%Z else 0%Z) classes.

(** [Y[:, -1].reshape((-1, 1))] on one row. *)
Definition last_column (row : list Z) : result (list Z) :=
  match last row with
  | Some v => Ok [v]
  | None => Raise IndexError
  end.

(** [label_binarize(y, classes=classes)] for sorted [classes].  The
    library documents that binary targets transform to a column vector:
    when [y] has at most two distinct labels and there are two classes,
    only the last column of the indicator matrix is returned; with a
    single class the result is a column of zeros.  An empty [y] is
    refused. *)
Definition label_binarize (y : list string) (classes : list string)
  : result (list (list Z)) :=
  if decide (length y = 0) then Raise ValueError
  else
    let y_type := type_of_target y in
    let n_classes := length classes in
    if is_binary y_type && (n_classes =? 1) then
      Ok (map (fun _ => [0%Z]) y)
    else
      let y_type :=
        if is_binary y_type && (3 <=? n_classes) then multiclass
        else y_type in
      let Y := map (indicator_row classes) y in
      match y_type with
      | binary => comprehension last_column Y
      | multiclass => Ok Y
      end.

(** [LabelBinarizer.transform] *)
Definition transform (self : t) (y : list string) : result (list (list Z)) :=
  f ← check_is_fitted self;
  label_binarize y (classes_ f).

Section InverseTransform.

(** The two decoders [inverse_transform] chooses from. *)
Variable inverse_binarize :
  target_type -> list string -> list (list Z) -> result (list string).

(** [LabelBinarizer.inverse_transform] *)
Definition inverse_transform (self : t) (Y : list (list Z))
  : result (list string) :=
  f ← check_is_fitted self;
  inverse_binarize (y_type_ f) (classes_ f) Y.

End InverseTransform.

(** [row.argmax()]: the first position of the largest entry; numpy refuses
    an empty row. *)
Fixpoint argmax_from (best : Z) (best_i i : nat) (row : list Z) : nat :=
  match row with
  | [] => best_i
  | v :: row' =>
      if (best <? v)%Z then argmax_from v i (S i) row'
      else argmax_from best best_i (S i) row'
  end.

Definition argmax (row : list Z) : result nat :=
  match row with
  | [] => Raise ValueError
  | v :: row' => Ok (argmax_from v 0 1 row')
  end.

(** [classes.take(i, mode="clip")] for one index. *)
Definition take_clip (classes : list string) (i : nat) : result string :=
  match classes !! (i `min` (length classes - 1)) with
  | Some c => Ok c
  | None => Raise IndexError
  end.

(** [_inverse_binarize_multiclass(Y, classes)] on a dense matrix:
    [classes.take(Y.argmax(axis=1), mode="clip")]. *)
Definition inverse_binarize_multiclass (classes : list string)
    (Y : list (list Z)) : result (list string) :=
  indices ← comprehension argmax Y;
  comprehension (take_clip classes) indices.

Section Decoders.

(** [_inverse_binarize_thresholding], the decoder of the other target
    types. *)
Variable inverse_binarize_thresholding :
  target_type -> list string -> list (list Z) -> result (list string).

(** The choice that [inverse_transform] makes between the two decoders
    (on [self.y_type_ == "multiclass"]). *)
Definition inverse_binarize (y_type : target_type) (classes : list string)
    (Y : list (list Z)) : result (list string) :=
  match y_type with
  | multiclass => inverse_binarize_multiclass classes Y
  | binary => inverse_binarize_thresholding y_type classes Y
  end.

End Decoders.

End LabelBinarizer.

(** ** text_vectorizer.py: TargetVectorizer *)

Module TargetVectorizer.

Record t : Type := { vectorizer : LabelBinarizer.t }.

(** [TargetVectorizer.__init__] *)
Definition init : t := {| vectorizer := LabelBinarizer.init |}.

(** [TargetVectorizer.adapt] *)
Definition adapt (self : t) (targets : list (list string)) : result t :=
  v ← LabelBinarizer.fit (vectorizer self) (concat targets);
  Ok {| vectorizer := v |}.

(** [TargetVectorizer.get_classes] *)
Definition get_classes (self : t) : result (list string) :=
  LabelBinarizer.get_classes_ (vectorizer self).

(** [TargetVectorizer.transform]: the binarizer encodes a document as a
    matrix, one row per tag. *)
Definition transform (self : t) (targets : list (list string))
  : result (list (list (list Z))) :=
  classes ← LabelBinarizer.get_classes_ (vectorizer self);
  if decide (length classes = 0) then Raise NotAdaptedError
  else
    matrices ←
      comprehension (LabelBinarizer.transform (vectorizer self)) targets;
    Np.array Np.matrix_shape matrices.

Section InverseTransform.

Variable inverse_binarize :
  LabelBinarizer.target_type -> list string -> list (list Z)
  -> result (list string).

(** [TargetVectorizer.inverse_transform]: the binarizer decodes a matrix
    to a one-dimensional array of tags. *)
Definition inverse_transform (self : t) (targets : list (list (list Z)))
  : result (list (list string)) :=
  classes ← LabelBinarizer.get_classes_ (vectorizer self);
  if decide (length classes = 0) then Raise NotAdaptedError
  else
    documents ←
      comprehension
        (LabelBinarizer.inverse_transform inverse_binarize (vectorizer self))
        targets;
    Np.array Np.vector_shape documents.

End InverseTransform.

End TargetVectorizer.

(** ** Vocabulary of the statements *)

(** A line that ends a sentence in sentence-split mode (line 76). *)
Definition is_blank (line : string) : bool :=
  String.eqb (strip line) EmptyString.

(** A record line: exactly three tab-separated fields. *)
Definition three_fields (line : string) : Prop :=
  length (split TAB line) = 3.

(** A line that is neither a sentence boundary nor a record. *)
Definition malformed (line : string) : Prop :=
  is_blank line = false ∧ ¬ three_fields line.

(** The [k]-th tab-separated field of a line. *)
Definition field (k : nat) (line : string) : string :=
  nth k (split TAB line) EmptyString.

(** The lines of a file grouped at its blank lines: one group ends at each
    blank line and one more holds what follows the last blank line. *)
Fixpoint sentences (lines : list string) : list (list string) :=
  match lines with
  | [] => [[]]
  | line :: rest =>
      if is_blank line then [] :: sentences rest
      else match sentences rest with
           | s :: ss => (line :: s) :: ss
           | [] => [[line]]
           end
  end.

(** The Documents of one file in sentence-split mode: the [k]-th field of
    every line, sentence by sentence. *)
Definition sentence_fields (k : nat) (doc : string) : list (list string) :=
  map (map (field k)) (sentences (readlines doc)).

(** The number of blank lines of a file. *)
Definition blank_lines (doc : string) : nat :=
  length (filter (fun line => is_blank line = true) (readlines doc)).

(** A file all of whose non-blank lines are records. *)
Definition records_only (doc : string) : Prop :=
  Forall (fun line => is_blank line = false → three_fields line) (readlines doc).

(** The line [token<TAB>tag<TAB>number<LF>] and the empty line. *)
Definition record_line (token tag number : string) : string :=
  token +:+ String TAB (tag +:+ String TAB (number +:+ String LF EmptyString)).

Definition empty_line : string := String LF EmptyString.

(** A document whose only line has two fields. *)
Definition two_field_document : string :=
  "a" +:+ String TAB ("NN" +:+ String LF EmptyString).

(** A document with two consecutive empty lines between two records. *)
Definition double_blank_document : string :=
  record_line "a" "NN" "1" +:+ empty_line +:+ empty_line
  +:+ record_line "b" "VB" "2".

(** numpy's reader left out: sentence-split mode never calls it. *)
Definition no_loadtxt (doc : string) : result (list string * list string) :=
  Raise ValueError.

(** What the statements on the splitter use of the rounding of a product
    that lies between 0 and the number [N] of documents: it is monotone,
    exact at 0 and at [N], and exceeds its argument by less than one half
    (binary64 rounding to nearest has these properties as long as [N] is
    below 2^52). *)
Definition rounds_to_nearest (fl : Q → Q) (N : nat) : Prop :=
  (∀ a b : Q,
     (0 <= a)%Q → (a <= b)%Q → (b <= inject_Z (Z.of_nat N))%Q →
     (fl a <= fl b)%Q)
  ∧ (fl 0 == 0)%Q
  ∧ (fl (inject_Z (Z.of_nat N)) == inject_Z (Z.of_nat N))%Q
  ∧ (∀ a : Q,
       (0 <= a)%Q → (a <= inject_Z (Z.of_nat N))%Q → (fl a < a + (1 # 2))%Q).

(** Exact products. *)
Definition exact (q : Q) : Q := q.

(** A generator state and a corpus of three documents for the examples. *)
Definition example_random_state : DataInput.random_state :=
  {| DataInput.outcomes := fun n => n; DataInput.consumed := 0 |}.

Definition example_X : list (list string) := [["a"; "b"]; ["c"]; ["d"]].

Definition example_y : list (list string) := [["NN"; "VB"]; ["NN"]; ["DT"]].

(** The same instance with another [max_tokens]. *)
Definition with_max_tokens {F : Type} (m : Z) (self : TextVectorizer.t F)
  : TextVectorizer.t F :=
  {| TextVectorizer.max_tokens := m;
     TextVectorizer.embedding_dim := TextVectorizer.embedding_dim self;
     TextVectorizer.vocabulary := TextVectorizer.vocabulary self |}.

(** Pairwise distinct words: [n] times the letter a. *)
Fixpoint nth_word (n : nat) : string :=
  match n with
  | O => EmptyString
  | S k => String "a" (nth_word k)
  end.

(** A line of the embedding table that [split(maxsplit=1)] cuts in two. *)
Definition table_line (line : string) : Prop :=
  length (split_maxsplit1 line) = 2.

(** A number reader for the examples: it skips C whitespace, reads an
    unsigned decimal numeral and returns its text. *)
Definition is_numeral_char (c : ascii) : bool :=
  let n := nat_of_ascii c in ((48 <=? n) && (n <=? 57)) || (n =? 46).

Fixpoint numeral_prefix (s : string) : string * string :=
  match s with
  | EmptyString => (EmptyString, EmptyString)
  | String c r =>
      if is_numeral_char c then
        let '(n, t) := numeral_prefix r in (String c n, t)
      else (EmptyString, s)
  end.

Definition read_numeral (s : string) : option (string * string) :=
  match numeral_prefix (c_lstrip s) with
  | (EmptyString, _) => None
  | (n, rest) => Some (n, rest)
  end.

(** An instance with [embedding_dim = 2] before its table is read. *)
Definition example_vectorizer : TextVectorizer.t string :=
  {| TextVectorizer.max_tokens := 20000;
     TextVectorizer.embedding_dim := 2;
     TextVectorizer.vocabulary := ∅ |}.

(** A folder whose tables all hold the one line [cat 0.1 0.2 0.3], and
    the instance built from it with [embedding_dim = 2]. *)
Definition three_number_table (d : nat) : string :=
  "cat 0.1 0.2 0.3" +:+ String LF EmptyString.

Definition three_number_vectorizer : TextVectorizer.t string :=
  {| TextVectorizer.max_tokens := 20000;
     TextVectorizer.embedding_dim := 2;
     TextVectorizer.vocabulary := <["cat" := ["0.1"; "0.2"; "0.3"]]> ∅ |}.

(** An instance with [embedding_dim = 2] that knows the word [cat]. *)
Definition cat_vectorizer : TextVectorizer.t string :=
  {| TextVectorizer.max_tokens := 20000;
     TextVectorizer.embedding_dim := 2;
     TextVectorizer.vocabulary := <["cat" := ["0.1"; "0.2"]]> ∅ |}.

(** A state of numpy's generator for the examples. *)
Definition example_np_random : TextVectorizer.np_random string :=
  {| TextVectorizer.samples := fun n => nth_word n;
     TextVectorizer.drawn := 0 |}.

(** The order of [np.unique] on strings. *)
Definition string_lt (a b : string) : Prop := String.compare a b = Lt.

(** The characters of a string. *)
Definition chars (s : string) : list ascii := list_ascii_of_string s.
(** [sep.join(fields)] *)
Fixpoint join (sep : ascii) (fields : list string) : string :=
  match fields with
  | [] => EmptyString
  | [f] => f
  | f :: fs => f +:+ String sep (join sep fs)
  end.
(** A vocabulary all of whose vectors have [embedding_dim] numbers. *)
Definition well_shaped {F : Type} (self : TextVectorizer.t F) : Prop :=
  ∀ word v,
    TextVectorizer.vocabulary self !! word = Some v →
    length v = TextVectorizer.embedding_dim self.

(** The [k]-th block of [size] samples that the generator [g] delivers. *)
Definition sample_block {F : Type} (g : TextVectorizer.np_random F)
    (k size : nat) : list F :=
  map (TextVectorizer.samples g) (seq (TextVectorizer.drawn g + k * size) size).
(** The word of a line of the embedding table, if it has one. *)
Definition first_field (line : string) : option string :=
  head (split_maxsplit1 line).
(** Strings made of whitespace, strings without whitespace, and the
    lines of at most one field: a word between two runs of whitespace. *)
Definition whitespace_only (s : string) : Prop :=
  Forall (fun c => isspace c = true) (list_ascii_of_string s).

Definition no_whitespace (s : string) : Prop :=
  Forall (fun c => isspace c = false) (list_ascii_of_string s).

Definition short_line (line : string) : Prop :=
  ∃ ws1 word ws2,
    line = ws1 +:+ word +:+ ws2
    ∧ whitespace_only ws1 ∧ no_whitespace word ∧ whitespace_only ws2.
(** A folder whose tables hold two lines for the word [cat], and a folder
    whose tables hold a line for [cat] followed by an empty line. *)
Definition two_line_table (d : nat) : string :=
  "cat 0.1 0.2" +:+ String LF ("cat 0.3 0.4" +:+ String LF EmptyString).

Definition blank_line_table (d : nat) : string :=
  "cat 0.1 0.2" +:+ String LF (String LF EmptyString).

(** The width of the matrix that the binarizer returns for a document: a
    single column when the document has at most two distinct tags and
    there are at most two classes, one column per class otherwise. *)
Definition encoding_width (classes document : list string) : nat :=
  if LabelBinarizer.is_binary (LabelBinarizer.type_of_target document)
     && (length classes <=? 2)
  then 1 else length classes.

(** Targets with three tags, and a shorter collection of tag sequences. *)
Definition example_targets : list (list string) :=
  [["NN"; "VB"; "DT"]; ["NN"]].

Definition example_y_short : list (list string) := [["NN"; "VB"]; ["NN"]].

(** Joining the open sentence to the groups that the remaining lines
    produce. *)
Definition resume {A : Type} (open : list A) (groups : list (list A))
  : list (list A) :=
  match groups with
  | s :: ss => (open ++ s) :: ss
  | [] => [open]
  end.

(** ** The parser *)

Section ParserFacts.

Variable loadtxt_columns : string -> result (list string * list string).

Lemma three_fields_inv (line : string) :
  three_fields line →
  split TAB line = [field 0 line; field 1 line; field 2 line].
Proof.
  unfold three_fields, field. intros H.
  destruct (split TAB line) as [|a [|b [|c [|d l]]]]; simpl in H; try lia.
  reflexivity.
Qed.

Lemma not_three_fields_raise (line : string)
    (X y : list (list string)) (st sg : list string) (rest : list string) :
  ¬ three_fields line →
  match split TAB line with
  | [token; tag; number] =>
      DataInput.sentence_lines rest X y (st ++ [token]) (sg ++ [tag])
  | _ => Raise ValueError
  end = Raise ValueError.
Proof.
  unfold three_fields. intros H.
  destruct (split TAB line) as [|a [|b [|c [|d l]]]]; try reflexivity.
  exfalso. apply H. reflexivity.
Qed.

Lemma sentences_not_nil (lines : list string) : sentences lines ≠ [].
Proof.
  destruct lines as [|line rest]; simpl; [discriminate|].
  destruct (is_blank line); [discriminate|].
  destruct (sentences rest); discriminate.
Qed.

Lemma sentence_lines_records (lines : list string) :
  ∀ (X y : list (list string)) (st sg : list string),
    Forall (fun line => is_blank line = false → three_fields line) lines →
    ∃ X1 y1 st1 sg1,
      DataInput.sentence_lines lines X y st sg = Ok (X1, y1, st1, sg1)
      ∧ X1 ++ [st1] = X ++ resume st (map (map (field 0)) (sentences lines))
      ∧ y1 ++ [sg1] = y ++ resume sg (map (map (field 1)) (sentences lines)).
Proof.
  induction lines as [|line rest IH]; intros X y st sg Hall.
  - exists X, y, st, sg. simpl. rewrite !app_nil_r. auto.
  - inversion Hall as [|? ? Hline Hrest]; subst.
    simpl. fold (is_blank line).
    destruct (is_blank line) eqn:Hb.
    + destruct (IH (X ++ [st]) (y ++ [sg]) [] [] Hrest)
        as (X1 & y1 & st1 & sg1 & Hrun & HX & Hy).
      exists X1, y1, st1, sg1. split; [exact Hrun|].
      rewrite HX, Hy. simpl. rewrite !app_nil_r.
      pose proof (sentences_not_nil rest) as Hne.
      destruct (sentences rest) as [|s ss]; [congruence|].
      simpl. rewrite <- !app_assoc. auto.
    + rewrite (three_fields_inv line (Hline eq_refl)).
      destruct (IH X y (st ++ [field 0 line]) (sg ++ [field 1 line]) Hrest)
        as (X1 & y1 & st1 & sg1 & Hrun & HX & Hy).
      exists X1, y1, st1, sg1. split; [exact Hrun|].
      rewrite HX, Hy.
      pose proof (sentences_not_nil rest) as Hne.
      destruct (sentences rest) as [|s ss]; [congruence|].
      simpl. rewrite <- !app_assoc. auto.
Qed.

Lemma sentence_lines_malformed (lines : list string) :
  ∀ (X y : list (list string)) (st sg : list string),
    Exists malformed lines →
    DataInput.sentence_lines lines X y st sg = Raise ValueError.
Proof.
  induction lines as [|line rest IH]; intros X y st sg Hex.
  - inversion Hex.
  - simpl. fold (is_blank line).
    destruct (is_blank line) eqn:Hb.
    + inversion Hex as [? ? [Hnb _]|? ? Hrest]; subst.
      * congruence.
      * apply IH. exact Hrest.
    + destruct (decide (three_fields line)) as [H3|H3].
      * rewrite (three_fields_inv line H3).
        inversion Hex as [? ? [_ Hbad]|? ? Hrest]; subst.
        -- contradiction.
        -- apply IH. exact Hrest.
      * apply not_three_fields_raise. exact H3.
Qed.

Lemma records_or_malformed (lines : list string) :
  Forall (fun line => is_blank line = false → three_fields line) lines
  ∨ Exists malformed lines.
Proof.
  induction lines as [|line rest [IH|IH]].
  - left. constructor.
  - destruct (is_blank line) eqn:Hb.
    + left. constructor; [congruence|exact IH].
    + destruct (decide (three_fields line)) as [H3|H3].
      * left. constructor; [auto|exact IH].
      * right. apply Exists_cons_hd. split; assumption.
  - right. apply Exists_cons_tl. exact IH.
Qed.

Lemma resume_nil {A : Type} (groups : list (list A)) :
  groups ≠ [] → resume [] groups = groups.
Proof. destruct groups; [congruence|reflexivity]. Qed.

Lemma parse_doc_records (doc : string) (X y : list (list string)) :
  records_only doc →
  DataInput.parse_doc loadtxt_columns true doc X y
  = Ok (X ++ sentence_fields 0 doc, y ++ sentence_fields 1 doc).
Proof.
  intros Hrec. unfold DataInput.parse_doc.
  destruct (sentence_lines_records (readlines doc) X y [] [] Hrec)
    as (X1 & y1 & st1 & sg1 & Hrun & HX & Hy).
  rewrite Hrun. simpl. rewrite HX, Hy.
  unfold sentence_fields.
  pose proof (sentences_not_nil (readlines doc)) as Hne.
  rewrite !resume_nil; [reflexivity| |];
    intros Hnil; apply map_eq_nil in Hnil; contradiction.
Qed.

Lemma parse_doc_malformed (doc : string) (X y : list (list string)) :
  Exists malformed (readlines doc) →
  DataInput.parse_doc loadtxt_columns true doc X y = Raise ValueError.
Proof.
  intros Hex. unfold DataInput.parse_doc.
  rewrite (sentence_lines_malformed _ X y [] [] Hex). reflexivity.
Qed.

Lemma parse_docs_records (docs : list string) :
  ∀ X y : list (list string),
    Forall records_only docs →
    DataInput.parse_docs loadtxt_columns true docs X y
    = Ok (X ++ concat (map (sentence_fields 0) docs),
          y ++ concat (map (sentence_fields 1) docs)).
Proof.
  induction docs as [|doc docs IH]; intros X y Hall.
  - simpl. rewrite !app_nil_r. reflexivity.
  - inversion Hall as [|? ? Hdoc Hdocs]; subst.
    cbn [DataInput.parse_docs].
    rewrite (parse_doc_records doc X y Hdoc). simpl.
    rewrite (IH _ _ Hdocs). rewrite <- !app_assoc. reflexivity.
Qed.

Lemma parse_docs_malformed (docs : list string) :
  ∀ X y : list (list string),
    Exists (fun doc => Exists malformed (readlines doc)) docs →
    DataInput.parse_docs loadtxt_columns true docs X y = Raise ValueError.
Proof.
  induction docs as [|doc docs IH]; intros X y Hex.
  - inversion Hex.
  - cbn [DataInput.parse_docs].
    destruct (records_or_malformed (readlines doc)) as [Hrec|Hbad].
    + rewrite (parse_doc_records doc X y Hrec). simpl.
      apply IH.
      inversion Hex as [? ? Hhere|? ? Hlater]; subst; [|exact Hlater].
      exfalso. apply Exists_exists in Hhere as (line & Hin & Hnb & H3).
      unfold records_only in Hrec. rewrite Forall_forall in Hrec.
      apply H3, Hrec; assumption.
    + rewrite (parse_doc_malformed doc X y Hbad). reflexivity.
Qed.

Lemma sentences_length (lines : list string) :
  length (sentences lines)
  = S (length (filter (fun line => is_blank line = true) lines)).
Proof.
  induction lines as [|line rest IH]; [reflexivity|].
  simpl. rewrite filter_cons.
  destruct (is_blank line) eqn:Hb.
  - rewrite decide_True by reflexivity. simpl. rewrite IH. reflexivity.
  - rewrite decide_False by discriminate.
    pose proof (sentences_not_nil rest) as Hne.
    destruct (sentences rest) as [|s ss]; [congruence|].
    simpl in *. exact IH.
Qed.

Lemma sentences_no_blank (lines : list string) :
  Forall (fun line => is_blank line = false) lines →
  sentences lines = [lines].
Proof.
  induction 1 as [|line rest Hb _ IH]; [reflexivity|].
  simpl. rewrite Hb, IH. reflexivity.
Qed.

Lemma sentences_last (before after : list string) (line : string) :
  is_blank line = true →
  Forall (fun l => is_blank l = false) after →
  last (sentences (before ++ line :: after)) = Some after.
Proof.
  intros Hb Hafter.
  induction before as [|l before IH]; simpl.
  - rewrite Hb, (sentences_no_blank after Hafter). reflexivity.
  - pose proof (sentences_length (before ++ line :: after)) as Hlen.
    rewrite filter_app, filter_cons, decide_True, length_app in Hlen
      by exact Hb.
    destruct (is_blank l).
    + destruct (sentences (before ++ line :: after)); [discriminate|].
      exact IH.
    + destruct (sentences (before ++ line :: after)) as [|s [|s' ss]];
        simpl in Hlen; [lia|lia|].
      exact IH.
Qed.

End ParserFacts.

(** C3 (as stated, refuted).  The document ["a<TAB>NN<LF>"] has a line of
    two fields; in sentence-split mode parsing it raises [ValueError], the
    exception of the failed unpacking, and no [ParseError] carrying the
    line. *)
Lemma parse_dataset_two_fields_no_ParseError :
  Exists malformed (readlines two_field_document)
  ∧ DataInput.parse_dataset no_loadtxt [two_field_document] true
    = Raise ValueError
  ∧ ¬ (∃ line, DataInput.parse_dataset no_loadtxt [two_field_document] true
               = Raise (ParseError line)).
Proof.
  split; [|split].
  - apply Exists_cons_hd. split; [reflexivity|].
    unfold three_fields. vm_compute. discriminate.
  - reflexivity.
  - intros [line H]. vm_compute in H. discriminate.
Qed.

(** C3 (amended).  In sentence-split mode, whenever some document has a
    line that is not blank and does not have exactly three tab-separated
    fields, [parse_dataset] fails as a whole, with the [ValueError] of the
    unpacking at line 84. *)
Theorem parse_dataset_malformed_ValueError
    (loadtxt_columns : string -> result (list string * list string))
    (docs : list string) :
  Exists (fun doc => Exists malformed (readlines doc)) docs →
  DataInput.parse_dataset loadtxt_columns docs true = Raise ValueError.
Proof.
  intros Hex. unfold DataInput.parse_dataset.
  apply parse_docs_malformed. exact Hex.
Qed.

Lemma parse_dataset_malformed_ValueError_witness :
  Exists (fun doc => Exists malformed (readlines doc)) [two_field_document]
  ∧ DataInput.parse_dataset no_loadtxt [two_field_document] true
    = Raise ValueError.
Proof.
  assert (H : Exists (fun doc => Exists malformed (readlines doc))
                [two_field_document]).
  { apply Exists_cons_hd. apply Exists_cons_hd. split; [reflexivity|].
    unfold three_fields. vm_compute. discriminate. }
  split; [exact H|].
  exact (parse_dataset_malformed_ValueError no_loadtxt [two_field_document] H).
Defined.

(** C5 (as stated, refuted).  Two consecutive empty lines between two
    records: sentence-split parsing emits three Documents, the middle one
    with no token and no tag. *)
Lemma parse_dataset_double_blank_empty_document :
  DataInput.parse_dataset no_loadtxt [double_blank_document] true
  = Ok ([["a"]; []; ["b"]], [["NN"]; []; ["VB"]])
  ∧ In [] [["a"]; []; ["b"]].
Proof.
  split; [reflexivity|]. right. left. reflexivity.
Qed.

(** C5 (amended).  In sentence-split mode a Document is emitted at every
    blank line and once more at the end of the file, whether or not tokens
    were gathered: files made of records and blank lines are parsed into
    the groups of lines that their blank lines delimit, so a file with [b]
    blank lines gives [b + 1] Documents; the last Document holds what
    follows the last blank line, and a file without blank line is one
    Document. *)
Theorem parse_dataset_sentence_documents
    (loadtxt_columns : string -> result (list string * list string))
    (docs : list string) :
  Forall records_only docs →
  DataInput.parse_dataset loadtxt_columns docs true
  = Ok (concat (map (sentence_fields 0) docs),
        concat (map (sentence_fields 1) docs))
  ∧ Forall (fun doc =>
      ∀ k : nat,
        length (sentence_fields k doc) = S (blank_lines doc)
        ∧ (∀ before line after,
             readlines doc = before ++ line :: after →
             is_blank line = true →
             Forall (fun l => is_blank l = false) after →
             last (sentence_fields k doc) = Some (map (field k) after))
        ∧ (Forall (fun l => is_blank l = false) (readlines doc) →
           sentence_fields k doc = [map (field k) (readlines doc)])) docs.
Proof.
  intros Hrec. split.
  - unfold DataInput.parse_dataset.
    rewrite (parse_docs_records loadtxt_columns docs [] [] Hrec).
    reflexivity.
  - apply Forall_forall. intros doc _ k. unfold sentence_fields.
    split; [|split].
    + rewrite length_map. apply sentences_length.
    + intros before line after Hlines Hb Hafter.
      rewrite Hlines.
      change (last (map (field k) <$> sentences (before ++ line :: after))
              = Some (map (field k) after)).
      rewrite fmap_last, (sentences_last before after line Hb Hafter).
      reflexivity.
    + intros Hnb. rewrite (sentences_no_blank _ Hnb). reflexivity.
Qed.

Lemma parse_dataset_sentence_documents_witness :
  Forall records_only [double_blank_document]
  ∧ DataInput.parse_dataset no_loadtxt [double_blank_document] true
    = Ok (concat (map (sentence_fields 0) [double_blank_document]),
          concat (map (sentence_fields 1) [double_blank_document])).
Proof.
  assert (H : Forall records_only [double_blank_document]).
  { constructor; [|constructor]. unfold records_only.
    repeat constructor; vm_compute; congruence. }
  split; [exact H|].
  exact (proj1 (parse_dataset_sentence_documents no_loadtxt
                  [double_blank_document] H)).
Defined.

(** ** The splitter *)

Lemma exchange_ok {A : Type} (x : list A) (i j : nat) :
  i < length x → j < length x →
  ∃ x1, DataInput.exchange x i j = Ok x1 ∧ x1 ≡ₚ x.
Proof.
  intros Hi Hj.
  destruct (lookup_lt_is_Some_2 x i Hi) as [xi Hxi].
  destruct (lookup_lt_is_Some_2 x j Hj) as [xj Hxj].
  exists (<[j:=xi]> (<[i:=xj]> x)). split.
  - unfold DataInput.exchange, getitem, setitem. rewrite Hxj, Hxi. simpl.
    rewrite decide_True by exact Hi. simpl.
    rewrite decide_True by (rewrite length_insert; exact Hj). reflexivity.
  - apply Permutation_insert_swap; assumption.
Qed.

Lemma exchange_fmap {A B : Type} (f : A → B) (x : list A) (i j : nat) :
  DataInput.exchange (f <$> x) i j
  = Py.bind (DataInput.exchange x i j) (fun x1 => Ok (f <$> x1)).
Proof.
  unfold DataInput.exchange, getitem, setitem.
  rewrite !list_lookup_fmap, length_fmap.
  destruct (x !! j) as [xj|]; [|reflexivity].
  destruct (x !! i) as [xi|]; [|reflexivity]. simpl.
  destruct (decide (i < length x)); [|reflexivity]. simpl.
  rewrite <- list_fmap_insert, length_fmap.
  destruct (decide (j < length (<[i:=xj]> x))); [|reflexivity]. simpl.
  rewrite <- list_fmap_insert. reflexivity.
Qed.

Lemma shuffle_from_ok {A : Type} (i : nat) :
  ∀ (x : list A) (g : DataInput.random_state),
    i < length x ∨ i = 0 →
    ∃ x1 g1, DataInput.shuffle_from i x g = Ok (x1, g1) ∧ x1 ≡ₚ x.
Proof.
  induction i as [|i IH]; intros x g Hi.
  - exists x, g. split; reflexivity.
  - destruct Hi as [Hi|Hi]; [|discriminate].
    cbn [DataInput.shuffle_from].
    destruct (DataInput.randbelow (S i + 1) g) as [j g1] eqn:Hj.
    assert (Hjlt : j < length x).
    { unfold DataInput.randbelow in Hj. inversion Hj; subst.
      pose proof (Nat.mod_upper_bound
        (DataInput.outcomes g (DataInput.consumed g)) (S i + 1)).
      lia. }
    destruct (exchange_ok x (S i) j Hi Hjlt) as (x1 & Hx1 & Hperm).
    rewrite Hx1. simpl.
    destruct (IH x1 g1) as (x2 & g2 & Hrun & Hperm2).
    { left. rewrite Hperm. lia. }
    exists x2, g2. split; [exact Hrun|]. rewrite Hperm2. exact Hperm.
Qed.

Lemma shuffle_ok {A : Type} (x : list A) (g : DataInput.random_state) :
  ∃ x1 g1, DataInput.shuffle x g = Ok (x1, g1) ∧ x1 ≡ₚ x.
Proof.
  unfold DataInput.shuffle. apply shuffle_from_ok.
  destruct x; simpl; [right; reflexivity|left; lia].
Qed.

Lemma shuffle_from_fmap {A B : Type} (f : A → B) (i : nat) :
  ∀ (x : list A) (g : DataInput.random_state),
    DataInput.shuffle_from i (f <$> x) g
    = Py.bind (DataInput.shuffle_from i x g)
        (fun r => Ok (f <$> r.1, r.2)).
Proof.
  induction i as [|i IH]; intros x g; [reflexivity|].
  cbn [DataInput.shuffle_from].
  destruct (DataInput.randbelow (S i + 1) g) as [j g1].
  rewrite exchange_fmap.
  destruct (DataInput.exchange x (S i) j) as [x1|e]; [|reflexivity].
  simpl. apply IH.
Qed.

Lemma shuffle_fmap {A B : Type} (f : A → B) (x : list A)
    (g : DataInput.random_state) :
  DataInput.shuffle (f <$> x) g
  = Py.bind (DataInput.shuffle x g) (fun r => Ok (f <$> r.1, r.2)).
Proof.
  unfold DataInput.shuffle. rewrite length_fmap. apply shuffle_from_fmap.
Qed.

Lemma take_min_length {A : Type} (l : list A) (n : nat) :
  take (n `min` length l) l = take n l.
Proof.
  destruct (Nat.le_ge_cases n (length l)) as [H|H].
  - rewrite Nat.min_l by exact H. reflexivity.
  - rewrite Nat.min_r by exact H. rewrite !take_ge by lia. reflexivity.
Qed.

Lemma slice_bound_nonneg (len : nat) (i : Z) :
  (0 ≤ i)%Z →
  Z.to_nat (slice_bound (Z.of_nat len) i) = Z.to_nat i `min` len.
Proof.
  intros Hi. unfold slice_bound.
  destruct (Z.ltb_spec i 0) as [H|H]; [lia|]. lia.
Qed.

Lemma slice_until {A : Type} (l : list A) (hi : Z) :
  (0 ≤ hi)%Z → slice None (Some hi) l = take (Z.to_nat hi) l.
Proof.
  intros H. unfold slice. rewrite slice_bound_nonneg by exact H.
  simpl. rewrite drop_0. apply take_min_length.
Qed.

Lemma slice_between {A : Type} (l : list A) (lo hi : Z) :
  (0 ≤ lo)%Z → (0 ≤ hi)%Z →
  slice (Some lo) (Some hi) l = drop (Z.to_nat lo) (take (Z.to_nat hi) l).
Proof.
  intros Hlo Hhi. unfold slice. rewrite !slice_bound_nonneg by assumption.
  rewrite take_min_length.
  destruct (Nat.le_ge_cases (Z.to_nat lo) (length l)) as [H|H].
  - rewrite Nat.min_l by exact H. reflexivity.
  - rewrite Nat.min_r by exact H.
    rewrite !drop_ge; [reflexivity| |]; rewrite length_take; lia.
Qed.

Lemma slice_from {A : Type} (l : list A) (lo : Z) :
  (0 ≤ lo)%Z → slice (Some lo) None l = drop (Z.to_nat lo) l.
Proof.
  intros Hlo. unfold slice. rewrite slice_bound_nonneg by exact Hlo.
  rewrite Nat2Z.id, take_ge by lia.
  destruct (Nat.le_ge_cases (Z.to_nat lo) (length l)) as [H|H].
  - rewrite Nat.min_l by exact H. reflexivity.
  - rewrite Nat.min_r by exact H. rewrite !drop_ge by lia. reflexivity.
Qed.

Lemma three_slices {A : Type} (l : list A) (a b : nat) :
  take a l ++ drop a (take (a + b) l) ++ drop (a + b) l = l.
Proof.
  rewrite app_assoc.
  replace (take a l) with (take a (take (a + b) l))
    by (rewrite take_take; f_equal; lia).
  rewrite take_drop. apply take_drop.
Qed.

Lemma int_nonneg (q : Q) : (0 <= q)%Q → int q = Qfloor q ∧ (0 ≤ int q)%Z.
Proof.
  destruct q as [n d]. unfold Qle, int, Qfloor. simpl. intros H.
  rewrite Z.mul_1_r in H.
  rewrite Z.quot_div_nonneg by lia.
  split; [reflexivity|]. apply Z.div_pos; lia.
Qed.

Lemma fraction_of_corpus (N : nat) (t : Q) :
  (0 <= t)%Q → (t <= 1)%Q →
  (0 <= t * inject_Z (Z.of_nat N))%Q
  ∧ (t * inject_Z (Z.of_nat N) <= inject_Z (Z.of_nat N))%Q.
Proof.
  intros H0 H1.
  assert (Hn : (0 <= inject_Z (Z.of_nat N))%Q).
  { change 0%Q with (inject_Z 0). rewrite <- Zle_Qle. lia. }
  split; [apply Qmult_le_0_compat; assumption|].
  rewrite <- (Qmult_1_l (inject_Z (Z.of_nat N))) at 2.
  apply Qmult_le_compat_r; assumption.
Qed.

Lemma rounded_in_range (fl : Q → Q) (N : nat) (x : Q) :
  rounds_to_nearest fl N →
  (0 <= x)%Q → (x <= inject_Z (Z.of_nat N))%Q →
  (0 <= fl x)%Q ∧ (fl x <= inject_Z (Z.of_nat N))%Q.
Proof.
  intros (Hmono & H0 & HN & _) Hx0 HxN. split.
  - rewrite <- H0. apply Hmono; [apply Qle_refl|exact Hx0|exact HxN].
  - rewrite <- HN. apply Hmono; [exact Hx0|exact HxN|apply Qle_refl].
Qed.

Lemma split_sizes (fl : Q → Q) (N : nat) (train_size dev_size : Q) :
  rounds_to_nearest fl N →
  (0 <= train_size)%Q → (train_size <= 1)%Q →
  (0 <= dev_size)%Q → (dev_size <= 1)%Q →
  (train_size + dev_size <= 1)%Q →
  let a := int (fl (train_size * inject_Z (Z.of_nat N))%Q) in
  let b := int (fl (dev_size * inject_Z (Z.of_nat N))%Q) in
  a = Qfloor (fl (train_size * inject_Z (Z.of_nat N))%Q)
  ∧ b = Qfloor (fl (dev_size * inject_Z (Z.of_nat N))%Q)
  ∧ (0 ≤ a)%Z ∧ (0 ≤ b)%Z ∧ (a + b ≤ Z.of_nat N)%Z.
Proof.
  intros Hfl Ht0 Ht1 Hd0 Hd1 Hsum a b.
  destruct (fraction_of_corpus N train_size Ht0 Ht1) as [Hx0 HxN].
  destruct (fraction_of_corpus N dev_size Hd0 Hd1) as [Hy0 HyN].
  destruct (rounded_in_range fl N _ Hfl Hx0 HxN) as [Hfx0 HfxN].
  destruct (rounded_in_range fl N _ Hfl Hy0 HyN) as [Hfy0 HfyN].
  destruct (int_nonneg _ Hfx0) as [Ha Ha0].
  destruct (int_nonneg _ Hfy0) as [Hb Hb0].
  fold a in Ha, Ha0. fold b in Hb, Hb0.
  repeat split; try assumption.
  destruct Hfl as (_ & _ & _ & Hnear).
  pose proof (Hnear _ Hx0 HxN) as Hnx.
  pose proof (Hnear _ Hy0 HyN) as Hny.
  pose proof (Qfloor_le (fl (train_size * inject_Z (Z.of_nat N))%Q)) as Hfa.
  pose proof (Qfloor_le (fl (dev_size * inject_Z (Z.of_nat N))%Q)) as Hfb.
  rewrite <- Ha in Hfa. rewrite <- Hb in Hfb.
  assert (Hn : (0 <= inject_Z (Z.of_nat N))%Q).
  { change 0%Q with (inject_Z 0). rewrite <- Zle_Qle. lia. }
  assert (Hxy : (train_size * inject_Z (Z.of_nat N)
                 + dev_size * inject_Z (Z.of_nat N)
                 <= inject_Z (Z.of_nat N))%Q).
  { rewrite <- Qmult_plus_distr_l.
    rewrite <- (Qmult_1_l (inject_Z (Z.of_nat N))) at 2.
    apply Qmult_le_compat_r; assumption. }
  assert (Hlt : (inject_Z (a + b) < inject_Z (Z.of_nat N + 1))%Q).
  { rewrite !inject_Z_plus. change (inject_Z 1) with 1%Q. lra. }
  rewrite <- Zlt_Qlt in Hlt. lia.
Qed.

Lemma rounds_to_nearest_exact (N : nat) : rounds_to_nearest exact N.
Proof.
  unfold exact. repeat split; intros; lra.
Qed.

Lemma train_dev_test_split_run (fl : Q → Q) {A B : Type}
    (X : list A) (y : list B) (train_size dev_size : Q)
    (g : DataInput.random_state) :
  X ≠ [] → length X = length y →
  let a := int (fl (train_size * inject_Z (Z.of_nat (length X)))%Q) in
  let b := int (fl (dev_size * inject_Z (Z.of_nat (length X)))%Q) in
  (0 ≤ a)%Z → (0 ≤ b)%Z →
  ∃ dataset g1,
    DataInput.shuffle (zip X y) g = Ok (dataset, g1)
    ∧ dataset ≡ₚ zip X y
    ∧ DataInput.train_dev_test_split fl X y train_size dev_size g
      = Ok ((take (Z.to_nat a) dataset.*1, take (Z.to_nat a) dataset.*2),
            (drop (Z.to_nat a) (take (Z.to_nat (a + b)) dataset.*1),
             drop (Z.to_nat a) (take (Z.to_nat (a + b)) dataset.*2)),
            (drop (Z.to_nat (a + b)) dataset.*1,
             drop (Z.to_nat (a + b)) dataset.*2),
            g1).
Proof.
  intros Hne Hlen a b Ha Hb.
  destruct (shuffle_ok (zip X y) g) as (dataset & g1 & Hrun & Hperm).
  exists dataset, g1. split; [exact Hrun|]. split; [exact Hperm|].
  assert (HN : length dataset = length X).
  { rewrite Hperm, length_zip. lia. }
  unfold DataInput.train_dev_test_split. rewrite Hrun. simpl.
  destruct dataset as [|d dataset'] eqn:Hd.
  { destruct X; [congruence|discriminate]. }
  rewrite <- Hd in *. unfold DataInput.unzip. rewrite Hd at 1. simpl.
  rewrite !length_fmap, HN. fold a. fold b.
  rewrite !slice_until, !slice_between, !slice_from by lia.
  reflexivity.
Qed.

Lemma shuffle_indices {A : Type} (l : list A) (g : DataInput.random_state)
    (dataset : list A) (g1 : DataInput.random_state) :
  DataInput.shuffle l g = Ok (dataset, g1) →
  ∃ perm : list nat,
    perm ≡ₚ seq 0 (length l)
    ∧ Forall2 (fun i d => l !! i = Some d) perm dataset.
Proof.
  intros Hrun.
  set (ids := zip (seq 0 (length l)) l).
  destruct (shuffle_ok ids g) as (ids1 & g2 & Hids & Hperm).
  assert (Hsnd : ids.*2 = l).
  { apply snd_zip. rewrite length_seq. lia. }
  assert (Hfst : ids.*1 = seq 0 (length l)).
  { apply fst_zip. rewrite length_seq. lia. }
  pose proof (shuffle_fmap snd ids g) as Hnat.
  rewrite Hsnd, Hids, Hrun in Hnat. simpl in Hnat.
  inversion Hnat; subst dataset g2.
  exists (ids1.*1). split.
  - rewrite Hperm. rewrite Hfst. reflexivity.
  - apply Forall2_fmap. apply Forall_Forall2_diag.
    rewrite Hperm. apply Forall_lookup_2. intros k [i d] Hk.
    apply lookup_zip_with_Some in Hk as (i' & d' & Heq & Hi & Hd).
    inversion Heq; subst i' d'.
    apply lookup_seq in Hi as [-> _]. exact Hd.
Qed.

Lemma zip_three_slices {A B : Type} (l : list A) (k : list B) (a b : nat) :
  zip (take a l) (take a k)
  ++ zip (drop a (take (a + b) l)) (drop a (take (a + b) k))
  ++ zip (drop (a + b) l) (drop (a + b) k)
  = zip l k.
Proof.
  rewrite <- !zip_with_drop, <- !zip_with_take. apply three_slices.
Qed.

(** C6 (as stated, refuted).  A corpus of no document has parallel
    collections of equal length 0, and the splitter returns no partition of
    it: unpacking the empty [zip] at line 109 raises [ValueError]. *)
Lemma train_dev_test_split_empty_corpus_raises :
  DataInput.train_dev_test_split exact
    (@nil (list string)) (@nil (list string)) (1 # 2) (1 # 4)
    example_random_state
  = Raise ValueError.
Proof. reflexivity. Qed.

(** C6 (amended).  For parallel collections [X], [y] of equal length
    [N >= 1] and fractions in [0, 1], the splitter returns three parts and
    one permutation [perm] of the indices [0 .. N-1] gives both outputs:
    position [k] of train ++ dev ++ test holds [X[perm[k]]] on the token
    side and [y[perm[k]]] on the tag side; each part has as many token
    sequences as tag sequences; and the pairs of the three parts are, as a
    multiset, the pairs of the input. *)
Theorem train_dev_test_split_keeps_pairs (fl : Q → Q) {A B : Type}
    (X : list A) (y : list B) (train_size dev_size : Q)
    (g : DataInput.random_state) :
  X ≠ [] → length X = length y →
  rounds_to_nearest fl (length X) →
  (0 <= train_size)%Q → (train_size <= 1)%Q →
  (0 <= dev_size)%Q → (dev_size <= 1)%Q →
  ∃ X_train y_train X_dev y_dev X_test y_test g1 perm,
    DataInput.train_dev_test_split fl X y train_size dev_size g
    = Ok ((X_train, y_train), (X_dev, y_dev), (X_test, y_test), g1)
    ∧ perm ≡ₚ seq 0 (length X)
    ∧ Forall2 (fun i d => X !! i = Some d) perm (X_train ++ X_dev ++ X_test)
    ∧ Forall2 (fun i t => y !! i = Some t) perm (y_train ++ y_dev ++ y_test)
    ∧ length X_train = length y_train
    ∧ length X_dev = length y_dev
    ∧ length X_test = length y_test
    ∧ zip X_train y_train ++ zip X_dev y_dev ++ zip X_test y_test ≡ₚ zip X y.
Proof.
  intros Hne Hlen Hfl Ht0 Ht1 Hd0 Hd1.
  destruct (fraction_of_corpus (length X) train_size Ht0 Ht1) as [Hx0 HxN].
  destruct (fraction_of_corpus (length X) dev_size Hd0 Hd1) as [Hy0 HyN].
  destruct (rounded_in_range fl _ _ Hfl Hx0 HxN) as [Hfx0 _].
  destruct (rounded_in_range fl _ _ Hfl Hy0 HyN) as [Hfy0 _].
  destruct (int_nonneg _ Hfx0) as [_ Ha0].
  destruct (int_nonneg _ Hfy0) as [_ Hb0].
  destruct (train_dev_test_split_run fl X y train_size dev_size g
              Hne Hlen Ha0 Hb0) as (dataset & g1 & Hrun & Hperm & Hsplit).
  set (a := int (fl (train_size * inject_Z (Z.of_nat (length X)))%Q)) in *.
  set (b := int (fl (dev_size * inject_Z (Z.of_nat (length X)))%Q)) in *.
  destruct (shuffle_indices _ _ _ _ Hrun) as (perm & Hseq & Hidx).
  rewrite length_zip, <- Hlen, Nat.min_id in Hseq.
  assert (Hab : Z.to_nat (a + b) = Z.to_nat a + Z.to_nat b) by lia.
  eexists _, _, _, _, _, _, g1, perm.
  split; [exact Hsplit|]. split; [exact Hseq|].
  rewrite !Hab, !three_slices.
  repeat split.
  - apply Forall2_fmap_r.
    eapply Forall2_impl; [exact Hidx|].
    intros i [d t] Hi. simpl.
    apply lookup_zip_with_Some in Hi as (d' & t' & Heq & Hd & _).
    inversion Heq; subst. exact Hd.
  - apply Forall2_fmap_r.
    eapply Forall2_impl; [exact Hidx|].
    intros i [d t] Hi. simpl.
    apply lookup_zip_with_Some in Hi as (d' & t' & Heq & _ & Ht).
    inversion Heq; subst. exact Ht.
  - rewrite !length_take, !length_fmap. reflexivity.
  - rewrite !length_drop, !length_take, !length_fmap. reflexivity.
  - rewrite !length_drop, !length_fmap. reflexivity.
  - rewrite zip_three_slices, zip_fst_snd. exact Hperm.
Qed.

Lemma train_dev_test_split_keeps_pairs_witness :
  ∃ X_train y_train X_dev y_dev X_test y_test g1 perm,
    DataInput.train_dev_test_split exact example_X example_y (1 # 3) (1 # 3)
      example_random_state
    = Ok ((X_train, y_train), (X_dev, y_dev), (X_test, y_test), g1)
    ∧ perm ≡ₚ seq 0 (length example_X)
    ∧ Forall2 (fun i d => example_X !! i = Some d) perm
        (X_train ++ X_dev ++ X_test)
    ∧ Forall2 (fun i t => example_y !! i = Some t) perm
        (y_train ++ y_dev ++ y_test)
    ∧ length X_train = length y_train
    ∧ length X_dev = length y_dev
    ∧ length X_test = length y_test
    ∧ zip X_train y_train ++ zip X_dev y_dev ++ zip X_test y_test
      ≡ₚ zip example_X example_y.
Proof.
  apply (train_dev_test_split_keeps_pairs exact example_X example_y
           (1 # 3) (1 # 3) example_random_state).
  - discriminate.
  - reflexivity.
  - apply rounds_to_nearest_exact.
  - vm_compute. discriminate.
  - vm_compute. discriminate.
  - vm_compute. discriminate.
  - vm_compute. discriminate.
Defined.

(** C7 (as stated, refuted).  For a corpus of [N = 0] documents no split
    is returned at all, hence no split of [floor(train_size * 0) = 0]
    documents: the call raises [ValueError]. *)
Lemma train_dev_test_split_empty_corpus_no_sizes :
  ¬ (∃ splits,
       DataInput.train_dev_test_split exact
         (@nil (list string)) (@nil (list string)) (7 # 10) (2 # 10)
         example_random_state
       = Ok splits).
Proof. intros [splits H]. vm_compute in H. discriminate. Qed.

(** C7 (amended).  For a corpus of [N >= 1] documents and fractions in
    [0, 1] of sum at most 1, the train part has exactly
    [int(train_size * N)] documents and the dev part exactly
    [int(dev_size * N)], the floor of the product as the floating-point
    multiplication delivers it (and [floor(fraction * N)] whenever that
    product is exact); the test part has the remainder, and the three
    lengths add up to [N]. *)
Theorem train_dev_test_split_sizes (fl : Q → Q) {A B : Type}
    (X : list A) (y : list B) (train_size dev_size : Q)
    (g : DataInput.random_state) :
  X ≠ [] → length X = length y →
  rounds_to_nearest fl (length X) →
  (0 <= train_size)%Q → (train_size <= 1)%Q →
  (0 <= dev_size)%Q → (dev_size <= 1)%Q →
  (train_size + dev_size <= 1)%Q →
  ∃ X_train y_train X_dev y_dev X_test y_test g1,
    DataInput.train_dev_test_split fl X y train_size dev_size g
    = Ok ((X_train, y_train), (X_dev, y_dev), (X_test, y_test), g1)
    ∧ Z.of_nat (length X_train)
      = Qfloor (fl (train_size * inject_Z (Z.of_nat (length X)))%Q)
    ∧ Z.of_nat (length X_dev)
      = Qfloor (fl (dev_size * inject_Z (Z.of_nat (length X)))%Q)
    ∧ length X_test = length X - length X_train - length X_dev
    ∧ length X_train + length X_dev + length X_test = length X
    ∧ length y_train = length X_train
    ∧ length y_dev = length X_dev
    ∧ length y_test = length X_test
    ∧ ((fl (train_size * inject_Z (Z.of_nat (length X))) ==
        train_size * inject_Z (Z.of_nat (length X)))%Q →
       Z.of_nat (length X_train)
       = Qfloor (train_size * inject_Z (Z.of_nat (length X)))%Q)
    ∧ ((fl (dev_size * inject_Z (Z.of_nat (length X))) ==
        dev_size * inject_Z (Z.of_nat (length X)))%Q →
       Z.of_nat (length X_dev)
       = Qfloor (dev_size * inject_Z (Z.of_nat (length X)))%Q).
Proof.
  intros Hne Hlen Hfl Ht0 Ht1 Hd0 Hd1 Hsum.
  destruct (split_sizes fl (length X) train_size dev_size
              Hfl Ht0 Ht1 Hd0 Hd1 Hsum) as (Ha & Hb & Ha0 & Hb0 & Hab).
  destruct (train_dev_test_split_run fl X y train_size dev_size g
              Hne Hlen Ha0 Hb0) as (dataset & g1 & Hrun & Hperm & Hsplit).
  set (a := int (fl (train_size * inject_Z (Z.of_nat (length X)))%Q)) in *.
  set (b := int (fl (dev_size * inject_Z (Z.of_nat (length X)))%Q)) in *.
  assert (HN : length dataset = length X).
  { rewrite Hperm, length_zip. lia. }
  eexists _, _, _, _, _, _, g1.
  split; [exact Hsplit|].
  rewrite !length_drop, !length_take, !length_fmap, !HN.
  assert (Htrain : Z.of_nat (Z.to_nat a `min` length X)
                   = Qfloor (fl (train_size * inject_Z (Z.of_nat (length X)))%Q))
    by lia.
  assert (Hdev : Z.of_nat (Z.to_nat (a + b) `min` length X - Z.to_nat a)
                 = Qfloor (fl (dev_size * inject_Z (Z.of_nat (length X)))%Q))
    by lia.
  repeat split; try lia.
  - intros Hexact. rewrite Htrain. apply Qfloor_comp. exact Hexact.
  - intros Hexact. rewrite Hdev. apply Qfloor_comp. exact Hexact.
Qed.

Lemma train_dev_test_split_sizes_witness :
  ∃ X_train y_train X_dev y_dev X_test y_test g1,
    DataInput.train_dev_test_split exact example_X example_y (1 # 2) (1 # 3)
      example_random_state
    = Ok ((X_train, y_train), (X_dev, y_dev), (X_test, y_test), g1)
    ∧ Z.of_nat (length X_train)
      = Qfloor (exact ((1 # 2) * inject_Z (Z.of_nat (length example_X)))%Q)
    ∧ Z.of_nat (length X_dev)
      = Qfloor (exact ((1 # 3) * inject_Z (Z.of_nat (length example_X)))%Q)
    ∧ length X_test = length example_X - length X_train - length X_dev
    ∧ length X_train + length X_dev + length X_test = length example_X
    ∧ length y_train = length X_train
    ∧ length y_dev = length X_dev
    ∧ length y_test = length X_test
    ∧ ((exact ((1 # 2) * inject_Z (Z.of_nat (length example_X))) ==
        (1 # 2) * inject_Z (Z.of_nat (length example_X)))%Q →
       Z.of_nat (length X_train)
       = Qfloor ((1 # 2) * inject_Z (Z.of_nat (length example_X)))%Q)
    ∧ ((exact ((1 # 3) * inject_Z (Z.of_nat (length example_X))) ==
        (1 # 3) * inject_Z (Z.of_nat (length example_X)))%Q →
       Z.of_nat (length X_dev)
       = Qfloor ((1 # 3) * inject_Z (Z.of_nat (length example_X)))%Q).
Proof.
  apply (train_dev_test_split_sizes exact example_X example_y
           (1 # 2) (1 # 3) example_random_state).
  - discriminate.
  - reflexivity.
  - apply rounds_to_nearest_exact.
  - vm_compute. discriminate.
  - vm_compute. discriminate.
  - vm_compute. discriminate.
  - vm_compute. discriminate.
  - vm_compute. discriminate.
Defined.

(** ** numpy arrays *)

Section ArrayFacts.
Context {A : Type}.
Variable shape : A → list nat.

(** The three outcomes of [np.array]. *)
Lemma array_cases (l : list A) :
  (Np.array shape l = Ok l
   ∧ ((∀ a b, a ∈ l → b ∈ l → shape a = shape b)
      ∨ ∃ a b, a ∈ l ∧ b ∈ l ∧ head (shape a) ≠ head (shape b)))
  ∨ (Np.array shape l = Raise ValueError
     ∧ (∀ a b, a ∈ l → b ∈ l → head (shape a) = head (shape b))
     ∧ ∃ a b, a ∈ l ∧ b ∈ l ∧ shape a ≠ shape b).
Proof.
  unfold Np.array, Np.array_shape.
  destruct l as [|a0 l]; [left; split; [reflexivity|left]; intros a b Ha; inversion Ha|].
  cbn [map].
  destruct (decide (Forall (fun s' => s' = shape a0) (map shape l)))
    as [Hsame|Hdiff].
  - left. split; [reflexivity|]. left.
    rewrite Forall_forall in Hsame.
    assert (Hall : ∀ a, a ∈ a0 :: l → shape a = shape a0).
    { intros a Ha. apply elem_of_cons in Ha as [->|Ha]; [reflexivity|].
      apply Hsame, list_elem_of_fmap. eauto. }
    intros a b Ha Hb. rewrite (Hall a Ha), (Hall b Hb). reflexivity.
  - assert (Hex : ∃ b, b ∈ l ∧ shape b ≠ shape a0).
    { apply not_Forall_Exists in Hdiff; [|intros x; apply _].
      apply Exists_exists in Hdiff as (s & Hs & Hne).
      apply list_elem_of_fmap in Hs as (b & -> & Hb). eauto. }
    destruct Hex as (b & Hb & Hne).
    destruct (decide (Forall (fun s' => head s' = head (shape a0))
                        (map shape l))) as [Hhead|Hhead].
    + right. split; [reflexivity|]. split.
      * rewrite Forall_forall in Hhead.
        assert (Hall : ∀ a, a ∈ a0 :: l →
                            head (shape a) = head (shape a0)).
        { intros a Ha. apply elem_of_cons in Ha as [->|Ha]; [reflexivity|].
          apply Hhead, list_elem_of_fmap. eauto. }
        intros a c Ha Hc. rewrite (Hall a Ha), (Hall c Hc). reflexivity.
      * exists b, a0. split; [right; exact Hb|]. split; [left|exact Hne].
    + left. split; [reflexivity|]. right.
      apply not_Forall_Exists in Hhead; [|intros x; apply _].
      apply Exists_exists in Hhead as (s & Hs & Hne').
      apply list_elem_of_fmap in Hs as (c & -> & Hc).
      exists c, a0. split; [right; exact Hc|]. split; [left|exact Hne'].
Qed.

(** [np.array] returns its argument or raises [ValueError]. *)
Lemma array_outcome (l : list A) :
  Np.array shape l = Ok l ∨ Np.array shape l = Raise ValueError.
Proof. destruct (array_cases l) as [[H _]|[H _]]; auto. Qed.

Lemma array_returned (l out : list A) :
  Np.array shape l = Ok out → out = l.
Proof.
  destruct (array_outcome l) as [H|H]; rewrite H; congruence.
Qed.

Lemma array_raised (l : list A) (e : exn) :
  Np.array shape l = Raise e → e = ValueError.
Proof.
  destruct (array_outcome l) as [H|H]; rewrite H; congruence.
Qed.

(** Arrays whose shape is determined by its first dimension are put in
    one array without an error. *)
Lemma array_determined (l : list A) :
  (∀ a b, a ∈ l → b ∈ l →
          head (shape a) = head (shape b) → shape a = shape b) →
  Np.array shape l = Ok l.
Proof.
  intros Hdet. destruct (array_cases l) as [[H _]|(_ & Hhead & a & b & Ha & Hb & Hne)];
    [exact H|].
  exfalso. apply Hne. apply Hdet; auto.
Qed.

(** Arrays that share their first dimension, two of them of different
    shapes, are refused. *)
Lemma array_refused (l : list A) (a b : A) :
  (∀ a b, a ∈ l → b ∈ l → head (shape a) = head (shape b)) →
  a ∈ l → b ∈ l → shape a ≠ shape b →
  Np.array shape l = Raise ValueError.
Proof.
  intros Hhead Ha Hb Hne.
  destruct (array_cases l) as [[_ [Hsame|(c & d & Hc & Hd & Hcd)]]|[H _]];
    [| |exact H].
  - exfalso. apply Hne. apply Hsame; assumption.
  - exfalso. apply Hcd. apply Hhead; assumption.
Qed.

End ArrayFacts.

(** [np.array] never fails on one-dimensional arrays. *)
Lemma array_vectors {A : Type} (l : list (list A)) :
  Np.array Np.vector_shape l = Ok l.
Proof.
  apply array_determined. intros a b _ _. unfold Np.vector_shape. simpl.
  congruence.
Qed.

Lemma matrix_shape_nil {A : Type} : Np.matrix_shape (@nil (list A)) = [0].
Proof. reflexivity. Qed.

(** The shape of a matrix with at least one row. *)
Lemma matrix_shape_rows {A : Type} (width : nat) (rows : list (list A)) :
  rows ≠ [] → Forall (fun row => length row = width) rows →
  Np.matrix_shape rows = [length rows; width].
Proof.
  intros Hne Hall. unfold Np.matrix_shape, Np.array_shape.
  destruct rows as [|row rows]; [congruence|]. cbn [map].
  inversion Hall as [|? ? Hrow Hrows]; subst.
  destruct (decide (Forall (fun s' => s' = Np.vector_shape row)
                      (map Np.vector_shape rows))) as [_|Hdiff].
  { cbn [length]. rewrite length_map. reflexivity. }
  exfalso. apply Hdiff. apply Forall_forall. intros s Hs.
  apply list_elem_of_fmap in Hs as (r & -> & Hr).
  rewrite Forall_forall in Hrows. unfold Np.vector_shape.
  rewrite (Hrows r Hr). reflexivity.
Qed.

(** Matrices of one width, with any numbers of rows, are put in one array
    without an error. *)
Lemma array_matrices {A : Type} (width : nat) (l : list (list (list A))) :
  Forall (Forall (fun row => length row = width)) l →
  Np.array Np.matrix_shape l = Ok l.
Proof.
  intros Hall. rewrite Forall_forall in Hall.
  assert (Hshape : ∀ rows, rows ∈ l →
    Np.matrix_shape rows = [0] ∧ rows = []
    ∨ Np.matrix_shape rows = [length rows; width] ∧ 0 < length rows).
  { intros rows Hin. destruct rows as [|row rows]; [left; split; reflexivity|].
    right. split; [|simpl; lia].
    apply matrix_shape_rows; [discriminate|]. apply Hall. exact Hin. }
  apply array_determined. intros a b Ha Hb.
  destruct (Hshape a Ha) as [[-> ->]|[-> Hla]];
    destruct (Hshape b Hb) as [[-> ->]|[-> Hlb]]; simpl; intros Hhead;
    inversion Hhead; try lia; congruence.
Qed.

(** ** The text vectorizer *)

Section Adapt.
Context {F : Type}.
Variable set_order : gset string → list string.
Hypothesis set_order_elements : ∀ X : gset string, set_order X ≡ₚ elements X.

Lemma assign_oov_spec (oov_words : list string) :
  ∀ (self : TextVectorizer.t F) (g : TextVectorizer.np_random F),
    let r := TextVectorizer.assign_oov oov_words self g in
    TextVectorizer.max_tokens r.1 = TextVectorizer.max_tokens self
    ∧ TextVectorizer.embedding_dim r.1 = TextVectorizer.embedding_dim self
    ∧ dom (TextVectorizer.vocabulary r.1)
      = dom (TextVectorizer.vocabulary self) ∪ list_to_set oov_words
    ∧ (∀ word, word ∉ oov_words →
         TextVectorizer.vocabulary r.1 !! word
         = TextVectorizer.vocabulary self !! word)
    ∧ TextVectorizer.samples r.2 = TextVectorizer.samples g
    ∧ TextVectorizer.drawn r.2
      = TextVectorizer.drawn g
        + length oov_words * TextVectorizer.embedding_dim self.
Proof.
  induction oov_words as [|word rest IH]; intros self g.
  - simpl. repeat split; try reflexivity; try lia. set_solver.
  - cbn [TextVectorizer.assign_oov TextVectorizer.uniform].
    specialize (IH
      (TextVectorizer.set_vocabulary self
         (<[word := map (TextVectorizer.samples g)
                      (seq (TextVectorizer.drawn g)
                           (TextVectorizer.embedding_dim self))]>
            (TextVectorizer.vocabulary self)))
      {| TextVectorizer.samples := TextVectorizer.samples g;
         TextVectorizer.drawn :=
           TextVectorizer.drawn g + TextVectorizer.embedding_dim self |}).
    simpl in IH.
    destruct IH as (Hm & Hd & Hdom & Hkeep & Hs & Hn).
    repeat split.
    + exact Hm.
    + exact Hd.
    + rewrite Hdom, dom_insert_L. set_solver.
    + intros w Hw. rewrite Hkeep by set_solver.
      apply lookup_insert_ne. set_solver.
    + exact Hs.
    + rewrite Hn. simpl. lia.
Qed.

Lemma set_order_set (X : gset string) : list_to_set (set_order X) = X.
Proof. rewrite (set_order_elements X). apply list_to_set_elements_L. Qed.

Lemma set_order_elem (X : gset string) (word : string) :
  word ∈ set_order X ↔ word ∈ X.
Proof. rewrite (set_order_elements X). apply elem_of_elements. Qed.

Lemma set_order_length (X : gset string) : length (set_order X) = size X.
Proof. rewrite (set_order_elements X). reflexivity. Qed.

Lemma set_order_empty : set_order ∅ = [].
Proof.
  apply Permutation_nil_r. rewrite (set_order_elements ∅).
  rewrite elements_empty. reflexivity.
Qed.

Lemma adapt_spec (self : TextVectorizer.t F) (documents : list (list string))
    (g : TextVectorizer.np_random F) :
  let words : gset string := list_to_set (concat documents) in
  let r := TextVectorizer.adapt set_order self documents g in
  TextVectorizer.max_tokens r.1.1 = TextVectorizer.max_tokens self
  ∧ TextVectorizer.embedding_dim r.1.1 = TextVectorizer.embedding_dim self
  ∧ dom (TextVectorizer.vocabulary r.1.1)
    = dom (TextVectorizer.vocabulary self) ∪ words
  ∧ r.2 = size (words ∖ dom (TextVectorizer.vocabulary self))
  ∧ size (TextVectorizer.vocabulary r.1.1)
    = size (TextVectorizer.vocabulary self) + r.2
  ∧ TextVectorizer.samples r.1.2 = TextVectorizer.samples g
  ∧ TextVectorizer.drawn r.1.2
    = TextVectorizer.drawn g + r.2 * TextVectorizer.embedding_dim self
  ∧ (∀ word v,
       TextVectorizer.vocabulary self !! word = Some v →
       TextVectorizer.vocabulary r.1.1 !! word = Some v).
Proof.
  intros words r. unfold r, TextVectorizer.adapt. fold words.
  set (oov_words := words ∖ dom (TextVectorizer.vocabulary self)).
  pose proof (assign_oov_spec (set_order oov_words) self g) as Hloop.
  destruct (TextVectorizer.assign_oov (set_order oov_words) self g)
    as [self1 g1].
  simpl in *.
  destruct Hloop as (Hm & Hd & Hdom & Hkeep & Hs & Hn).
  rewrite set_order_set in Hdom. rewrite set_order_length in Hn.
  assert (Hdom' : dom (TextVectorizer.vocabulary self1)
                  = dom (TextVectorizer.vocabulary self) ∪ words).
  { rewrite Hdom. unfold oov_words. apply set_eq. intros x.
    rewrite !elem_of_union, elem_of_difference.
    destruct (decide (x ∈ dom (TextVectorizer.vocabulary self))); tauto. }
  repeat split; try assumption; try reflexivity.
  - rewrite <- !(size_dom (D := gset string)), Hdom. apply size_union.
    unfold oov_words. set_solver.
  - intros word v Hv. rewrite Hkeep; [exact Hv|].
    rewrite set_order_elem. unfold oov_words.
    intros [_ Hout]%elem_of_difference. apply Hout.
    apply elem_of_dom. eauto.
Qed.

Lemma adapt_again (self : TextVectorizer.t F) (documents : list (list string))
    (g : TextVectorizer.np_random F) :
  let r := TextVectorizer.adapt set_order self documents g in
  TextVectorizer.adapt set_order r.1.1 documents r.1.2 = (r.1.1, r.1.2, 0).
Proof.
  intros r.
  destruct (adapt_spec self documents g) as (_ & _ & Hdom & _).
  fold r in Hdom.
  unfold TextVectorizer.adapt at 1.
  assert (Hnone : (list_to_set (concat documents) : gset string)
                  ∖ dom (TextVectorizer.vocabulary r.1.1) = ∅).
  { rewrite Hdom. set_solver. }
  rewrite Hnone, set_order_empty, size_empty. reflexivity.
Qed.

End Adapt.

Lemma comprehension_option {A B : Type} (h : A → option B) (e : exn)
    (l : list A) :
  comprehension
    (fun a => match h a with Some b => Ok b | None => Raise e end) l
  = match mapM h l with Some bs => Ok bs | None => Raise e end.
Proof.
  induction l as [|a l IH]; [reflexivity|].
  cbn [comprehension mapM]. rewrite IH.
  destruct (h a) as [b|]; [|reflexivity]. simpl.
  destruct (mapM h l) as [bs|]; reflexivity.
Qed.

Lemma assign_oov_fields {F : Type} (oov_words : list string) :
  ∀ (self : TextVectorizer.t F) (g : TextVectorizer.np_random F),
    TextVectorizer.embedding_dim (TextVectorizer.assign_oov oov_words self g).1
    = TextVectorizer.embedding_dim self.
Proof.
  induction oov_words as [|word rest IH]; intros self g; [reflexivity|].
  cbn [TextVectorizer.assign_oov TextVectorizer.uniform]. rewrite IH.
  reflexivity.
Qed.

Lemma assign_oov_keeps {F : Type} (oov_words : list string) :
  ∀ (self : TextVectorizer.t F) (g : TextVectorizer.np_random F) word,
    word ∉ oov_words →
    TextVectorizer.vocabulary (TextVectorizer.assign_oov oov_words self g).1
      !! word
    = TextVectorizer.vocabulary self !! word.
Proof.
  induction oov_words as [|w rest IH]; intros self g word Hnot;
    [reflexivity|].
  apply not_elem_of_cons in Hnot as [Hne Hnot].
  cbn [TextVectorizer.assign_oov TextVectorizer.uniform].
  rewrite IH by exact Hnot. simpl. apply lookup_insert_ne. congruence.
Qed.

Lemma assign_oov_blocks {F : Type} (oov_words : list string) :
  ∀ (self : TextVectorizer.t F) (g : TextVectorizer.np_random F)
    (k : nat) (word : string),
    NoDup oov_words → oov_words !! k = Some word →
    TextVectorizer.vocabulary (TextVectorizer.assign_oov oov_words self g).1
      !! word
    = Some (sample_block g k (TextVectorizer.embedding_dim self)).
Proof.
  induction oov_words as [|w rest IH]; intros self g k word Hnd Hk;
    [discriminate|].
  apply NoDup_cons in Hnd as [Hw Hnd].
  cbn [TextVectorizer.assign_oov TextVectorizer.uniform].
  destruct k as [|k]; simpl in Hk.
  - inversion Hk; subst w.
    rewrite assign_oov_keeps by exact Hw. simpl.
    rewrite lookup_insert_eq. unfold sample_block.
    rewrite Nat.mul_0_l, Nat.add_0_r. reflexivity.
  - rewrite (IH _ _ k word Hnd Hk). unfold sample_block. simpl.
    do 3 f_equal. lia.
Qed.

Lemma sample_block_length {F : Type} (g : TextVectorizer.np_random F)
    (k size : nat) : length (sample_block g k size) = size.
Proof. unfold sample_block. rewrite length_map, length_seq. reflexivity. Qed.

Section AdaptMore.
Context {F : Type}.
Variable set_order : gset string → list string.
Hypothesis set_order_elements : ∀ X : gset string, set_order X ≡ₚ elements X.

Lemma set_order_NoDup (X : gset string) : NoDup (set_order X).
Proof. rewrite (set_order_elements X). apply NoDup_elements. Qed.

Lemma adapt_unfold (self : TextVectorizer.t F)
    (documents : list (list string)) (g : TextVectorizer.np_random F) :
  let oov_words :=
    set_order ((list_to_set (concat documents) : gset string)
               ∖ dom (TextVectorizer.vocabulary self)) in
  (TextVectorizer.adapt set_order self documents g).1.1
  = (TextVectorizer.assign_oov oov_words self g).1.
Proof.
  intros oov_words. unfold TextVectorizer.adapt. fold oov_words.
  destruct (TextVectorizer.assign_oov oov_words self g). reflexivity.
Qed.

Lemma adapt_shape (self : TextVectorizer.t F)
    (documents : list (list string)) (g : TextVectorizer.np_random F) :
  well_shaped self →
  well_shaped (TextVectorizer.adapt set_order self documents g).1.1.
Proof.
  intros Hshape word v. rewrite adapt_unfold.
  set (oov_words := set_order _).
  rewrite assign_oov_fields.
  destruct (decide (word ∈ oov_words)) as [Hin|Hnot].
  - apply list_elem_of_lookup_1 in Hin as [k Hk].
    rewrite (assign_oov_blocks oov_words self g k word
               (set_order_NoDup _) Hk).
    intros Hv. inversion Hv. apply sample_block_length.
  - rewrite assign_oov_keeps by exact Hnot. apply Hshape.
Qed.

End AdaptMore.

Section Transform.
Context {F : Type}.

Lemma transform_document_lookup (self : TextVectorizer.t F)
    (document : list string) :
  TextVectorizer._transform_document self document
  = match mapM (fun word => TextVectorizer.vocabulary self !! word) document
    with
    | Some vectors => Ok vectors
    | None => Raise NotAdaptedError
    end.
Proof.
  unfold TextVectorizer._transform_document, TextVectorizer.dict_getitem.
  rewrite (comprehension_option
             (fun word => TextVectorizer.vocabulary self !! word) KeyError).
  destruct (mapM _ document); [|reflexivity].
  simpl. rewrite array_vectors. reflexivity.
Qed.

Lemma transform_documents_lookup (self : TextVectorizer.t F)
    (documents : list (list string)) :
  comprehension (TextVectorizer._transform_document self) documents
  = match mapM (mapM (fun word => TextVectorizer.vocabulary self !! word))
            documents
    with
    | Some out => Ok out
    | None => Raise NotAdaptedError
    end.
Proof.
  rewrite <- (comprehension_option
                (mapM (fun word => TextVectorizer.vocabulary self !! word))
                NotAdaptedError).
  induction documents as [|document documents IH]; [reflexivity|].
  cbn [comprehension]. rewrite IH, transform_document_lookup. reflexivity.
Qed.

Lemma transform_lookup (self : TextVectorizer.t F)
    (documents : list (list string)) :
  TextVectorizer.transform self documents
  = match mapM (mapM (fun word => TextVectorizer.vocabulary self !! word))
            documents
    with
    | Some out => Np.array Np.matrix_shape out
    | None => Raise NotAdaptedError
    end.
Proof.
  unfold TextVectorizer.transform. rewrite transform_documents_lookup.
  destruct (mapM _ documents); reflexivity.
Qed.

Lemma transform_raises_iff (self : TextVectorizer.t F)
    (documents : list (list string)) :
  TextVectorizer.transform self documents = Raise NotAdaptedError
  ↔ ∃ document word,
      document ∈ documents ∧ word ∈ document
      ∧ TextVectorizer.vocabulary self !! word = None.
Proof.
  rewrite transform_lookup. split.
  - destruct (mapM _ documents) as [out|] eqn:Hm.
    { intros H. apply array_raised in H. discriminate. }
    intros _. apply mapM_None in Hm.
    apply Exists_exists in Hm as (document & Hin & Hdoc).
    apply mapM_None in Hdoc.
    apply Exists_exists in Hdoc as (word & Hw & Hnone).
    exists document, word. auto.
  - intros (document & word & Hin & Hw & Hnone).
    assert (Hm : mapM (mapM (fun word =>
                   TextVectorizer.vocabulary self !! word)) documents = None).
    { apply mapM_None. apply Exists_exists. exists document.
      split; [exact Hin|]. apply mapM_None. apply Exists_exists.
      exists word. auto. }
    rewrite Hm. reflexivity.
Qed.

Lemma transform_vectors (self : TextVectorizer.t F)
    (documents : list (list string)) (out : list (list (list F))) :
  TextVectorizer.transform self documents = Ok out →
  Forall2 (Forall2 (fun word v =>
    TextVectorizer.vocabulary self !! word = Some v)) documents out.
Proof.
  rewrite transform_lookup.
  destruct (mapM _ documents) as [out'|] eqn:Hm; [|discriminate].
  intros H. apply array_returned in H. subst out'.
  apply mapM_Some in Hm.
  eapply Forall2_impl; [exact Hm|].
  intros document vectors Hdoc. simpl in Hdoc.
  apply mapM_Some in Hdoc. exact Hdoc.
Qed.

Lemma transform_raised (self : TextVectorizer.t F)
    (documents : list (list string)) (e : exn) :
  TextVectorizer.transform self documents = Raise e →
  e = NotAdaptedError ∨ e = ValueError.
Proof.
  rewrite transform_lookup. destruct (mapM _ documents).
  - intros H. right. eapply array_raised. exact H.
  - intros H. left. congruence.
Qed.

(** When every vector of the vocabulary has [embedding_dim] numbers, the
    arrays of the documents are matrices of one width. *)
Lemma transform_well_shaped (self : TextVectorizer.t F)
    (documents : list (list string)) :
  well_shaped self →
  TextVectorizer.transform self documents
  = match mapM (mapM (fun word => TextVectorizer.vocabulary self !! word))
            documents
    with
    | Some out => Ok out
    | None => Raise NotAdaptedError
    end.
Proof.
  intros Hshape. rewrite transform_lookup.
  destruct (mapM _ documents) as [out|] eqn:Hm; [|reflexivity].
  apply (array_matrices (TextVectorizer.embedding_dim self)).
  apply mapM_Some in Hm.
  apply Forall_forall. intros vectors Hin.
  apply list_elem_of_lookup_1 in Hin as [i Hi].
  destruct (Forall2_lookup_r _ _ _ _ _ Hm Hi) as (document & _ & Hdoc).
  apply mapM_Some in Hdoc.
  apply Forall_forall. intros v Hv.
  apply list_elem_of_lookup_1 in Hv as [j Hj].
  destruct (Forall2_lookup_r _ _ _ _ _ Hdoc Hj) as (word & _ & Hword).
  eapply Hshape. exact Hword.
Qed.

Lemma transform_returns (self : TextVectorizer.t F)
    (documents : list (list string)) :
  well_shaped self →
  (∀ document word, document ∈ documents → word ∈ document →
     is_Some (TextVectorizer.vocabulary self !! word)) →
  ∃ out,
    TextVectorizer.transform self documents = Ok out
    ∧ Forall2 (Forall2 (fun word v =>
         TextVectorizer.vocabulary self !! word = Some v)) documents out.
Proof.
  intros Hshape Hall.
  assert (Hrun : ∃ out, TextVectorizer.transform self documents = Ok out).
  { rewrite (transform_well_shaped self documents Hshape).
    destruct (mapM _ documents) as [out|] eqn:Hm; [eauto|].
    exfalso. apply mapM_None in Hm.
    apply Exists_exists in Hm as (document & Hin & Hdoc).
    apply mapM_None in Hdoc.
    apply Exists_exists in Hdoc as (word & Hw & Hnone).
    destruct (Hall document word Hin Hw) as [v Hv]. congruence. }
  destruct Hrun as (out & Hrun). exists out. split; [exact Hrun|].
  apply transform_vectors. exact Hrun.
Qed.

Lemma transform_only_NotAdaptedError (self : TextVectorizer.t F)
    (documents : list (list string)) (e : exn) :
  well_shaped self →
  TextVectorizer.transform self documents = Raise e → e = NotAdaptedError.
Proof.
  intros Hshape. rewrite (transform_well_shaped self documents Hshape).
  destruct (mapM _ documents); congruence.
Qed.

End Transform.

Section Glove.
Context {F : Type}.
Variable strtod : string → option (F * string).

Lemma table_line_inv (line : string) :
  table_line line →
  ∃ word coefs, split_maxsplit1 line = [word; coefs].
Proof.
  unfold table_line. intros H.
  destruct (split_maxsplit1 line) as [|w [|c [|x l]]]; simpl in H; try lia.
  eauto.
Qed.

Lemma not_table_line_raise (line : string) (rest : list string)
    (vocabulary : gmap string (list F)) :
  ¬ table_line line →
  TextVectorizer.glove_lines strtod (line :: rest) vocabulary
  = Raise ValueError.
Proof.
  unfold table_line. intros H. cbn [TextVectorizer.glove_lines].
  destruct (split_maxsplit1 line) as [|w [|c [|x l]]]; try reflexivity.
  exfalso. apply H. reflexivity.
Qed.

Lemma glove_lines_table (lines : list string) :
  ∀ vocabulary : gmap string (list F),
    Forall table_line lines →
    ∃ vocabulary1,
      TextVectorizer.glove_lines strtod lines vocabulary = Ok vocabulary1
      ∧ (∀ word v, vocabulary1 !! word = Some v →
           vocabulary !! word = Some v
           ∨ ∃ line coefs,
               line ∈ lines ∧ split_maxsplit1 line = [word; coefs]
               ∧ v = TextVectorizer.fromstring strtod coefs)
      ∧ (∀ line word coefs,
           line ∈ lines → split_maxsplit1 line = [word; coefs] →
           is_Some (vocabulary1 !! word))
      ∧ (∀ word, is_Some (vocabulary !! word) → is_Some (vocabulary1 !! word)).
Proof.
  induction lines as [|line rest IH]; intros vocabulary Hall.
  - exists vocabulary. split; [reflexivity|].
    split; [auto|]. split; [|auto].
    intros line word coefs Hin. inversion Hin.
  - inversion Hall as [|? ? Hline Hrest]; subst.
    destruct (table_line_inv line Hline) as (word & coefs & Hsplit).
    cbn [TextVectorizer.glove_lines]. rewrite Hsplit.
    destruct (IH (<[word := TextVectorizer.fromstring strtod coefs]> vocabulary)
                Hrest) as (vocabulary1 & Hrun & Hfrom & Hall1 & Hkeep).
    exists vocabulary1. split; [exact Hrun|]. split; [|split].
    + intros w v Hv. destruct (Hfrom w v Hv) as [Hold|Hnew].
      * destruct (decide (word = w)) as [->|Hne].
        -- rewrite lookup_insert_eq in Hold. inversion Hold; subst.
           right. exists line, coefs. split; [left|]; auto.
        -- rewrite lookup_insert_ne in Hold by exact Hne. left. exact Hold.
      * destruct Hnew as (l & c & Hin & Hs & Hv').
        right. exists l, c. split; [right; exact Hin|]. auto.
    + intros l w c Hin Hs.
      apply elem_of_cons in Hin as [->|Hin].
      * rewrite Hsplit in Hs. inversion Hs; subst.
        apply Hkeep. rewrite lookup_insert_eq. eauto.
      * eapply Hall1; eassumption.
    + intros w Hw. apply Hkeep.
      destruct (decide (word = w)) as [->|Hne].
      * rewrite lookup_insert_eq. eauto.
      * rewrite lookup_insert_ne by exact Hne. exact Hw.
Qed.

Lemma glove_lines_not_table (lines : list string) :
  ∀ vocabulary : gmap string (list F),
    Exists (fun line => ¬ table_line line) lines →
    TextVectorizer.glove_lines strtod lines vocabulary = Raise ValueError.
Proof.
  induction lines as [|line rest IH]; intros vocabulary Hex.
  - inversion Hex.
  - destruct (decide (table_line line)) as [Hline|Hline].
    + destruct (table_line_inv line Hline) as (word & coefs & Hsplit).
      cbn [TextVectorizer.glove_lines]. rewrite Hsplit.
      apply IH. inversion Hex; subst; [contradiction|assumption].
    + apply not_table_line_raise. exact Hline.
Qed.

End Glove.

(** The separator of [np.fromstring] is C whitespace.  On the line
    [cat 0.1 <FS>0.2], where <FS> is the file separator (code point 28),
    [split] takes <FS> for whitespace and leaves [0.1 <FS>0.2] to the
    reader, which skips the blank, finds no number at <FS> and stops: the
    entry of [cat] holds one number. *)
Lemma fromstring_separator_C_whitespace :
  split_maxsplit1 ("cat 0.1 " +:+ String (ascii_of_nat 28) "0.2")
  = ["cat"; "0.1 " +:+ String (ascii_of_nat 28) "0.2"]
  ∧ TextVectorizer.fromstring read_numeral
      ("0.1 " +:+ String (ascii_of_nat 28) "0.2") = ["0.1"]
  ∧ TextVectorizer.fromstring read_numeral "0.1 0.2" = ["0.1"; "0.2"].
Proof. repeat split; reflexivity. Qed.

(** C4 (amended).  [parse_glove] compares no vector with [embedding_dim]
    and raises no [FormatError]: it fails, with the [ValueError] of the
    unpacking at line 86, exactly on a table that has a line without two
    whitespace-separated fields; otherwise it succeeds, every word of the
    table gets an entry, and every entry holds all the numbers that
    [np.fromstring] reads on a line of its word, however many.  So the
    entries of a loaded vocabulary all have length [embedding_dim] when
    every line of the table carries exactly [embedding_dim] numbers. *)
Theorem parse_glove_no_length_check {F : Type}
    (strtod : string → option (F * string))
    (self : TextVectorizer.t F) (embedding_folder : nat → string) :
  let lines := readlines (embedding_folder (TextVectorizer.embedding_dim self)) in
  (Exists (fun line => ¬ table_line line) lines →
   TextVectorizer.parse_glove strtod self embedding_folder = Raise ValueError)
  ∧ (Forall table_line lines →
     ∃ vocabulary,
       TextVectorizer.parse_glove strtod self embedding_folder = Ok vocabulary
       ∧ (∀ word v, vocabulary !! word = Some v →
            ∃ line coefs,
              line ∈ lines ∧ split_maxsplit1 line = [word; coefs]
              ∧ v = TextVectorizer.fromstring strtod coefs)
       ∧ (∀ line word coefs,
            line ∈ lines → split_maxsplit1 line = [word; coefs] →
            is_Some (vocabulary !! word))
       ∧ (Forall (fun line => ∀ word coefs,
                    split_maxsplit1 line = [word; coefs] →
                    length (TextVectorizer.fromstring strtod coefs)
                    = TextVectorizer.embedding_dim self) lines →
          ∀ word v, vocabulary !! word = Some v →
                    length v = TextVectorizer.embedding_dim self))
  ∧ (∀ line,
       TextVectorizer.parse_glove strtod self embedding_folder
       ≠ Raise (FormatError line)).
Proof.
  intros lines. unfold TextVectorizer.parse_glove. fold lines.
  assert (Hok : Forall table_line lines →
    ∃ vocabulary,
      TextVectorizer.glove_lines strtod lines ∅ = Ok vocabulary
      ∧ (∀ word v, vocabulary !! word = Some v →
           ∃ line coefs,
             line ∈ lines ∧ split_maxsplit1 line = [word; coefs]
             ∧ v = TextVectorizer.fromstring strtod coefs)
      ∧ (∀ line word coefs,
           line ∈ lines → split_maxsplit1 line = [word; coefs] →
           is_Some (vocabulary !! word))).
  { intros Hall.
    destruct (glove_lines_table strtod lines ∅ Hall)
      as (vocabulary & Hrun & Hfrom & Hall1 & _).
    exists vocabulary. split; [exact Hrun|]. split; [|exact Hall1].
    intros word v Hv. destruct (Hfrom word v Hv) as [Hold|Hnew];
      [rewrite lookup_empty in Hold; discriminate|exact Hnew]. }
  split; [|split].
  - apply glove_lines_not_table.
  - intros Hall. destruct (Hok Hall) as (vocabulary & Hrun & Hfrom & Hall1).
    exists vocabulary. repeat split; try assumption.
    intros Hdim word v Hv.
    destruct (Hfrom word v Hv) as (line & coefs & Hin & Hsplit & ->).
    rewrite Forall_forall in Hdim. eapply Hdim; eassumption.
  - intros line.
    destruct (decide (Forall table_line lines)) as [Hall|Hnot].
    + destruct (Hok Hall) as (vocabulary & Hrun & _). rewrite Hrun. discriminate.
    + apply not_Forall_Exists in Hnot; [|intros x; apply _].
      rewrite (glove_lines_not_table strtod lines ∅ Hnot). discriminate.
Qed.

(** C4 (as stated, refuted).  With [embedding_dim = 2], the table line
    [cat 0.1 0.2 0.3] is loaded without any error, and the entry of [cat]
    is a vector of length 3. *)
Lemma parse_glove_wrong_length_accepted :
  TextVectorizer.parse_glove read_numeral example_vectorizer three_number_table
  = Ok (<["cat" := ["0.1"; "0.2"; "0.3"]]> ∅)
  ∧ length ["0.1"; "0.2"; "0.3"]
    ≠ TextVectorizer.embedding_dim example_vectorizer
  ∧ (<["cat" := ["0.1"; "0.2"; "0.3"]]> ∅ : gmap string (list string))
      !! "cat" = Some ["0.1"; "0.2"; "0.3"].
Proof.
  split; [reflexivity|]. split; [simpl; lia|]. apply lookup_insert_eq.
Qed.

Lemma parse_glove_no_length_check_witness :
  Forall table_line
    (readlines (three_number_table
                  (TextVectorizer.embedding_dim example_vectorizer)))
  ∧ ∃ vocabulary,
      TextVectorizer.parse_glove read_numeral example_vectorizer
        three_number_table = Ok vocabulary
      ∧ (∀ word v, vocabulary !! word = Some v →
           ∃ line coefs,
             line ∈ readlines (three_number_table
                      (TextVectorizer.embedding_dim example_vectorizer))
             ∧ split_maxsplit1 line = [word; coefs]
             ∧ v = TextVectorizer.fromstring read_numeral coefs).
Proof.
  assert (H : Forall table_line
                (readlines (three_number_table
                   (TextVectorizer.embedding_dim example_vectorizer)))).
  { repeat constructor. }
  split; [exact H|].
  destruct (proj1 (proj2 (parse_glove_no_length_check read_numeral
                            example_vectorizer three_number_table)) H)
    as (vocabulary & Hrun & Hfrom & _).
  exists vocabulary. split; [exact Hrun|exact Hfrom].
Defined.

(** C8.  [adapt] adds exactly the distinct tokens of the documents that the
    vocabulary lacks: the keys become the old keys together with the
    tokens, the count it reports is the number of distinct missing tokens,
    the vocabulary grows by that count and one vector is drawn per added
    word; every entry present before keeps its vector; and a second call
    with the same documents adds nothing, draws nothing and leaves the
    instance as it is. *)
Theorem adapt_idempotent_no_overwrite {F : Type}
    (set_order : gset string → list string)
    (self : TextVectorizer.t F) (documents : list (list string))
    (g : TextVectorizer.np_random F) :
  (∀ X : gset string, set_order X ≡ₚ elements X) →
  let words : gset string := list_to_set (concat documents) in
  let r := TextVectorizer.adapt set_order self documents g in
  dom (TextVectorizer.vocabulary r.1.1)
  = dom (TextVectorizer.vocabulary self) ∪ words
  ∧ r.2 = size (words ∖ dom (TextVectorizer.vocabulary self))
  ∧ size (TextVectorizer.vocabulary r.1.1)
    = size (TextVectorizer.vocabulary self) + r.2
  ∧ TextVectorizer.drawn r.1.2
    = TextVectorizer.drawn g + r.2 * TextVectorizer.embedding_dim self
  ∧ (∀ word v,
       TextVectorizer.vocabulary self !! word = Some v →
       TextVectorizer.vocabulary r.1.1 !! word = Some v)
  ∧ TextVectorizer.adapt set_order r.1.1 documents r.1.2 = (r.1.1, r.1.2, 0).
Proof.
  intros Hord words r.
  destruct (adapt_spec set_order Hord self documents g)
    as (_ & _ & Hdom & Hcount & Hsize & _ & Hdrawn & Hkeep).
  repeat split; try assumption.
  apply adapt_again. exact Hord.
Qed.

Lemma elem_of_concat_documents (documents : list (list string))
    (document : list string) (word : string) :
  document ∈ documents → word ∈ document → word ∈ concat documents.
Proof.
  intros Hd Hw. apply list_elem_of_In. apply in_concat.
  exists document. split; apply list_elem_of_In; assumption.
Qed.

(** C9 (as stated, refuted).  The instance built with [embedding_dim = 2]
    from a table whose line is [cat 0.1 0.2 0.3] holds three numbers for
    [cat]; [adapt] on the corpus [[cat], [fox]] gives [fox] two numbers;
    [transform] on the same corpus then does not return: the arrays of
    the two documents have shapes (1, 3) and (1, 2), and [np.array]
    raises [ValueError]. *)
Lemma transform_after_adapt_ValueError :
  TextVectorizer.init read_numeral 20000 2 three_number_table
  = Ok three_number_vectorizer
  ∧ TextVectorizer.transform
      (TextVectorizer.adapt elements three_number_vectorizer
         [["cat"]; ["fox"]] example_np_random).1.1
      [["cat"]; ["fox"]]
    = Raise ValueError.
Proof. split; vm_compute; reflexivity. Qed.

(** C9 (amended).  [transform] raises [NotAdaptedError] if and only if
    some token of some document is absent from the vocabulary; the only
    other exception is the [ValueError] of [np.array], which needs a
    vector in the vocabulary whose length is not [embedding_dim].  After
    [adapt] on a corpus that contains every token of the documents,
    [transform] does not raise [NotAdaptedError]; what it returns holds,
    for each document, the vectors of its tokens in order; and it does
    return when every vector that the vocabulary held before [adapt] has
    [embedding_dim] numbers. *)
Theorem transform_NotAdaptedError_iff_missing {F : Type}
    (self : TextVectorizer.t F) (documents : list (list string)) :
  (TextVectorizer.transform self documents = Raise NotAdaptedError
   ↔ ∃ document word,
       document ∈ documents ∧ word ∈ document
       ∧ TextVectorizer.vocabulary self !! word = None)
  ∧ (∀ e, TextVectorizer.transform self documents = Raise e →
          e = NotAdaptedError ∨ (e = ValueError ∧ ¬ well_shaped self))
  ∧ (∀ (set_order : gset string → list string)
       (corpus : list (list string)) (g : TextVectorizer.np_random F),
       (∀ X : gset string, set_order X ≡ₚ elements X) →
       (∀ word, word ∈ concat documents → word ∈ concat corpus) →
       let self1 := (TextVectorizer.adapt set_order self corpus g).1.1 in
       TextVectorizer.transform self1 documents ≠ Raise NotAdaptedError
       ∧ (∀ out,
            TextVectorizer.transform self1 documents = Ok out →
            Forall2 (Forall2 (fun word v =>
              TextVectorizer.vocabulary self1 !! word = Some v))
              documents out)
       ∧ (well_shaped self →
          ∃ out,
            TextVectorizer.transform self1 documents = Ok out
            ∧ Forall2 (Forall2 (fun word v =>
                 TextVectorizer.vocabulary self1 !! word = Some v))
                documents out)).
Proof.
  split; [apply transform_raises_iff|]. split.
  { intros e He. destruct (transform_raised self documents e He) as [-> | ->];
      [left; reflexivity|].
    right. split; [reflexivity|]. intros Hshape.
    pose proof (transform_only_NotAdaptedError self documents _ Hshape He).
    discriminate. }
  intros set_order corpus g Hord Hsub self1.
  assert (Hknown : ∀ document word, document ∈ documents → word ∈ document →
            is_Some (TextVectorizer.vocabulary self1 !! word)).
  { intros document word Hd Hw. apply elem_of_dom. unfold self1.
    destruct (adapt_spec set_order Hord self corpus g) as (_ & _ & Hdom & _).
    rewrite Hdom. apply elem_of_union_r, elem_of_list_to_set, Hsub.
    eapply elem_of_concat_documents; eassumption. }
  split; [|split].
  - intros Hraise. apply transform_raises_iff in Hraise
      as (document & word & Hd & Hw & Hnone).
    destruct (Hknown document word Hd Hw) as [v Hv]. congruence.
  - intros out. apply transform_vectors.
  - intros Hshape. apply transform_returns; [|exact Hknown].
    unfold self1. apply adapt_shape; assumption.
Qed.

Lemma assign_oov_max_tokens {F : Type} (m : Z) (oov_words : list string) :
  ∀ (self : TextVectorizer.t F) (g : TextVectorizer.np_random F),
    TextVectorizer.assign_oov oov_words (with_max_tokens m self) g
    = (with_max_tokens m (TextVectorizer.assign_oov oov_words self g).1,
       (TextVectorizer.assign_oov oov_words self g).2).
Proof.
  induction oov_words as [|word rest IH]; intros self g; [reflexivity|].
  cbn [TextVectorizer.assign_oov TextVectorizer.uniform].
  cbn [with_max_tokens TextVectorizer.embedding_dim].
  rewrite <- IH. reflexivity.
Qed.

Lemma nth_word_length (n : nat) : String.length (nth_word n) = n.
Proof. induction n as [|n IH]; simpl; congruence. Qed.

#[local] Instance nth_word_inj : Inj (=) (=) nth_word.
Proof.
  intros n m H. rewrite <- (nth_word_length n), <- (nth_word_length m), H.
  reflexivity.
Qed.

(** C10.  No operation reads [max_tokens]: for instances that differ in
    [max_tokens] only, [parse_glove] returns the same vocabulary, [adapt]
    the same vocabulary, generator state and count, and [transform] the
    same output; and whatever [max_tokens] is, [adapt] makes the
    vocabulary larger than any given number, [max_tokens] included. *)
Theorem max_tokens_never_read {F : Type}
    (strtod : string → option (F * string))
    (set_order : gset string → list string)
    (self : TextVectorizer.t F) (m : Z) :
  (∀ X : gset string, set_order X ≡ₚ elements X) →
  (∀ embedding_folder,
     TextVectorizer.parse_glove strtod (with_max_tokens m self) embedding_folder
     = TextVectorizer.parse_glove strtod self embedding_folder)
  ∧ (∀ documents g,
       let r := TextVectorizer.adapt set_order self documents g in
       TextVectorizer.adapt set_order (with_max_tokens m self) documents g
       = (with_max_tokens m r.1.1, r.1.2, r.2))
  ∧ (∀ documents,
       TextVectorizer.transform (with_max_tokens m self) documents
       = TextVectorizer.transform self documents)
  ∧ (∀ (n : nat) g,
       ∃ documents,
         let self1 := (TextVectorizer.adapt set_order self documents g).1.1 in
         n < size (TextVectorizer.vocabulary self1)
         ∧ (TextVectorizer.max_tokens self1
            < Z.of_nat (size (TextVectorizer.vocabulary self1)))%Z).
Proof.
  intros Hord. split; [reflexivity|]. split; [|split; [reflexivity|]].
  - intros documents g r. unfold r, TextVectorizer.adapt.
    cbn [with_max_tokens TextVectorizer.vocabulary].
    rewrite assign_oov_max_tokens.
    destruct (TextVectorizer.assign_oov _ self g). reflexivity.
  - intros n g.
    set (k := S (n `max` Z.to_nat (TextVectorizer.max_tokens self))).
    exists [nth_word <$> seq 0 k]. intros self1.
    destruct (adapt_spec set_order Hord self [nth_word <$> seq 0 k] g)
      as (Hm & _ & Hdom & _).
    fold self1 in Hm, Hdom.
    assert (Hsize : k ≤ size (TextVectorizer.vocabulary self1)).
    { rewrite <- (size_dom (D := gset string)), Hdom.
      etransitivity; [|apply subseteq_size, union_subseteq_r].
      replace (concat [nth_word <$> seq 0 k]) with (nth_word <$> seq 0 k)
        by (cbn [concat]; rewrite app_nil_r; reflexivity).
      rewrite size_list_to_set.
      - rewrite length_fmap, length_seq. reflexivity.
      - apply NoDup_fmap; [apply _|apply NoDup_seq]. }
    rewrite Hm. unfold k in Hsize. lia.
Qed.

Lemma adapt_idempotent_no_overwrite_witness :
  (∀ X : gset string, elements X ≡ₚ elements X)
  ∧ let r := TextVectorizer.adapt elements example_vectorizer
               [["cat"; "fox"]; ["cat"]] example_np_random in
    TextVectorizer.adapt elements r.1.1 [["cat"; "fox"]; ["cat"]] r.1.2
    = (r.1.1, r.1.2, 0).
Proof.
  assert (H : ∀ X : gset string, elements X ≡ₚ elements X)
    by (intros X; reflexivity).
  split; [exact H|].
  exact (proj2 (proj2 (proj2 (proj2 (proj2
    (adapt_idempotent_no_overwrite elements example_vectorizer
       [["cat"; "fox"]; ["cat"]] example_np_random H)))))).
Defined.

Lemma transform_NotAdaptedError_iff_missing_witness :
  (∀ X : gset string, elements X ≡ₚ elements X)
  ∧ (∀ word, word ∈ concat [["cat"; "fox"]; ["fox"]] →
             word ∈ concat [["fox"]; ["cat"; "fox"]])
  ∧ well_shaped cat_vectorizer
  ∧ let self1 := (TextVectorizer.adapt elements cat_vectorizer
                    [["fox"]; ["cat"; "fox"]] example_np_random).1.1 in
    ∃ out,
      TextVectorizer.transform self1 [["cat"; "fox"]; ["fox"]] = Ok out
      ∧ Forall2 (Forall2 (fun word v =>
           TextVectorizer.vocabulary self1 !! word = Some v))
          [["cat"; "fox"]; ["fox"]] out.
Proof.
  assert (H : ∀ X : gset string, elements X ≡ₚ elements X)
    by (intros X; reflexivity).
  assert (Hsub : ∀ word, word ∈ concat [["cat"; "fox"]; ["fox"]] →
                         word ∈ concat [["fox"]; ["cat"; "fox"]]).
  { simpl. intros word Hw. rewrite !elem_of_cons in Hw. rewrite !elem_of_cons.
    tauto. }
  assert (Hshape : well_shaped cat_vectorizer).
  { intros word v Hv. unfold cat_vectorizer in Hv. simpl in Hv.
    apply lookup_insert_Some in Hv as [[_ <-]|[_ Hv]]; [reflexivity|].
    rewrite lookup_empty in Hv. discriminate. }
  split; [exact H|]. split; [exact Hsub|]. split; [exact Hshape|].
  exact (proj2 (proj2 (proj2 (proj2
    (transform_NotAdaptedError_iff_missing cat_vectorizer
       [["cat"; "fox"]; ["fox"]]))
    elements [["fox"]; ["cat"; "fox"]] example_np_random H Hsub)) Hshape).
Defined.

Lemma max_tokens_never_read_witness :
  (∀ X : gset string, elements X ≡ₚ elements X)
  ∧ ∀ documents,
      TextVectorizer.transform (with_max_tokens 5 example_vectorizer) documents
      = TextVectorizer.transform example_vectorizer documents.
Proof.
  assert (H : ∀ X : gset string, elements X ≡ₚ elements X)
    by (intros X; reflexivity).
  split; [exact H|].
  exact (proj1 (proj2 (proj2
    (max_tokens_never_read read_numeral elements example_vectorizer 5 H)))).
Defined.

(** ** The target vectorizer *)

Lemma insert_label_not_nil (s : string) (l : list string) :
  LabelBinarizer.insert_label s l ≠ [].
Proof.
  destruct l as [|h t]; simpl; [discriminate|].
  destruct (String.compare s h); discriminate.
Qed.

Lemma elem_of_insert_label (x s : string) (l : list string) :
  x ∈ LabelBinarizer.insert_label s l ↔ x = s ∨ x ∈ l.
Proof.
  induction l as [|h t IH]; simpl.
  - rewrite list_elem_of_singleton. split; [auto|]. intros [H|H]; [exact H|inversion H].
  - destruct (String.compare s h) eqn:Hc.
    + apply String.compare_eq_iff in Hc. subst. set_solver.
    + set_solver.
    + rewrite !elem_of_cons, IH. tauto.
Qed.

Lemma elem_of_unique_labels (x : string) (y : list string) :
  x ∈ LabelBinarizer.unique_labels y ↔ x ∈ y.
Proof.
  induction y as [|s y IH]; simpl; [reflexivity|].
  rewrite elem_of_insert_label, IH, elem_of_cons. reflexivity.
Qed.

Lemma unique_labels_not_nil (y : list string) :
  y ≠ [] → LabelBinarizer.unique_labels y ≠ [].
Proof.
  destruct y as [|s y]; [congruence|]. intros _. simpl.
  apply insert_label_not_nil.
Qed.

Lemma adapt_classes (self self1 : TargetVectorizer.t)
    (targets : list (list string)) :
  TargetVectorizer.adapt self targets = Ok self1 →
  concat targets ≠ []
  ∧ TargetVectorizer.get_classes self1
    = Ok (LabelBinarizer.unique_labels (concat targets)).
Proof.
  unfold TargetVectorizer.adapt, LabelBinarizer.fit.
  destruct (decide (length (concat targets) = 0)) as [H0|H0];
    [discriminate|].
  simpl. intros H. inversion H; subst. split; [|reflexivity].
  intros Hnil. rewrite Hnil in H0. apply H0. reflexivity.
Qed.

Lemma adapt_fitted (self self1 : TargetVectorizer.t)
    (targets : list (list string)) :
  TargetVectorizer.adapt self targets = Ok self1 →
  concat targets ≠ []
  ∧ TargetVectorizer.vectorizer self1
    = Some {| LabelBinarizer.y_type_ :=
                LabelBinarizer.type_of_target (concat targets);
              LabelBinarizer.classes_ :=
                LabelBinarizer.unique_labels (concat targets) |}.
Proof.
  unfold TargetVectorizer.adapt, LabelBinarizer.fit.
  destruct (decide (length (concat targets) = 0)) as [H0|H0];
    [discriminate|].
  simpl. intros H. inversion H; subst. split; [|reflexivity].
  intros Hnil. rewrite Hnil in H0. apply H0. reflexivity.
Qed.

(** After a successful [adapt] the class set is not empty: [transform]
    encodes every document over the classes of that call and puts the
    matrices in one array. *)
Lemma transform_after_adapt (self self1 : TargetVectorizer.t)
    (targets documents : list (list string)) :
  TargetVectorizer.adapt self targets = Ok self1 →
  TargetVectorizer.transform self1 documents
  = Py.bind
      (comprehension
         (fun y => LabelBinarizer.label_binarize y
                     (LabelBinarizer.unique_labels (concat targets)))
         documents)
      (Np.array Np.matrix_shape).
Proof.
  intros Hadapt. destruct (adapt_fitted self self1 targets Hadapt) as [Hne Hv].
  unfold TargetVectorizer.transform. rewrite Hv. simpl.
  destruct (decide (length (LabelBinarizer.unique_labels (concat targets)) = 0))
    as [H0|_]; [|reflexivity].
  exfalso. apply (unique_labels_not_nil _ Hne).
  destruct (LabelBinarizer.unique_labels (concat targets));
    [reflexivity|discriminate].
Qed.

Lemma comprehension_raised {A B : Type} (f : A → result B) (l : list A)
    (e : exn) :
  comprehension f l = Raise e → ∃ a, a ∈ l ∧ f a = Raise e.
Proof.
  induction l as [|a l IH]; [discriminate|]. cbn [comprehension].
  destruct (f a) as [b|e'] eqn:Ha; simpl.
  - destruct (comprehension f l) as [bs|e'']; simpl; [discriminate|].
    intros H. inversion H; subst e''.
    destruct (IH eq_refl) as (a' & Hin & Ha'). exists a'. split; [right|]; auto.
  - intros H. inversion H; subst e'. exists a. split; [left|exact Ha].
Qed.

Lemma comprehension_returned {A B : Type} (f : A → result B) (l : list A)
    (out : list B) :
  comprehension f l = Ok out ↔ Forall2 (fun a b => f a = Ok b) l out.
Proof.
  revert out. induction l as [|a l IH]; intros out; cbn [comprehension].
  - split; [intros H; inversion H; constructor|].
    intros H. inversion H. reflexivity.
  - destruct (f a) as [b|e] eqn:Ha; simpl.
    + destruct (comprehension f l) as [bs|e'] eqn:Hl; simpl.
      * split.
        -- intros H. inversion H; subst out. constructor; [exact Ha|].
           apply IH. reflexivity.
        -- intros H. inversion H as [|? b' ? bs' Hb Hbs]; subst.
           apply IH in Hbs. congruence.
      * split; [discriminate|].
        intros H. inversion H as [|? b' ? bs' Hb Hbs]; subst.
        apply IH in Hbs. discriminate.
    + split; [discriminate|].
      intros H. inversion H as [|? b' ? bs' Hb Hbs]; subst. congruence.
Qed.

Lemma label_binarize_many_classes (y classes : list string) :
  y ≠ [] → 3 ≤ length classes →
  LabelBinarizer.label_binarize y classes
  = Ok (map (LabelBinarizer.indicator_row classes) y).
Proof.
  intros Hy Hn. unfold LabelBinarizer.label_binarize.
  destruct (decide (length y = 0)) as [H0|_].
  { destruct y; [congruence|discriminate]. }
  replace (length classes =? 1) with false
    by (symmetry; apply Nat.eqb_neq; lia).
  replace (3 <=? length classes) with true
    by (symmetry; apply Nat.leb_le; exact Hn).
  rewrite andb_false_r, andb_true_r.
  destruct (LabelBinarizer.type_of_target y); reflexivity.
Qed.

Lemma indicator_row_length (classes : list string) (label : string) :
  length (LabelBinarizer.indicator_row classes label) = length classes.
Proof. unfold LabelBinarizer.indicator_row. apply length_map. Qed.

Lemma indicator_row_absent (classes : list string) (label : string) :
  label ∉ classes →
  LabelBinarizer.indicator_row classes label
  = replicate (length classes) 0%Z.
Proof.
  induction classes as [|c classes IH]; [reflexivity|].
  intros Hnot. apply not_elem_of_cons in Hnot as [Hne Hnot].
  simpl. rewrite (IH Hnot).
  destruct (String.eqb_spec c label); [congruence|reflexivity].
Qed.

Lemma indicator_row_one_hot (classes : list string) (label : string) (i : nat) :
  NoDup classes → classes !! i = Some label →
  LabelBinarizer.indicator_row classes label
  = <[i := 1%Z]> (replicate (length classes) 0%Z).
Proof.
  intros Hnd. revert i.
  induction Hnd as [|c classes Hc Hnd IH]; intros i Hi; [discriminate|].
  destruct i as [|i]; simpl in *.
  - inversion Hi; subst. rewrite String.eqb_refl.
    rewrite <- (indicator_row_absent classes label Hc). reflexivity.
  - assert (Hin : label ∈ classes) by (eapply list_elem_of_lookup_2; eauto).
    destruct (String.eqb_spec c label) as [->|_]; [contradiction|].
    f_equal. apply IH. exact Hi.
Qed.

(** C1 (the code at the failing input).  After [adapt] on
    [[NN, VB], [NN]] the classes are [NN, VB], and [transform] on
    [[NN, VB]] yields [[0], [1]]: with two classes the binarizer returns
    one 0/1 column, not the one-hot vectors [[1, 0], [0, 1]] of length 2. *)
Theorem transform_two_classes_single_column :
  ∃ self,
    TargetVectorizer.adapt TargetVectorizer.init [["NN"; "VB"]; ["NN"]]
    = Ok self
    ∧ TargetVectorizer.get_classes self = Ok ["NN"; "VB"]
    ∧ TargetVectorizer.transform self [["NN"; "VB"]] = Ok [[[0%Z]; [1%Z]]].
Proof.
  eexists. split; [reflexivity|]. split; reflexivity.
Qed.

(** C2 (the code at the failing input).  On an instance on which [adapt]
    was never called, [transform] and [inverse_transform] raise
    [AttributeError], whatever their argument: the test of lines 179 and
    189 reads the attribute [classes_], which exists only after [fit]. *)
Theorem transform_before_adapt_AttributeError
    (inverse_binarize :
       LabelBinarizer.target_type → list string → list (list Z)
       → result (list string))
    (targets : list (list string)) (one_hot : list (list (list Z))) :
  TargetVectorizer.transform TargetVectorizer.init targets
  = Raise AttributeError
  ∧ TargetVectorizer.inverse_transform inverse_binarize
      TargetVectorizer.init one_hot
    = Raise AttributeError.
Proof. split; reflexivity. Qed.

Lemma last_column_rows (rows : list (list Z)) :
  Forall (fun row => row ≠ []) rows →
  ∃ out, comprehension LabelBinarizer.last_column rows = Ok out
         ∧ length out = length rows
         ∧ Forall (fun row => length row = 1) out.
Proof.
  induction 1 as [|row rows Hrow _ (out & Hout & Hlen & Hwidth)].
  - exists []. repeat split. constructor.
  - cbn [comprehension]. unfold LabelBinarizer.last_column at 1.
    destruct (last row) as [v|] eqn:Hl.
    + simpl. rewrite Hout. simpl. eexists. split; [reflexivity|].
      split; [simpl; f_equal; exact Hlen|].
      constructor; [reflexivity|exact Hwidth].
    + apply last_None in Hl. contradiction.
Qed.

Lemma label_binarize_empty (classes : list string) :
  LabelBinarizer.label_binarize [] classes = Raise ValueError.
Proof. reflexivity. Qed.

Lemma indicator_rows_width (classes y : list string) :
  Forall (fun row => length row = length classes)
    (map (LabelBinarizer.indicator_row classes) y).
Proof.
  apply Forall_forall. intros row Hrow.
  apply list_elem_of_fmap in Hrow as (label & -> & _).
  apply indicator_row_length.
Qed.

(** The matrix of a non-empty tag sequence: one row per tag, of the width
    that the binarizer chooses for the sequence. *)
Lemma label_binarize_shape (y classes : list string) :
  y ≠ [] → classes ≠ [] →
  ∃ rows, LabelBinarizer.label_binarize y classes = Ok rows
          ∧ length rows = length y
          ∧ Forall (fun row => length row = encoding_width classes y) rows.
Proof.
  intros Hy Hc. unfold LabelBinarizer.label_binarize, encoding_width.
  destruct (decide (length y = 0)) as [H0|_].
  { destruct y; [congruence|discriminate]. }
  pose proof (indicator_rows_width classes y) as Hwidth.
  destruct (LabelBinarizer.type_of_target y); simpl.
  - destruct (length classes) as [|[|[|k]]] eqn:Hk; simpl.
    + destruct classes; [congruence|discriminate].
    + eexists. split; [reflexivity|]. split; [apply length_map|].
      apply Forall_forall. intros row Hrow.
      apply list_elem_of_fmap in Hrow as (label & -> & _). reflexivity.
    + destruct (last_column_rows (map (LabelBinarizer.indicator_row classes) y))
        as (out & Hout & Hlen & Hone).
      * eapply Forall_impl; [exact Hwidth|]. intros row Hrow ->.
        discriminate.
      * exists out. split; [exact Hout|].
        split; [rewrite Hlen; apply length_map|exact Hone].
    + eexists. split; [reflexivity|]. split; [apply length_map|exact Hwidth].
  - eexists. split; [reflexivity|]. split; [apply length_map|exact Hwidth].
Qed.

Lemma label_binarize_raised (y classes : list string) (e : exn) :
  classes ≠ [] →
  LabelBinarizer.label_binarize y classes = Raise e → y = [] ∧ e = ValueError.
Proof.
  intros Hc. destruct y as [|tag y].
  - rewrite label_binarize_empty. intros H. inversion H. auto.
  - destruct (label_binarize_shape (tag :: y) classes ltac:(discriminate) Hc)
      as (rows & Hrows & _).
    rewrite Hrows. discriminate.
Qed.

(** The outcomes of [transform] after a successful [adapt]: it raises
    nothing but [ValueError], which an empty document gives, and what it
    returns has one matrix per document. *)
Lemma transform_after_adapt_raised (self self1 : TargetVectorizer.t)
    (targets documents : list (list string)) (e : exn) :
  TargetVectorizer.adapt self targets = Ok self1 →
  TargetVectorizer.transform self1 documents = Raise e → e = ValueError.
Proof.
  intros Hadapt. rewrite (transform_after_adapt self self1 targets documents Hadapt).
  destruct (adapt_fitted self self1 targets Hadapt) as [Hne _].
  pose proof (unique_labels_not_nil _ Hne) as Hc.
  destruct (comprehension _ documents) as [matrices|e'] eqn:Hrun; simpl.
  - apply array_raised.
  - intros H. inversion H; subst e'.
    apply comprehension_raised in Hrun as (y & _ & Hy).
    apply (label_binarize_raised y _ e Hc) in Hy as [_ He]. exact He.
Qed.

(** After a successful [adapt] the class set is never empty: the branch
    that raises [NotAdaptedError] is not taken. *)
Lemma NotAdaptedError_unreachable (self self1 : TargetVectorizer.t)
    (targets documents : list (list string)) :
  TargetVectorizer.adapt self targets = Ok self1 →
  TargetVectorizer.transform self1 documents ≠ Raise NotAdaptedError.
Proof.
  intros Hadapt H.
  apply (transform_after_adapt_raised self self1 targets documents _ Hadapt)
    in H.
  discriminate.
Qed.

Lemma string_compare_lt_trans (a : string) :
  ∀ b c : string,
    String.compare a b = Lt → String.compare b c = Lt → String.compare a c = Lt.
Proof.
  induction a as [|x a IH]; intros [|y b] [|z c]; simpl;
    try discriminate; try reflexivity.
  unfold Ascii.compare.
  destruct (N.compare_spec (N_of_ascii x) (N_of_ascii y)) as [Hxy|Hxy|Hxy];
    destruct (N.compare_spec (N_of_ascii y) (N_of_ascii z)) as [Hyz|Hyz|Hyz];
    try discriminate; intros H1 H2.
  - rewrite Hxy, Hyz, N.compare_refl. eapply IH; eassumption.
  - rewrite Hxy. apply N.compare_lt_iff in Hyz. rewrite Hyz. reflexivity.
  - rewrite <- Hyz. apply N.compare_lt_iff in Hxy. rewrite Hxy. reflexivity.
  - assert (H : (N_of_ascii x < N_of_ascii z)%N) by lia.
    apply N.compare_lt_iff in H. rewrite H. reflexivity.
Qed.

Lemma insert_label_sorted (s : string) (l : list string) :
  StronglySorted string_lt l →
  StronglySorted string_lt (LabelBinarizer.insert_label s l).
Proof.
  induction 1 as [|h t Hsorted IH Hall]; simpl.
  - repeat constructor.
  - destruct (String.compare s h) eqn:Hc.
    + constructor; assumption.
    + constructor; [constructor; assumption|].
      constructor; [exact Hc|].
      eapply Forall_impl; [exact Hall|].
      intros x Hx. eapply string_compare_lt_trans; eassumption.
    + constructor; [exact IH|].
      apply Forall_forall. intros x Hx.
      apply elem_of_insert_label in Hx as [->|Hx].
      * unfold string_lt. rewrite String.compare_antisym, Hc. reflexivity.
      * rewrite Forall_forall in Hall. apply Hall. exact Hx.
Qed.

Lemma unique_labels_sorted (y : list string) :
  StronglySorted string_lt (LabelBinarizer.unique_labels y).
Proof.
  induction y as [|s y IH]; simpl; [constructor|].
  apply insert_label_sorted. exact IH.
Qed.

Lemma unique_labels_NoDup (y : list string) :
  NoDup (LabelBinarizer.unique_labels y).
Proof.
  pose proof (unique_labels_sorted y) as Hs.
  induction Hs as [|h t _ IH Hall]; constructor; [|exact IH].
  intros Hin. rewrite Forall_forall in Hall.
  specialize (Hall h Hin). unfold string_lt in Hall.
  pose proof (String.compare_antisym h h) as Ha.
  rewrite Hall in Ha. discriminate.
Qed.

Lemma encode_many_classes (classes : list string)
    (documents : list (list string)) :
  3 ≤ length classes →
  Forall (fun document => document ≠ []) documents →
  comprehension (fun y => LabelBinarizer.label_binarize y classes) documents
  = Ok (map (map (LabelBinarizer.indicator_row classes)) documents).
Proof.
  intros Hn Hdocs.
  induction Hdocs as [|document documents Hdoc _ IH]; [reflexivity|].
  cbn [comprehension map].
  rewrite (label_binarize_many_classes _ _ Hdoc Hn). simpl.
  rewrite IH. reflexivity.
Qed.

(** With three classes or more, every non-empty tag sequence is encoded
    row by row over the sorted classes. *)
Lemma transform_many_classes (self0 self : TargetVectorizer.t)
    (targets documents : list (list string)) :
  TargetVectorizer.adapt self0 targets = Ok self →
  3 ≤ length (LabelBinarizer.unique_labels (concat targets)) →
  Forall (fun document => document ≠ []) documents →
  TargetVectorizer.transform self documents
  = Ok (map (map (LabelBinarizer.indicator_row
                    (LabelBinarizer.unique_labels (concat targets))))
          documents).
Proof.
  intros Hadapt Hn Hdocs.
  rewrite (transform_after_adapt self0 self targets documents Hadapt).
  rewrite (encode_many_classes _ documents Hn Hdocs). simpl.
  apply (array_matrices
           (length (LabelBinarizer.unique_labels (concat targets)))).
  apply Forall_forall. intros rows Hrows.
  apply list_elem_of_fmap in Hrows as (document & -> & _).
  apply indicator_rows_width.
Qed.

(** The row of a tag seen during [adapt] is one-hot at the position of the
    tag in the class list. *)
Lemma indicator_row_of_class (targets : list (list string)) (tag : string) :
  tag ∈ concat targets →
  ∃ i,
    LabelBinarizer.unique_labels (concat targets) !! i = Some tag
    ∧ LabelBinarizer.indicator_row
        (LabelBinarizer.unique_labels (concat targets)) tag
      = <[i := 1%Z]>
          (replicate
             (length (LabelBinarizer.unique_labels (concat targets))) 0%Z).
Proof.
  intros Hin. apply elem_of_unique_labels in Hin.
  apply list_elem_of_lookup_1 in Hin as [i Hi].
  exists i. split; [exact Hi|].
  apply indicator_row_one_hot; [apply unique_labels_NoDup|exact Hi].
Qed.

(** ** More on the parser *)

Lemma lstrip_empty (s : string) :
  lstrip s = EmptyString ↔ Forall (fun c => isspace c = true) (chars s).
Proof.
  induction s as [|c r IH]; simpl.
  - split; [constructor|reflexivity].
  - destruct (isspace c) eqn:Hc.
    + rewrite IH. split; [constructor; assumption|].
      intros H. inversion H; assumption.
    + split; [discriminate|]. intros H. inversion H; congruence.
Qed.

Lemma rstrip_empty_head (c : ascii) (r : string) :
  isspace c = false → rstrip (String c r) ≠ EmptyString.
Proof.
  intros Hc. simpl. destruct (rstrip r); [rewrite Hc|]; discriminate.
Qed.

Lemma lstrip_head (s : string) :
  lstrip s = EmptyString
  ∨ ∃ c r, lstrip s = String c r ∧ isspace c = false.
Proof.
  induction s as [|c r IH]; simpl; [left; reflexivity|].
  destruct (isspace c) eqn:Hc; [exact IH|].
  right. exists c, r. auto.
Qed.

(** X1.  A line ends a sentence exactly when all its characters are
    whitespace: tabs and spaces count, so a line of three empty or blank
    fields is a sentence boundary, not a record. *)
Theorem blank_iff_whitespace_only (line : string) :
  is_blank line = true ↔ whitespace_only line.
Proof.
  unfold whitespace_only. fold (chars line).
  unfold is_blank, strip. rewrite <- lstrip_empty.
  destruct (lstrip_head line) as [H|(c & r & H & Hc)]; rewrite H.
  - simpl. split; reflexivity.
  - split; [|discriminate].
    intros Hb. apply String.eqb_eq in Hb.
    exfalso. exact (rstrip_empty_head c r Hc Hb).
Qed.

Lemma docs_records_or_malformed (docs : list string) :
  Forall records_only docs
  ∨ Exists (fun doc => Exists malformed (readlines doc)) docs.
Proof.
  induction docs as [|doc docs [IH|IH]].
  - left. constructor.
  - destruct (records_or_malformed (readlines doc)) as [H|H].
    + left. constructor; assumption.
    + right. apply Exists_cons_hd. exact H.
  - right. apply Exists_cons_tl. exact IH.
Qed.

Lemma records_not_malformed (docs : list string) :
  Forall records_only docs →
  ¬ Exists (fun doc => Exists malformed (readlines doc)) docs.
Proof.
  intros Hall Hex. apply Exists_exists in Hex as (doc & Hin & Hbad).
  rewrite Forall_forall in Hall. specialize (Hall doc Hin).
  apply Exists_exists in Hbad as (line & Hl & Hnb & H3).
  unfold records_only in Hall. rewrite Forall_forall in Hall.
  apply H3, Hall; assumption.
Qed.

(** X2.  Sentence-split parsing returns exactly when every non-blank line
    of every file has three tab-separated fields, and it raises nothing
    but [ValueError]. *)
Theorem parse_dataset_split_outcome
    (loadtxt_columns : string → result (list string * list string))
    (docs : list string) :
  ((∃ corpus, DataInput.parse_dataset loadtxt_columns docs true = Ok corpus)
   ↔ Forall records_only docs)
  ∧ (∀ e, DataInput.parse_dataset loadtxt_columns docs true = Raise e →
          e = ValueError).
Proof.
  unfold DataInput.parse_dataset.
  destruct (docs_records_or_malformed docs) as [Hrec|Hbad].
  - rewrite (parse_docs_records loadtxt_columns docs [] [] Hrec).
    split; [|discriminate]. split; [auto|eauto].
  - rewrite (parse_docs_malformed loadtxt_columns docs [] [] Hbad).
    split; [|congruence]. split.
    + intros [corpus H]. discriminate.
    + intros Hrec. exfalso. exact (records_not_malformed docs Hrec Hbad).
Qed.

Lemma Forall2_concat_map {A B C : Type} (P : B → C → Prop)
    (f : A → list B) (g : A → list C) (l : list A) :
  (∀ a, Forall2 P (f a) (g a)) →
  Forall2 P (concat (map f l)) (concat (map g l)).
Proof.
  intros H. induction l as [|a l IH]; simpl; [constructor|].
  apply Forall2_app; [apply H|exact IH].
Qed.

(** X3.  Whatever sentence-split parsing returns, its [i]-th token sequence
    and its [i]-th tag sequence have the same length, and there are as
    many of the ones as of the others. *)
Theorem parse_dataset_split_aligned
    (loadtxt_columns : string → result (list string * list string))
    (docs : list string) (X y : list (list string)) :
  DataInput.parse_dataset loadtxt_columns docs true = Ok (X, y) →
  Forall2 (fun tokens tags => length tokens = length tags) X y.
Proof.
  intros Hrun.
  assert (Hrec : Forall records_only docs).
  { destruct (docs_records_or_malformed docs) as [H|H]; [exact H|].
    unfold DataInput.parse_dataset in Hrun.
    rewrite (parse_docs_malformed loadtxt_columns docs [] [] H) in Hrun.
    discriminate. }
  unfold DataInput.parse_dataset in Hrun.
  rewrite (parse_docs_records loadtxt_columns docs [] [] Hrec) in Hrun.
  inversion Hrun; subst. simpl.
  apply Forall2_concat_map. intros doc. unfold sentence_fields.
  change (Forall2 (fun tokens tags => length tokens = length tags)
            (map (field 0) <$> sentences (readlines doc))
            (map (field 1) <$> sentences (readlines doc))).
  apply Forall2_fmap, Forall_Forall2_diag, Forall_forall.
  intros s _. rewrite !length_map. reflexivity.
Qed.

Lemma parse_docs_whole_documents
    (loadtxt_columns : string → result (list string * list string))
    (docs : list string) :
  ∀ X y : list (list string),
    DataInput.parse_docs loadtxt_columns false docs X y
    = Py.bind (comprehension loadtxt_columns docs)
        (fun columns => Ok (X ++ columns.*1, y ++ columns.*2)).
Proof.
  induction docs as [|doc docs IH]; intros X y.
  - simpl. rewrite !app_nil_r. reflexivity.
  - cbn [DataInput.parse_docs comprehension]. unfold DataInput.parse_doc.
    destruct (loadtxt_columns doc) as [[col0 col1]|e]; [|reflexivity].
    simpl. rewrite IH.
    destruct (comprehension loadtxt_columns docs) as [columns|e];
      [|reflexivity].
    simpl. rewrite <- !app_assoc. reflexivity.
Qed.

(** X4.  Without sentence splitting the parser calls numpy's reader on the
    files in order: the first exception of the reader is the exception of
    the parser, and otherwise there is exactly one Document per file, the
    two columns of that file. *)
Theorem parse_dataset_whole_documents
    (loadtxt_columns : string → result (list string * list string))
    (docs : list string) :
  DataInput.parse_dataset loadtxt_columns docs false
  = Py.bind (comprehension loadtxt_columns docs)
      (fun columns => Ok (columns.*1, columns.*2))
  ∧ (∀ X y, DataInput.parse_dataset loadtxt_columns docs false = Ok (X, y) →
            length X = length docs ∧ length y = length docs).
Proof.
  assert (Heq : DataInput.parse_dataset loadtxt_columns docs false
                = Py.bind (comprehension loadtxt_columns docs)
                    (fun columns => Ok (columns.*1, columns.*2))).
  { unfold DataInput.parse_dataset. apply parse_docs_whole_documents. }
  split; [exact Heq|].
  intros X y Hrun. rewrite Heq in Hrun.
  assert (Hlen : ∀ columns, comprehension loadtxt_columns docs = Ok columns →
                            length columns = length docs).
  { clear. induction docs as [|doc docs IH]; intros columns.
    - simpl. intros H. inversion H. reflexivity.
    - cbn [comprehension]. destruct (loadtxt_columns doc); [|discriminate].
      simpl. destruct (comprehension loadtxt_columns docs); [|discriminate].
      simpl. intros H. inversion H. simpl. f_equal. apply IH. reflexivity. }
  destruct (comprehension loadtxt_columns docs) as [columns|e];
    [|discriminate].
  simpl in Hrun. inversion Hrun; subst.
  rewrite !length_fmap. split; apply Hlen; reflexivity.
Qed.


Lemma split_not_nil (sep : ascii) (s : string) : split sep s ≠ [].
Proof.
  destruct s as [|c r]; simpl; [discriminate|].
  destruct (Ascii.eqb c sep); [discriminate|].
  destruct (split sep r); discriminate.
Qed.

Lemma join_split (sep : ascii) (s : string) : join sep (split sep s) = s.
Proof.
  induction s as [|c r IH]; [reflexivity|].
  simpl. pose proof (split_not_nil sep r) as Hne.
  destruct (Ascii.eqb_spec c sep) as [->|Hc].
  - destruct (split sep r) as [|f fs]; [congruence|].
    cbn [join]. cbn [join] in IH. rewrite IH. reflexivity.
  - destruct (split sep r) as [|f fs]; [congruence|].
    rewrite <- IH. destruct fs; reflexivity.
Qed.

Lemma split_fields_no_sep (sep : ascii) (s : string) :
  Forall (fun f => sep ∉ chars f) (split sep s).
Proof.
  induction s as [|c r IH]; simpl.
  - constructor; [|constructor]. simpl. apply not_elem_of_nil.
  - destruct (Ascii.eqb_spec c sep) as [->|Hc].
    + constructor; [apply not_elem_of_nil|exact IH].
    + destruct (split sep r) as [|f fs].
      * constructor; [|constructor]. simpl.
        intros H. apply list_elem_of_singleton in H. congruence.
      * inversion IH as [|? ? Hf Hfs]; subst.
        constructor; [|exact Hfs]. simpl.
        intros H. apply elem_of_cons in H as [H|H]; [congruence|].
        exact (Hf H).
Qed.

Lemma readlines_line_feed (s line : string) :
  line ∈ readlines s →
  ∃ body, (LF ∉ body) ∧ (chars line = body ∨ chars line = body ++ [LF]).
Proof.
  revert line. induction s as [|c r IH]; intros line Hin; simpl in Hin.
  - inversion Hin.
  - destruct (Ascii.eqb_spec c LF) as [->|Hc].
    + apply elem_of_cons in Hin as [->|Hin]; [|apply IH; exact Hin].
      exists []. split; [apply not_elem_of_nil|]. right. reflexivity.
    + destruct (readlines r) as [|l ls] eqn:Hr.
      * apply list_elem_of_singleton in Hin. subst line.
        exists [c]. split; [|left; reflexivity].
        intros H. apply list_elem_of_singleton in H. congruence.
      * apply elem_of_cons in Hin as [->|Hin].
        -- destruct (IH l) as (body & Hb & Hl); [left; reflexivity|].
           exists (c :: body). split.
           ++ intros H. apply elem_of_cons in H as [H|H]; [congruence|].
              exact (Hb H).
           ++ simpl. destruct Hl as [->| ->]; [left|right]; reflexivity.
        -- apply IH. right. exact Hin.
Qed.

Lemma chars_append (a b : string) : chars (a +:+ b) = chars a ++ chars b.
Proof.
  induction a as [|c a IH]; [reflexivity|]. simpl. f_equal. exact IH.
Qed.

Lemma line_feed_not_before (body prefix rest : list ascii) :
  LF ∉ body → rest ≠ [] →
  (prefix ++ rest = body ∨ prefix ++ rest = body ++ [LF]) →
  LF ∉ prefix.
Proof.
  intros Hb Hrest [H|H] Hin.
  - apply Hb. rewrite <- H. apply elem_of_app. left. exact Hin.
  - destruct (exists_last Hrest) as (rest' & x & ->).
    rewrite app_assoc in H. apply app_inj_tail in H as [H _].
    apply Hb. rewrite <- H. apply elem_of_app. left. exact Hin.
Qed.

Lemma record_fields_clean (doc line : string) :
  line ∈ readlines doc → three_fields line →
  ((TAB ∉ chars (field 0 line)) ∧ (LF ∉ chars (field 0 line)))
  ∧ ((TAB ∉ chars (field 1 line)) ∧ (LF ∉ chars (field 1 line))).
Proof.
  intros Hin H3.
  pose proof (split_fields_no_sep TAB line) as Hsep.
  pose proof (join_split TAB line) as Hjoin.
  rewrite (three_fields_inv line H3) in Hsep, Hjoin.
  cbn [join] in Hjoin.
  inversion Hsep as [|? ? H0 Hsep1]; subst.
  inversion Hsep1 as [|? ? H1 _]; subst.
  destruct (readlines_line_feed doc line Hin) as (body & Hb & Hline).
  rewrite <- Hjoin in Hline.
  rewrite chars_append in Hline. simpl in Hline.
  rewrite chars_append in Hline. simpl in Hline.
  fold (chars (field 2 line)) in Hline.
  repeat split; try assumption.
  - apply (line_feed_not_before body (chars (field 0 line))
             (TAB :: chars (field 1 line) ++ TAB :: chars (field 2 line)));
      [exact Hb|intros Hnil; discriminate Hnil|exact Hline].
  - assert (Hline' :
      (chars (field 0 line) ++ TAB :: chars (field 1 line))
      ++ TAB :: chars (field 2 line) = body
      ∨ (chars (field 0 line) ++ TAB :: chars (field 1 line))
        ++ TAB :: chars (field 2 line) = body ++ [LF]).
    { rewrite <- app_assoc. exact Hline. }
    assert (Hne : TAB :: chars (field 2 line) ≠ [])
      by (intros Hnil; discriminate Hnil).
    pose proof (line_feed_not_before body _ _ Hb Hne Hline') as Hno.
    intros H. apply Hno. apply elem_of_app. right. right. exact H.
Qed.

Lemma sentences_Forall (Q : string → Prop) (lines : list string) :
  (∀ line, line ∈ lines → is_blank line = false → Q line) →
  Forall (Forall Q) (sentences lines).
Proof.
  induction lines as [|line rest IH]; intros H.
  - repeat constructor.
  - simpl. assert (IH' : Forall (Forall Q) (sentences rest)).
    { apply IH. intros l Hl. apply H. right. exact Hl. }
    destruct (is_blank line) eqn:Hb.
    + constructor; [constructor|exact IH'].
    + destruct (sentences rest) as [|s ss].
      * repeat constructor. apply H; [left|exact Hb].
      * inversion IH'; subst. constructor; [|assumption].
        constructor; [|assumption]. apply H; [left|exact Hb].
Qed.

(** X5.  No token and no tag returned by sentence-split parsing contains a
    tab or a line feed. *)
Theorem parse_dataset_split_fields_clean
    (loadtxt_columns : string → result (list string * list string))
    (docs : list string) (X y : list (list string)) :
  DataInput.parse_dataset loadtxt_columns docs true = Ok (X, y) →
  Forall (Forall (fun token =>
    (TAB ∉ chars token) ∧ (LF ∉ chars token))) X
  ∧ Forall (Forall (fun tag => (TAB ∉ chars tag) ∧ (LF ∉ chars tag))) y.
Proof.
  intros Hrun.
  assert (Hrec : Forall records_only docs).
  { destruct (docs_records_or_malformed docs) as [H|H]; [exact H|].
    unfold DataInput.parse_dataset in Hrun.
    rewrite (parse_docs_malformed loadtxt_columns docs [] [] H) in Hrun.
    discriminate. }
  unfold DataInput.parse_dataset in Hrun.
  rewrite (parse_docs_records loadtxt_columns docs [] [] Hrec) in Hrun.
  inversion Hrun; subst. clear Hrun. simpl.
  assert (Hclean : ∀ k, k = 0 ∨ k = 1 →
    Forall (Forall (fun f => (TAB ∉ chars f) ∧ (LF ∉ chars f)))
      (concat (map (sentence_fields k) docs))).
  { intros k Hk. apply Forall_concat. apply Forall_forall.
    intros group Hgroup. apply list_elem_of_In, in_map_iff in Hgroup
      as (doc & <- & Hdoc). apply list_elem_of_In in Hdoc.
    rewrite Forall_forall in Hrec. specialize (Hrec doc Hdoc).
    unfold records_only in Hrec. rewrite Forall_forall in Hrec.
    unfold sentence_fields.
    change (Forall (Forall (fun f => (TAB ∉ chars f) ∧ (LF ∉ chars f)))
              (map (field k) <$> sentences (readlines doc))).
    apply Forall_fmap.
    eapply Forall_impl;
      [apply (sentences_Forall
                (fun line => (TAB ∉ chars (field k line))
                             ∧ (LF ∉ chars (field k line))))|].
    - intros line Hl Hb.
      destruct (record_fields_clean doc line Hl (Hrec line Hl Hb))
        as [H0 H1].
      destruct Hk as [-> | ->]; assumption.
    - intros s Hs. simpl.
      change (Forall (fun f => (TAB ∉ chars f) ∧ (LF ∉ chars f))
                (field k <$> s)).
      apply Forall_fmap. exact Hs. }
  split; apply Hclean; auto.
Qed.

(** ** More on the splitter and the constructor *)

Lemma shuffle_from_state {A : Type} (i : nat) :
  ∀ (x x1 : list A) (g g1 : DataInput.random_state),
    DataInput.shuffle_from i x g = Ok (x1, g1) →
    DataInput.outcomes g1 = DataInput.outcomes g
    ∧ DataInput.consumed g1 = DataInput.consumed g + i.
Proof.
  induction i as [|i IH]; intros x x1 g g1 Hrun.
  - simpl in Hrun. inversion Hrun; subst. split; [reflexivity|lia].
  - cbn [DataInput.shuffle_from] in Hrun.
    unfold DataInput.randbelow in Hrun.
    destruct (DataInput.exchange x (S i) _) as [x2|e]; [|discriminate].
    simpl in Hrun. apply IH in Hrun as [Ho Hc]. simpl in Ho, Hc.
    split; [exact Ho|lia].
Qed.

Lemma train_dev_test_split_run_zip (fl : Q → Q) {A B : Type}
    (X : list A) (y : list B) (train_size dev_size : Q)
    (g : DataInput.random_state) :
  zip X y ≠ [] →
  let n := length (zip X y) in
  let a := int (fl (train_size * inject_Z (Z.of_nat n))%Q) in
  let b := int (fl (dev_size * inject_Z (Z.of_nat n))%Q) in
  (0 ≤ a)%Z → (0 ≤ b)%Z →
  ∃ dataset g1,
    DataInput.shuffle (zip X y) g = Ok (dataset, g1)
    ∧ dataset ≡ₚ zip X y
    ∧ DataInput.train_dev_test_split fl X y train_size dev_size g
      = Ok ((take (Z.to_nat a) dataset.*1, take (Z.to_nat a) dataset.*2),
            (drop (Z.to_nat a) (take (Z.to_nat (a + b)) dataset.*1),
             drop (Z.to_nat a) (take (Z.to_nat (a + b)) dataset.*2)),
            (drop (Z.to_nat (a + b)) dataset.*1,
             drop (Z.to_nat (a + b)) dataset.*2),
            g1).
Proof.
  intros Hne n a b Ha Hb.
  destruct (shuffle_ok (zip X y) g) as (dataset & g1 & Hrun & Hperm).
  exists dataset, g1. split; [exact Hrun|]. split; [exact Hperm|].
  assert (HN : length dataset = n) by (unfold n; rewrite Hperm; reflexivity).
  unfold DataInput.train_dev_test_split. rewrite Hrun. simpl.
  destruct dataset as [|d dataset'] eqn:Hd.
  { apply Permutation_nil_l in Hperm. congruence. }
  rewrite <- Hd in *. unfold DataInput.unzip. rewrite Hd at 1. simpl.
  rewrite !length_fmap, HN. fold a. fold b.
  rewrite !slice_until, !slice_between, !slice_from by lia.
  reflexivity.
Qed.

Lemma zip_take_min {A B : Type} (X : list A) (y : list B) :
  let n := length X `min` length y in
  zip X y = zip (take n X) (take n y)
  ∧ (zip X y).*1 = take n X ∧ (zip X y).*2 = take n y.
Proof.
  intros n.
  assert (Hzip : zip X y = zip (take n X) (take n y)).
  { unfold n. rewrite take_min_length.
    rewrite Nat.min_comm, take_min_length.
    symmetry. apply zip_with_take_both. }
  split; [exact Hzip|]. rewrite Hzip.
  split; [apply fst_zip|apply snd_zip]; rewrite !length_take; lia.
Qed.

(** X6.  When [X] and [y] differ in length, [zip] cuts both to the shorter
    length [n] before shuffling: the three parts hold the first [n]
    entries of [X] and of [y], and the surplus entries are in no part. *)
Theorem train_dev_test_split_truncates (fl : Q → Q) {A B : Type}
    (X : list A) (y : list B) (train_size dev_size : Q)
    (g : DataInput.random_state) :
  X ≠ [] → y ≠ [] →
  rounds_to_nearest fl (length X `min` length y) →
  (0 <= train_size)%Q → (train_size <= 1)%Q →
  (0 <= dev_size)%Q → (dev_size <= 1)%Q →
  ∃ X_train y_train X_dev y_dev X_test y_test g1,
    DataInput.train_dev_test_split fl X y train_size dev_size g
    = Ok ((X_train, y_train), (X_dev, y_dev), (X_test, y_test), g1)
    ∧ X_train ++ X_dev ++ X_test ≡ₚ take (length X `min` length y) X
    ∧ y_train ++ y_dev ++ y_test ≡ₚ take (length X `min` length y) y.
Proof.
  intros HX Hy Hfl Ht0 Ht1 Hd0 Hd1.
  set (n := length X `min` length y) in *.
  assert (Hn : length (zip X y) = n) by apply length_zip.
  assert (Hne : zip X y ≠ []).
  { destruct X; [congruence|]. destruct y; [congruence|]. discriminate. }
  destruct (fraction_of_corpus n train_size Ht0 Ht1) as [Hx0 HxN].
  destruct (fraction_of_corpus n dev_size Hd0 Hd1) as [Hy0 HyN].
  destruct (rounded_in_range fl _ _ Hfl Hx0 HxN) as [Hfx0 _].
  destruct (rounded_in_range fl _ _ Hfl Hy0 HyN) as [Hfy0 _].
  destruct (int_nonneg _ Hfx0) as [_ Ha0].
  destruct (int_nonneg _ Hfy0) as [_ Hb0].
  pose proof (train_dev_test_split_run_zip fl X y train_size dev_size g Hne)
    as Hrun.
  cbv zeta in Hrun. rewrite Hn in Hrun.
  destruct (Hrun Ha0 Hb0) as (dataset & g1 & _ & Hperm & Hsplit).
  set (a := int (fl (train_size * inject_Z (Z.of_nat n))%Q)) in *.
  set (b := int (fl (dev_size * inject_Z (Z.of_nat n))%Q)) in *.
  assert (Hab : Z.to_nat (a + b) = Z.to_nat a + Z.to_nat b) by lia.
  eexists _, _, _, _, _, _, g1. split; [exact Hsplit|].
  rewrite !Hab, !three_slices.
  destruct (zip_take_min X y) as (_ & H1 & H2). fold n in H1, H2.
  rewrite <- H1, <- H2, Hperm. split; reflexivity.
Qed.

(** X7.  Fractions are not checked against 1: for any non-negative sizes
    the slices are clamped to the corpus, so train has [min(a, N)]
    documents, train and dev together [min(a + b, N)], no pair is
    duplicated or lost and the three lengths add up to [N]. *)
Theorem train_dev_test_split_clamps (fl : Q → Q) {A B : Type}
    (X : list A) (y : list B) (train_size dev_size : Q)
    (g : DataInput.random_state) :
  X ≠ [] → length X = length y →
  let a := int (fl (train_size * inject_Z (Z.of_nat (length X)))%Q) in
  let b := int (fl (dev_size * inject_Z (Z.of_nat (length X)))%Q) in
  (0 ≤ a)%Z → (0 ≤ b)%Z →
  ∃ X_train y_train X_dev y_dev X_test y_test g1,
    DataInput.train_dev_test_split fl X y train_size dev_size g
    = Ok ((X_train, y_train), (X_dev, y_dev), (X_test, y_test), g1)
    ∧ zip X_train y_train ++ zip X_dev y_dev ++ zip X_test y_test ≡ₚ zip X y
    ∧ length X_train = Z.to_nat a `min` length X
    ∧ length X_train + length X_dev = Z.to_nat (a + b) `min` length X
    ∧ length X_train + length X_dev + length X_test = length X.
Proof.
  intros Hne Hlen a b Ha Hb.
  destruct (train_dev_test_split_run fl X y train_size dev_size g
              Hne Hlen Ha Hb) as (dataset & g1 & _ & Hperm & Hsplit).
  fold a in Hsplit. fold b in Hsplit.
  assert (HN : length dataset = length X).
  { rewrite Hperm, length_zip. lia. }
  assert (Hab : Z.to_nat (a + b) = Z.to_nat a + Z.to_nat b) by lia.
  eexists _, _, _, _, _, _, g1. split; [exact Hsplit|].
  split.
  - rewrite Hab, zip_three_slices, zip_fst_snd. exact Hperm.
  - rewrite !length_drop, !length_take, !length_fmap, !HN. lia.
Qed.

(** X8.  A successful split consumes exactly [min(len X, len y) - 1]
    outcomes of the generator and leaves the later outcomes as they
    were. *)
Theorem train_dev_test_split_draws (fl : Q → Q) {A B : Type}
    (X : list A) (y : list B) (train_size dev_size : Q)
    (g g1 : DataInput.random_state)
    (splits : (list A * list B) * (list A * list B) * (list A * list B)) :
  DataInput.train_dev_test_split fl X y train_size dev_size g
  = Ok (splits, g1) →
  DataInput.outcomes g1 = DataInput.outcomes g
  ∧ DataInput.consumed g1
    = DataInput.consumed g + (length X `min` length y - 1).
Proof.
  intros Hrun. unfold DataInput.train_dev_test_split in Hrun.
  destruct (shuffle_ok (zip X y) g) as (dataset & g2 & Hs & _).
  rewrite Hs in Hrun. simpl in Hrun.
  destruct (DataInput.unzip dataset) as [[X1 y1]|e]; [|discriminate].
  simpl in Hrun. inversion Hrun; subst g2.
  unfold DataInput.shuffle in Hs. apply shuffle_from_state in Hs.
  rewrite length_zip in Hs. exact Hs.
Qed.

Lemma split_partition (fl : Q → Q) {A B : Type}
    (X : list A) (y : list B) (train_size dev_size : Q)
    (g : DataInput.random_state) :
  X ≠ [] → length X = length y →
  rounds_to_nearest fl (length X) →
  (0 <= train_size)%Q → (train_size <= 1)%Q →
  (0 <= dev_size)%Q → (dev_size <= 1)%Q →
  ∃ X_train y_train X_dev y_dev X_test y_test g1,
    DataInput.train_dev_test_split fl X y train_size dev_size g
    = Ok ((X_train, y_train), (X_dev, y_dev), (X_test, y_test), g1)
    ∧ zip X_train y_train ++ zip X_dev y_dev ++ zip X_test y_test ≡ₚ zip X y.
Proof.
  intros Hne Hlen Hfl Ht0 Ht1 Hd0 Hd1.
  destruct (fraction_of_corpus (length X) train_size Ht0 Ht1) as [Hx0 HxN].
  destruct (fraction_of_corpus (length X) dev_size Hd0 Hd1) as [Hy0 HyN].
  destruct (rounded_in_range fl _ _ Hfl Hx0 HxN) as [Hfx0 _].
  destruct (rounded_in_range fl _ _ Hfl Hy0 HyN) as [Hfy0 _].
  destruct (int_nonneg _ Hfx0) as [_ Ha0].
  destruct (int_nonneg _ Hfy0) as [_ Hb0].
  destruct (train_dev_test_split_run fl X y train_size dev_size g
              Hne Hlen Ha0 Hb0) as (dataset & g1 & _ & Hperm & Hsplit).
  set (a := int (fl (train_size * inject_Z (Z.of_nat (length X)))%Q)) in *.
  set (b := int (fl (dev_size * inject_Z (Z.of_nat (length X)))%Q)) in *.
  assert (Hab : Z.to_nat (a + b) = Z.to_nat a + Z.to_nat b) by lia.
  eexists _, _, _, _, _, _, g1. split; [exact Hsplit|].
  rewrite Hab, zip_three_slices, zip_fst_snd. exact Hperm.
Qed.

Lemma sentence_documents_count (k : nat) (docs : list string) :
  length (concat (map (sentence_fields k) docs))
  = sum_list (map (fun doc => S (blank_lines doc)) docs).
Proof.
  induction docs as [|doc docs IH]; [reflexivity|].
  cbn [map concat sum_list_with sum_list]. rewrite length_app, IH.
  unfold sentence_fields at 1. rewrite length_map, sentences_length.
  reflexivity.
Qed.

Lemma sum_succ_ge_length {A : Type} (f : A → nat) (l : list A) :
  length l ≤ sum_list (map (fun a => S (f a)) l).
Proof. induction l as [|a l IH]; simpl; lia. Qed.

(** X9.  The constructor in sentence-split mode, on at least one file, all
    files made of records and blank lines: parsing gives at least one
    Document per file, so the split does not fail and its parts hold
    exactly the parsed (tokens, tags) pairs. *)
Theorem init_sentence_corpus
    (loadtxt_columns : string → result (list string * list string))
    (fl : Q → Q) (docs : list string) (train_size dev_size : Q)
    (g : DataInput.random_state) :
  docs ≠ [] → Forall records_only docs →
  rounds_to_nearest fl
    (sum_list (map (fun doc => S (blank_lines doc)) docs)) →
  (0 <= train_size)%Q → (train_size <= 1)%Q →
  (0 <= dev_size)%Q → (dev_size <= 1)%Q →
  ∃ X_train y_train X_dev y_dev X_test y_test g1,
    DataInput.init loadtxt_columns fl docs train_size dev_size true g
    = Ok ((X_train, y_train), (X_dev, y_dev), (X_test, y_test), g1)
    ∧ zip X_train y_train ++ zip X_dev y_dev ++ zip X_test y_test
      ≡ₚ zip (concat (map (sentence_fields 0) docs))
             (concat (map (sentence_fields 1) docs))
    ∧ length docs
      ≤ length X_train + length X_dev + length X_test.
Proof.
  intros Hdocs Hrec Hfl Ht0 Ht1 Hd0 Hd1.
  unfold DataInput.init, DataInput.parse_dataset.
  rewrite (parse_docs_records loadtxt_columns docs [] [] Hrec). simpl.
  set (X := concat (map (sentence_fields 0) docs)).
  set (y := concat (map (sentence_fields 1) docs)).
  assert (HX : length X = sum_list (map (fun doc => S (blank_lines doc)) docs))
    by apply sentence_documents_count.
  assert (Hy : length y = sum_list (map (fun doc => S (blank_lines doc)) docs))
    by apply sentence_documents_count.
  pose proof (sum_succ_ge_length blank_lines docs) as Hge.
  assert (Hne : X ≠ []).
  { intros Hnil. rewrite <- HX, Hnil in Hge.
    destruct docs; [congruence|simpl in Hge; lia]. }
  rewrite <- HX in Hfl.
  destruct (split_partition fl X y train_size dev_size g Hne
              ltac:(congruence) Hfl Ht0 Ht1 Hd0 Hd1)
    as (X_train & y_train & X_dev & y_dev & X_test & y_test & g1
        & Hsplit & Hperm).
  exists X_train, y_train, X_dev, y_dev, X_test, y_test, g1.
  split; [exact Hsplit|]. split; [exact Hperm|].
  assert (Hlen : length (zip X_train y_train ++ zip X_dev y_dev
                         ++ zip X_test y_test) = length (zip X y))
    by (rewrite Hperm; reflexivity).
  rewrite !length_app, !length_zip in Hlen. lia.
Qed.

(** X10.  With no file at all the constructor raises [ValueError], in
    either mode: the parsed corpus is empty and the split fails on it. *)
Theorem init_no_document
    (loadtxt_columns : string → result (list string * list string))
    (fl : Q → Q) (train_size dev_size : Q) (split_into_sentences : bool)
    (g : DataInput.random_state) :
  DataInput.init loadtxt_columns fl [] train_size dev_size
    split_into_sentences g
  = Raise ValueError.
Proof. destruct split_into_sentences; reflexivity. Qed.

(** ** More on the text vectorizer *)


(** X14.  The [k]-th out-of-vocabulary word that [adapt] visits receives the
    [k]-th block of [embedding_dim] samples drawn: every added vector has
    length [embedding_dim] and no two added words share a sample. *)
Theorem adapt_vectors_from_samples {F : Type}
    (set_order : gset string → list string)
    (self : TextVectorizer.t F) (documents : list (list string))
    (g : TextVectorizer.np_random F) (k : nat) (word : string) :
  (∀ X : gset string, set_order X ≡ₚ elements X) →
  set_order ((list_to_set (concat documents) : gset string)
             ∖ dom (TextVectorizer.vocabulary self)) !! k = Some word →
  TextVectorizer.vocabulary
    (TextVectorizer.adapt set_order self documents g).1.1 !! word
  = Some (sample_block g k (TextVectorizer.embedding_dim self))
  ∧ length (sample_block g k (TextVectorizer.embedding_dim self))
    = TextVectorizer.embedding_dim self.
Proof.
  intros Hord Hk. split; [|apply sample_block_length].
  rewrite adapt_unfold.
  apply assign_oov_blocks; [apply set_order_NoDup; exact Hord|exact Hk].
Qed.

(** X15.  On documents all of whose tokens are in the vocabulary (no
    document and empty documents included) [adapt] changes nothing, draws
    nothing and reports 0. *)
Theorem adapt_known_tokens_noop {F : Type}
    (set_order : gset string → list string)
    (self : TextVectorizer.t F) (documents : list (list string))
    (g : TextVectorizer.np_random F) :
  (∀ X : gset string, set_order X ≡ₚ elements X) →
  (∀ word, word ∈ concat documents →
           is_Some (TextVectorizer.vocabulary self !! word)) →
  TextVectorizer.adapt set_order self documents g = (self, g, 0).
Proof.
  intros Hord Hknown. unfold TextVectorizer.adapt.
  assert (Hnone : (list_to_set (concat documents) : gset string)
                  ∖ dom (TextVectorizer.vocabulary self) = ∅).
  { apply set_eq. intros word. rewrite elem_of_difference, elem_of_list_to_set.
    split; [|intros H; inversion H].
    intros [Hin Hout]. exfalso. apply Hout, elem_of_dom, Hknown, Hin. }
  rewrite Hnone, (set_order_empty set_order Hord), size_empty. reflexivity.
Qed.

(** X16.  Two calls of [adapt] in a row: the keys are the old keys and the
    tokens of both calls, the second call counts only the tokens that
    neither the vocabulary nor the first call had, the two counts add up
    to the number of distinct new tokens, and the second call keeps every
    vector of the first. *)
Theorem adapt_twice {F : Type}
    (set_order : gset string → list string)
    (self : TextVectorizer.t F) (documents1 documents2 : list (list string))
    (g : TextVectorizer.np_random F) :
  (∀ X : gset string, set_order X ≡ₚ elements X) →
  let words1 : gset string := list_to_set (concat documents1) in
  let words2 : gset string := list_to_set (concat documents2) in
  let r1 := TextVectorizer.adapt set_order self documents1 g in
  let r2 := TextVectorizer.adapt set_order r1.1.1 documents2 r1.1.2 in
  dom (TextVectorizer.vocabulary r2.1.1)
  = dom (TextVectorizer.vocabulary self) ∪ words1 ∪ words2
  ∧ r2.2 = size (words2 ∖ (dom (TextVectorizer.vocabulary self) ∪ words1))
  ∧ r1.2 + r2.2
    = size ((words1 ∪ words2) ∖ dom (TextVectorizer.vocabulary self))
  ∧ (∀ word v,
       TextVectorizer.vocabulary r1.1.1 !! word = Some v →
       TextVectorizer.vocabulary r2.1.1 !! word = Some v).
Proof.
  intros Hord words1 words2 r1 r2.
  destruct (adapt_spec set_order Hord self documents1 g)
    as (_ & _ & Hdom1 & Hc1 & Hs1 & _).
  destruct (adapt_spec set_order Hord r1.1.1 documents2 r1.1.2)
    as (_ & _ & Hdom2 & Hc2 & Hs2 & _ & _ & Hkeep).
  fold r1 in Hdom1, Hc1, Hs1, Hdom2, Hc2, Hs2, Hkeep.
  fold r2 in Hdom2, Hc2, Hs2, Hkeep.
  fold words1 in Hdom1, Hc1. fold words2 in Hdom2, Hc2.
  split; [rewrite Hdom2, Hdom1; reflexivity|].
  split; [rewrite Hc2, Hdom1; reflexivity|].
  split; [|exact Hkeep].
  rewrite Hc1, Hc2, Hdom1.
  rewrite <- size_union by set_solver.
  f_equal. apply set_eq. intros x.
  rewrite !elem_of_union, !elem_of_difference, !elem_of_union.
  destruct (decide (x ∈ words1)); tauto.
Qed.



Section GloveMore.
Context {F : Type}.
Variable strtod : string → option (F * string).

Lemma glove_lines_keeps (word : string) (lines : list string) :
  ∀ vocabulary vocabulary1 : gmap string (list F),
    Forall (fun line => first_field line ≠ Some word) lines →
    TextVectorizer.glove_lines strtod lines vocabulary = Ok vocabulary1 →
    vocabulary1 !! word = vocabulary !! word.
Proof.
  induction lines as [|line rest IH]; intros vocabulary vocabulary1 Hno Hrun.
  - simpl in Hrun. inversion Hrun. reflexivity.
  - inversion Hno as [|? ? Hline Hrest]; subst.
    cbn [TextVectorizer.glove_lines] in Hrun. unfold first_field in Hline.
    destruct (split_maxsplit1 line) as [|w [|c [|x l]]]; try discriminate.
    rewrite (IH _ _ Hrest Hrun). apply lookup_insert_ne.
    intros ->. apply Hline. reflexivity.
Qed.

Lemma glove_lines_last_line (before after : list string)
    (line word coefs : string) :
  ∀ vocabulary vocabulary1 : gmap string (list F),
    split_maxsplit1 line = [word; coefs] →
    Forall (fun l => first_field l ≠ Some word) after →
    TextVectorizer.glove_lines strtod (before ++ line :: after) vocabulary
    = Ok vocabulary1 →
    vocabulary1 !! word = Some (TextVectorizer.fromstring strtod coefs).
Proof.
  induction before as [|l before IH]; intros vocabulary vocabulary1 Hs Hno Hrun.
  - simpl in Hrun. rewrite Hs in Hrun.
    rewrite (glove_lines_keeps word after _ _ Hno Hrun).
    apply lookup_insert_eq.
  - cbn [app TextVectorizer.glove_lines] in Hrun.
    destruct (split_maxsplit1 l) as [|w [|c [|x t]]]; try discriminate.
    eapply IH; eassumption.
Qed.

Lemma glove_lines_absent (word : string) (lines : list string)
    (vocabulary1 : gmap string (list F)) :
  Forall (fun line => first_field line ≠ Some word) lines →
  TextVectorizer.glove_lines strtod lines ∅ = Ok vocabulary1 →
  vocabulary1 !! word = None.
Proof.
  intros Hno Hrun. rewrite (glove_lines_keeps word lines _ _ Hno Hrun).
  apply lookup_empty.
Qed.

End GloveMore.

(** X11.  When a word occurs on several lines of the embedding table, the
    loaded vocabulary holds the numbers of its last line. *)
Theorem parse_glove_last_line_wins {F : Type}
    (strtod : string → option (F * string))
    (self : TextVectorizer.t F) (embedding_folder : nat → string)
    (vocabulary : gmap string (list F))
    (before after : list string) (line word coefs : string) :
  TextVectorizer.parse_glove strtod self embedding_folder = Ok vocabulary →
  readlines (embedding_folder (TextVectorizer.embedding_dim self))
  = before ++ line :: after →
  split_maxsplit1 line = [word; coefs] →
  Forall (fun l => first_field l ≠ Some word) after →
  vocabulary !! word = Some (TextVectorizer.fromstring strtod coefs).
Proof.
  unfold TextVectorizer.parse_glove. intros Hrun Hlines Hs Hno.
  rewrite Hlines in Hrun.
  exact (glove_lines_last_line strtod before after line word coefs
           ∅ vocabulary Hs Hno Hrun).
Qed.

(** X13.  An instance built from an embedding table has the [max_tokens]
    and [embedding_dim] it was given; [transform] then maps a word of the
    table to the numbers of the last line of that word, and raises
    [NotAdaptedError] on a word that heads no line. *)
Theorem init_then_transform {F : Type}
    (strtod : string → option (F * string))
    (max_tokens : Z) (embedding_dim : nat) (embedding_folder : nat → string)
    (self : TextVectorizer.t F) :
  TextVectorizer.init strtod max_tokens embedding_dim embedding_folder
  = Ok self →
  TextVectorizer.max_tokens self = max_tokens
  ∧ TextVectorizer.embedding_dim self = embedding_dim
  ∧ (∀ before line after word coefs,
       readlines (embedding_folder embedding_dim) = before ++ line :: after →
       split_maxsplit1 line = [word; coefs] →
       Forall (fun l => first_field l ≠ Some word) after →
       TextVectorizer.transform self [[word]]
       = Ok [[TextVectorizer.fromstring strtod coefs]])
  ∧ (∀ word,
       Forall (fun l => first_field l ≠ Some word)
         (readlines (embedding_folder embedding_dim)) →
       TextVectorizer.transform self [[word]] = Raise NotAdaptedError).
Proof.
  unfold TextVectorizer.init, TextVectorizer.parse_glove. simpl.
  destruct (TextVectorizer.glove_lines strtod
              (readlines (embedding_folder embedding_dim)) ∅)
    as [vocabulary|e] eqn:Hrun; [|discriminate].
  simpl. intros H. inversion H; subst self. clear H.
  split; [reflexivity|]. split; [reflexivity|]. split.
  - intros before line after word coefs Hlines Hs Hno.
    rewrite Hlines in Hrun.
    pose proof (glove_lines_last_line strtod before after line word coefs
                  ∅ vocabulary Hs Hno Hrun) as Hv.
    rewrite transform_lookup. simpl. rewrite Hv. reflexivity.
  - intros word Hno.
    pose proof (glove_lines_absent strtod word _ vocabulary Hno Hrun) as Hv.
    rewrite transform_lookup. simpl. rewrite Hv. reflexivity.
Qed.


Lemma lstrip_whitespace (ws : string) :
  whitespace_only ws → lstrip ws = EmptyString.
Proof.
  unfold whitespace_only. induction ws as [|c r IH]; [reflexivity|].
  simpl. intros H. inversion H as [|? ? Hc Hr]; subst.
  rewrite Hc. apply IH. exact Hr.
Qed.

Lemma lstrip_whitespace_app (ws s : string) :
  whitespace_only ws → lstrip (ws +:+ s) = lstrip s.
Proof.
  unfold whitespace_only. induction ws as [|c r IH]; [reflexivity|].
  simpl. intros H. inversion H as [|? ? Hc Hr]; subst.
  rewrite Hc. apply IH. exact Hr.
Qed.

Lemma split_word_app (word ws : string) :
  no_whitespace word → whitespace_only ws →
  split_word (word +:+ ws) = (word, ws).
Proof.
  unfold no_whitespace, whitespace_only.
  induction word as [|c r IH]; simpl; intros Hw Hws.
  - destruct ws as [|c r]; [reflexivity|]. simpl.
    inversion Hws as [|? ? Hc _]; subst. rewrite Hc. reflexivity.
  - inversion Hw as [|? ? Hc Hr]; subst. rewrite Hc, IH by assumption.
    reflexivity.
Qed.

Lemma short_line_not_table (line : string) :
  short_line line → ¬ table_line line.
Proof.
  intros (ws1 & word & ws2 & -> & H1 & Hw & H2).
  unfold table_line, split_maxsplit1.
  rewrite lstrip_whitespace_app by exact H1.
  destruct word as [|c r].
  - simpl. rewrite lstrip_whitespace by exact H2. simpl. lia.
  - assert (Hl : lstrip (String c r +:+ ws2) = String c r +:+ ws2).
    { simpl. inversion Hw as [|? ? Hc _]; subst. rewrite Hc. reflexivity. }
    rewrite Hl.
    change (String c r +:+ ws2) with (String c (r +:+ ws2)). cbv beta iota.
    change (String c (r +:+ ws2)) with (String c r +:+ ws2).
    rewrite split_word_app by assumption.
    rewrite lstrip_whitespace by exact H2. simpl. lia.
Qed.

(** X12.  A line of the embedding table that is empty, blank, or holds one
    word and nothing else makes [parse_glove] raise [ValueError]. *)
Theorem parse_glove_short_line {F : Type}
    (strtod : string → option (F * string))
    (self : TextVectorizer.t F) (embedding_folder : nat → string) :
  Exists short_line
    (readlines (embedding_folder (TextVectorizer.embedding_dim self))) →
  TextVectorizer.parse_glove strtod self embedding_folder = Raise ValueError.
Proof.
  intros Hex. unfold TextVectorizer.parse_glove.
  apply glove_lines_not_table.
  eapply Exists_impl; [exact Hex|]. apply short_line_not_table.
Qed.

(** ** More on the target vectorizer *)

(** X18.  After [adapt], [get_classes] returns the tags of the targets of
    that call, whatever was fitted before: strictly increasing, hence
    without repetition, and neither more nor fewer tags than seen. *)
Theorem get_classes_after_adapt (self self1 : TargetVectorizer.t)
    (targets : list (list string)) :
  TargetVectorizer.adapt self targets = Ok self1 →
  ∃ classes,
    TargetVectorizer.get_classes self1 = Ok classes
    ∧ StronglySorted string_lt classes
    ∧ NoDup classes
    ∧ (∀ tag, tag ∈ classes ↔ tag ∈ concat targets).
Proof.
  intros Hadapt. destruct (adapt_classes self self1 targets Hadapt) as [_ Hc].
  exists (LabelBinarizer.unique_labels (concat targets)).
  split; [exact Hc|].
  split; [apply unique_labels_sorted|].
  split; [apply unique_labels_NoDup|].
  intros tag. apply elem_of_unique_labels.
Qed.

(** X19.  [adapt] fails, with [ValueError], exactly when the targets hold no
    tag at all. *)
Theorem adapt_outcome (self : TargetVectorizer.t)
    (targets : list (list string)) :
  (concat targets = [] →
   TargetVectorizer.adapt self targets = Raise ValueError)
  ∧ (concat targets ≠ [] →
     ∃ self1, TargetVectorizer.adapt self targets = Ok self1).
Proof.
  unfold TargetVectorizer.adapt, LabelBinarizer.fit. split.
  - intros ->. reflexivity.
  - intros Hne.
    destruct (decide (length (concat targets) = 0)) as [H0|H0].
    + destruct (concat targets); [congruence|discriminate].
    + simpl. eauto.
Qed.

Lemma type_of_target_seen (document classes : list string) :
  length classes ≤ 2 →
  Forall (fun tag => tag ∈ classes) document →
  LabelBinarizer.type_of_target document = LabelBinarizer.binary.
Proof.
  intros Hn Hall. unfold LabelBinarizer.type_of_target.
  assert (Hsub : LabelBinarizer.unique_labels document ⊆+ classes).
  { apply NoDup_submseteq; [apply unique_labels_NoDup|].
    intros tag Htag. apply (proj1 (elem_of_unique_labels _ _)) in Htag.
    rewrite Forall_forall in Hall. apply Hall. exact Htag. }
  apply submseteq_length in Hsub.
  replace (length (LabelBinarizer.unique_labels document) <=? 2) with true
    by (symmetry; apply Nat.leb_le; lia).
  reflexivity.
Qed.

Lemma encode_empty_document (classes : list string)
    (documents : list (list string)) :
  classes ≠ [] → [] ∈ documents →
  comprehension (fun y => LabelBinarizer.label_binarize y classes) documents
  = Raise ValueError.
Proof.
  intros Hc. induction documents as [|document documents IH];
    [intros H; inversion H|].
  intros Hin. cbn [comprehension].
  destruct document as [|tag document]; [reflexivity|].
  destruct (label_binarize_shape (tag :: document) classes
              ltac:(discriminate) Hc) as (rows & Hrows & _).
  rewrite Hrows. simpl.
  apply elem_of_cons in Hin as [Hin|Hin]; [discriminate|].
  rewrite (IH Hin). reflexivity.
Qed.

(** What the encodings of the documents are, when they are returned. *)
Lemma encode_documents_returned (classes : list string)
    (documents : list (list string)) (matrices : list (list (list Z))) :
  classes ≠ [] →
  comprehension (fun y => LabelBinarizer.label_binarize y classes) documents
  = Ok matrices →
  Forall2 (fun document rows =>
             document ≠ []
             ∧ length rows = length document
             ∧ Forall (fun row =>
                 length row = encoding_width classes document) rows)
    documents matrices.
Proof.
  intros Hc Hrun. apply comprehension_returned in Hrun.
  eapply Forall2_impl; [exact Hrun|].
  intros document rows Hdoc. simpl in Hdoc.
  destruct document as [|tag document];
    [rewrite label_binarize_empty in Hdoc; discriminate|].
  destruct (label_binarize_shape (tag :: document) classes
              ltac:(discriminate) Hc) as (rows' & Hrows & Hlen & Hwidth).
  rewrite Hrows in Hdoc. inversion Hdoc; subst rows'.
  split; [discriminate|]. split; assumption.
Qed.

Lemma encode_documents (classes : list string)
    (documents : list (list string)) :
  classes ≠ [] → [] ∉ documents →
  ∃ matrices,
    comprehension (fun y => LabelBinarizer.label_binarize y classes) documents
    = Ok matrices.
Proof.
  intros Hc. induction documents as [|document documents IH]; intros Hnot.
  - exists []. reflexivity.
  - apply not_elem_of_cons in Hnot as [Hne Hnot].
    destruct (IH Hnot) as (matrices & Hrun).
    destruct (label_binarize_shape document classes ltac:(congruence) Hc)
      as (rows & Hrows & _).
    exists (rows :: matrices). cbn [comprehension].
    rewrite Hrows. simpl. rewrite Hrun. reflexivity.
Qed.

(** The shape of the encoding of a document. *)
Lemma encoding_shape (classes document : list string) (rows : list (list Z)) :
  document ≠ [] → length rows = length document →
  Forall (fun row => length row = encoding_width classes document) rows →
  Np.matrix_shape rows = [length document; encoding_width classes document].
Proof.
  intros Hne Hlen Hwidth. rewrite <- Hlen.
  apply matrix_shape_rows; [|exact Hwidth].
  intros ->. destruct document; [congruence|discriminate].
Qed.

(** The width of the encoding is the same for all documents unless there
    are exactly two classes and a document holds a tag that [adapt] has
    not seen. *)
Lemma encoding_width_constant (classes document : list string) :
  classes ≠ [] →
  length classes ≠ 2 ∨ Forall (fun tag => tag ∈ classes) document →
  encoding_width classes document
  = if length classes <=? 2 then 1 else length classes.
Proof.
  intros Hc Hcase. unfold encoding_width.
  destruct (length classes) as [|[|[|k]]] eqn:Hk.
  - destruct classes; [congruence|discriminate].
  - destruct (LabelBinarizer.type_of_target document); reflexivity.
  - destruct Hcase as [Hcase|Hseen]; [congruence|].
    rewrite (type_of_target_seen document classes) by (assumption || lia).
    reflexivity.
  - rewrite andb_false_r. reflexivity.
Qed.

(** X20.  After [adapt], [transform] raises nothing but [ValueError], and
    raises it when a tag sequence is empty.  What it returns has, for each
    document, one row per tag; the rows have a single entry when the
    document has at most two distinct tags and there are at most two
    classes, and one entry per class otherwise.  When no sequence is
    empty, [transform] returns if two documents differ in length or all
    encodings have one width, and raises [ValueError] if all documents
    have one length and two encodings differ in width.  The widths are
    all the same unless there are exactly two classes and some tag was
    not seen by [adapt]. *)
Theorem transform_after_adapt_outcome (self0 self : TargetVectorizer.t)
    (targets documents : list (list string)) :
  TargetVectorizer.adapt self0 targets = Ok self →
  let classes := LabelBinarizer.unique_labels (concat targets) in
  (∀ e, TargetVectorizer.transform self documents = Raise e → e = ValueError)
  ∧ ([] ∈ documents →
     TargetVectorizer.transform self documents = Raise ValueError)
  ∧ (∀ out,
       TargetVectorizer.transform self documents = Ok out →
       Forall2 (fun document rows =>
                  length rows = length document
                  ∧ Forall (fun row =>
                      length row = encoding_width classes document) rows)
         documents out)
  ∧ ([] ∉ documents →
     (∃ d1 d2, d1 ∈ documents ∧ d2 ∈ documents ∧ length d1 ≠ length d2)
     ∨ (∀ d1 d2, d1 ∈ documents → d2 ∈ documents →
                 encoding_width classes d1 = encoding_width classes d2) →
     ∃ out, TargetVectorizer.transform self documents = Ok out)
  ∧ ([] ∉ documents →
     (∀ d1 d2, d1 ∈ documents → d2 ∈ documents → length d1 = length d2) →
     (∃ d1 d2, d1 ∈ documents ∧ d2 ∈ documents
               ∧ encoding_width classes d1 ≠ encoding_width classes d2) →
     TargetVectorizer.transform self documents = Raise ValueError)
  ∧ (length classes ≠ 2
     ∨ (∀ tag, tag ∈ concat documents → tag ∈ concat targets) →
     ∀ d1 d2, d1 ∈ documents → d2 ∈ documents →
              encoding_width classes d1 = encoding_width classes d2).
Proof.
  intros Hadapt classes.
  destruct (adapt_fitted self0 self targets Hadapt) as [Hne _].
  pose proof (unique_labels_not_nil _ Hne) as Hc. fold classes in Hc.
  pose proof (fun e => transform_after_adapt_raised self0 self targets
                          documents e Hadapt) as Hraised.
  rewrite (transform_after_adapt self0 self targets documents Hadapt)
    in Hraised |- *.
  fold classes in Hraised |- *.
  split; [|split; [|split; [|split; [|split]]]].
  - exact Hraised.
  - intros Hin. rewrite (encode_empty_document classes documents Hc Hin).
    reflexivity.
  - intros out.
    destruct (comprehension _ documents) as [matrices|e] eqn:Hrun;
      [|discriminate].
    simpl. intros Hout. apply array_returned in Hout. subst out.
    eapply Forall2_impl;
      [exact (encode_documents_returned classes documents matrices Hc Hrun)|].
    intros document rows (_ & Hlen & Hwidth). split; assumption.
  - intros Hnot Hcase.
    destruct (encode_documents classes documents Hc Hnot) as (matrices & Hrun).
    rewrite Hrun. simpl. exists matrices.
    pose proof (encode_documents_returned classes documents matrices Hc Hrun)
      as Hall.
    destruct (array_cases Np.matrix_shape matrices)
      as [[Hok _]|(_ & Hhead & r1 & r2 & Hr1 & Hr2 & Hshape)]; [exact Hok|].
    exfalso.
    assert (Hdoc : ∀ rows, rows ∈ matrices →
      ∃ document, document ∈ documents
        ∧ Np.matrix_shape rows
          = [length document; encoding_width classes document]).
    { intros rows Hrows. apply list_elem_of_lookup_1 in Hrows as [i Hi].
      destruct (Forall2_lookup_r _ _ _ _ _ Hall Hi)
        as (document & Hd & Hdne & Hlen & Hwidth).
      exists document. split; [eapply list_elem_of_lookup_2; exact Hd|].
      apply encoding_shape; assumption. }
    destruct Hcase as [(d1 & d2 & Hd1 & Hd2 & Hlen)|Hwidth].
    + apply list_elem_of_lookup_1 in Hd1 as [i Hi].
      apply list_elem_of_lookup_1 in Hd2 as [j Hj].
      destruct (Forall2_lookup_l _ _ _ _ _ Hall Hi)
        as (m1 & Hm1 & Hn1 & Hl1 & Hw1).
      destruct (Forall2_lookup_l _ _ _ _ _ Hall Hj)
        as (m2 & Hm2 & Hn2 & Hl2 & Hw2).
      pose proof (Hhead m1 m2 (list_elem_of_lookup_2 _ _ _ Hm1)
                    (list_elem_of_lookup_2 _ _ _ Hm2)) as Heq.
      rewrite (encoding_shape classes d1 m1 Hn1 Hl1 Hw1) in Heq.
      rewrite (encoding_shape classes d2 m2 Hn2 Hl2 Hw2) in Heq.
      simpl in Heq. congruence.
    + destruct (Hdoc r1 Hr1) as (d1 & Hd1 & Hs1).
      destruct (Hdoc r2 Hr2) as (d2 & Hd2 & Hs2).
      pose proof (Hhead r1 r2 Hr1 Hr2) as Heq.
      rewrite Hs1, Hs2 in Heq. simpl in Heq.
      apply Hshape. rewrite Hs1, Hs2, (Hwidth d1 d2 Hd1 Hd2).
      congruence.
  - intros Hnot Hlen (d1 & d2 & Hd1 & Hd2 & Hwidth).
    destruct (encode_documents classes documents Hc Hnot) as (matrices & Hrun).
    rewrite Hrun. simpl.
    pose proof (encode_documents_returned classes documents matrices Hc Hrun)
      as Hall.
    apply list_elem_of_lookup_1 in Hd1 as [i Hi].
    apply list_elem_of_lookup_1 in Hd2 as [j Hj].
    destruct (Forall2_lookup_l _ _ _ _ _ Hall Hi)
      as (m1 & Hm1 & Hn1 & Hl1 & Hw1).
    destruct (Forall2_lookup_l _ _ _ _ _ Hall Hj)
      as (m2 & Hm2 & Hn2 & Hl2 & Hw2).
    apply (array_refused Np.matrix_shape matrices m1 m2).
    + intros r1 r2 Hr1 Hr2.
      apply list_elem_of_lookup_1 in Hr1 as [k1 Hk1].
      apply list_elem_of_lookup_1 in Hr2 as [k2 Hk2].
      destruct (Forall2_lookup_r _ _ _ _ _ Hall Hk1)
        as (e1 & He1 & Hne1 & Hle1 & Hwe1).
      destruct (Forall2_lookup_r _ _ _ _ _ Hall Hk2)
        as (e2 & He2 & Hne2 & Hle2 & Hwe2).
      rewrite (encoding_shape classes e1 r1 Hne1 Hle1 Hwe1).
      rewrite (encoding_shape classes e2 r2 Hne2 Hle2 Hwe2).
      simpl. f_equal. apply Hlen; eapply list_elem_of_lookup_2; eassumption.
    + eapply list_elem_of_lookup_2; exact Hm1.
    + eapply list_elem_of_lookup_2; exact Hm2.
    + rewrite (encoding_shape classes d1 m1 Hn1 Hl1 Hw1).
      rewrite (encoding_shape classes d2 m2 Hn2 Hl2 Hw2).
      intros Heq. inversion Heq. contradiction.
  - intros Hcase d1 d2 Hd1 Hd2.
    assert (Hdoc : ∀ document, document ∈ documents →
              length classes ≠ 2
              ∨ Forall (fun tag => tag ∈ classes) document).
    { intros document Hd. destruct Hcase as [Hk|Hseen]; [left; exact Hk|].
      right. apply Forall_forall. intros tag Htag.
      apply elem_of_unique_labels. apply Hseen.
      eapply elem_of_concat_documents; eassumption. }
    rewrite (encoding_width_constant classes d1 Hc (Hdoc d1 Hd1)).
    rewrite (encoding_width_constant classes d2 Hc (Hdoc d2 Hd2)).
    reflexivity.
Qed.

Lemma Forall2_map_diag {A B : Type} (P : A → B → Prop) (f : A → B)
    (l : list A) :
  (∀ a, P a (f a)) → Forall2 P l (map f l).
Proof.
  intros H. induction l as [|a l IH]; simpl; constructor; auto.
Qed.

(** X21.  With three classes or more, every row that [transform] returns
    has one entry per class; the row of a class is 1 at the position of
    that class in [get_classes] and 0 elsewhere, and the row of an unseen
    tag is 0 everywhere. *)
Theorem transform_one_hot_three_classes (self0 self : TargetVectorizer.t)
    (targets documents : list (list string)) (classes : list string) :
  TargetVectorizer.adapt self0 targets = Ok self →
  TargetVectorizer.get_classes self = Ok classes →
  3 ≤ length classes →
  [] ∉ documents →
  ∃ out,
    TargetVectorizer.transform self documents = Ok out
    ∧ Forall2 (Forall2 (fun tag row =>
        length row = length classes
        ∧ (∀ i, classes !! i = Some tag →
                row = <[i := 1%Z]> (replicate (length classes) 0%Z))
        ∧ (tag ∉ classes → row = replicate (length classes) 0%Z)))
        documents out.
Proof.
  intros Hadapt Hget Hn Hdocs.
  destruct (adapt_classes self0 self targets Hadapt) as [_ Hcls].
  rewrite Hcls in Hget. inversion Hget; subst classes. clear Hget.
  assert (Hne : Forall (fun document : list string => document ≠ []) documents).
  { apply Forall_forall. intros document Hin ->. exact (Hdocs Hin). }
  rewrite (transform_many_classes self0 self targets documents Hadapt Hn Hne).
  eexists. split; [reflexivity|].
  apply Forall2_map_diag. intros document.
  apply Forall2_map_diag.
  intros tag. split; [apply indicator_row_length|]. split.
  - intros i Hi. apply indicator_row_one_hot;
      [apply unique_labels_NoDup|exact Hi].
  - apply indicator_row_absent.
Qed.

Lemma argmax_from_found (classes : list string) (tag : string) :
  ∀ best_i i,
    LabelBinarizer.argmax_from 1 best_i i
      (LabelBinarizer.indicator_row classes tag) = best_i.
Proof.
  induction classes as [|c classes IH]; intros best_i i; [reflexivity|].
  simpl. destruct (String.eqb c tag); simpl; apply IH.
Qed.

Lemma argmax_from_search (classes : list string) (tag : string) :
  ∀ best_i i j,
    NoDup classes → classes !! j = Some tag →
    LabelBinarizer.argmax_from 0 best_i i
      (LabelBinarizer.indicator_row classes tag) = i + j.
Proof.
  induction classes as [|c classes IH]; intros best_i i j Hnd Hj;
    [discriminate|].
  apply NoDup_cons in Hnd as [Hc Hnd]. simpl.
  destruct j as [|j]; simpl in Hj.
  - inversion Hj; subst c. rewrite String.eqb_refl. simpl.
    rewrite argmax_from_found. lia.
  - destruct (String.eqb_spec c tag) as [->|_].
    + exfalso. apply Hc. eapply list_elem_of_lookup_2. exact Hj.
    + simpl. rewrite (IH best_i (S i) j Hnd Hj). lia.
Qed.

Lemma argmax_indicator_row (classes : list string) (tag : string) (i : nat) :
  NoDup classes → classes !! i = Some tag →
  LabelBinarizer.argmax (LabelBinarizer.indicator_row classes tag) = Ok i.
Proof.
  intros Hnd Hi. destruct classes as [|c classes]; [discriminate|].
  apply NoDup_cons in Hnd as [Hc Hnd].
  unfold LabelBinarizer.argmax. simpl.
  destruct i as [|i]; simpl in Hi.
  - inversion Hi; subst c. rewrite String.eqb_refl.
    rewrite argmax_from_found. reflexivity.
  - destruct (String.eqb_spec c tag) as [->|_].
    + exfalso. apply Hc. eapply list_elem_of_lookup_2. exact Hi.
    + rewrite (argmax_from_search classes tag 0 1 i Hnd Hi). reflexivity.
Qed.

Lemma take_clip_in_range (classes : list string) (tag : string) (i : nat) :
  classes !! i = Some tag → LabelBinarizer.take_clip classes i = Ok tag.
Proof.
  intros Hi. unfold LabelBinarizer.take_clip.
  pose proof (lookup_lt_Some _ _ _ Hi) as Hlt.
  rewrite Nat.min_l by lia. rewrite Hi. reflexivity.
Qed.

Lemma inverse_binarize_multiclass_rows (classes document : list string) :
  NoDup classes → Forall (fun tag => tag ∈ classes) document →
  LabelBinarizer.inverse_binarize_multiclass classes
    (map (LabelBinarizer.indicator_row classes) document)
  = Ok document.
Proof.
  intros Hnd Hall. unfold LabelBinarizer.inverse_binarize_multiclass.
  assert (Hidx : ∃ indices,
    comprehension LabelBinarizer.argmax
      (map (LabelBinarizer.indicator_row classes) document) = Ok indices
    ∧ Forall2 (fun i tag => classes !! i = Some tag) indices document).
  { induction Hall as [|tag document Htag _ (indices & Hrun & Hall)].
    - exists []. split; [reflexivity|constructor].
    - apply list_elem_of_lookup_1 in Htag as [i Hi].
      exists (i :: indices). cbn [map comprehension].
      rewrite (argmax_indicator_row classes tag i Hnd Hi). simpl.
      rewrite Hrun. simpl. split; [reflexivity|].
      constructor; assumption. }
  destruct Hidx as (indices & Hrun & Hidx). rewrite Hrun. simpl.
  clear Hrun Hall. induction Hidx as [|i tag indices document Hi _ IH];
    [reflexivity|].
  cbn [comprehension]. rewrite (take_clip_in_range classes tag i Hi).
  simpl. rewrite IH. reflexivity.
Qed.

(** X23.  With three classes or more, [inverse_transform] undoes
    [transform] on non-empty sequences of tags seen during [adapt]. *)
Theorem inverse_transform_after_transform
    (inverse_binarize_thresholding :
       LabelBinarizer.target_type → list string → list (list Z)
       → result (list string))
    (self0 self : TargetVectorizer.t)
    (targets documents : list (list string)) :
  TargetVectorizer.adapt self0 targets = Ok self →
  3 ≤ length (LabelBinarizer.unique_labels (concat targets)) →
  [] ∉ documents →
  (∀ tag, tag ∈ concat documents → tag ∈ concat targets) →
  ∃ out,
    TargetVectorizer.transform self documents = Ok out
    ∧ TargetVectorizer.inverse_transform
        (LabelBinarizer.inverse_binarize inverse_binarize_thresholding)
        self out
      = Ok documents.
Proof.
  intros Hadapt Hn Hdocs Hseen.
  assert (Hne : Forall (fun document : list string => document ≠ []) documents).
  { apply Forall_forall. intros document Hin ->. exact (Hdocs Hin). }
  rewrite (transform_many_classes self0 self targets documents Hadapt Hn Hne).
  eexists. split; [reflexivity|].
  unfold TargetVectorizer.adapt, LabelBinarizer.fit in Hadapt.
  destruct (decide (length (concat targets) = 0)); [discriminate|].
  simpl in Hadapt. inversion Hadapt; subst self. clear Hadapt.
  unfold TargetVectorizer.inverse_transform. simpl.
  destruct (decide (length (LabelBinarizer.unique_labels (concat targets)) = 0));
    [lia|].
  assert (Htype : LabelBinarizer.type_of_target (concat targets)
                  = LabelBinarizer.multiclass).
  { unfold LabelBinarizer.type_of_target.
    replace (length (LabelBinarizer.unique_labels (concat targets)) <=? 2)
      with false by (symmetry; apply Nat.leb_gt; lia).
    reflexivity. }
  clear Hne Hdocs. rewrite Htype.
  assert (Hdecode :
    comprehension
      (LabelBinarizer.inverse_transform
         (LabelBinarizer.inverse_binarize inverse_binarize_thresholding)
         (Some {| LabelBinarizer.y_type_ := LabelBinarizer.multiclass;
                  LabelBinarizer.classes_ :=
                    LabelBinarizer.unique_labels (concat targets) |}))
      (map (map (LabelBinarizer.indicator_row
                   (LabelBinarizer.unique_labels (concat targets))))
         documents)
    = Ok documents).
  { induction documents as [|document documents IH]; [reflexivity|].
    cbn [map comprehension].
    unfold LabelBinarizer.inverse_transform at 1. simpl.
    rewrite inverse_binarize_multiclass_rows.
    - simpl. rewrite IH; [reflexivity|].
      intros tag Htag. apply Hseen. simpl. apply elem_of_app. right.
      exact Htag.
    - apply unique_labels_NoDup.
    - apply Forall_forall. intros tag Htag. apply elem_of_unique_labels.
      apply Hseen. simpl. apply elem_of_app. left. exact Htag. }
  rewrite Hdecode. simpl. apply array_vectors.
Qed.

Lemma label_binarize_one_class (document : list string) (c : string) :
  document ≠ [] → Forall (fun tag => tag ∈ [c]) document →
  LabelBinarizer.label_binarize document [c]
  = Ok (map (fun _ => [0%Z]) document).
Proof.
  intros Hne Hall. unfold LabelBinarizer.label_binarize.
  destruct (decide (length document = 0)) as [H0|_].
  { destruct document; [congruence|discriminate]. }
  rewrite (type_of_target_seen document [c]) by (simpl; auto).
  reflexivity.
Qed.

Lemma label_binarize_two_classes (document : list string) (c0 c1 : string) :
  document ≠ [] → Forall (fun tag => tag ∈ [c0; c1]) document →
  LabelBinarizer.label_binarize document [c0; c1]
  = Ok (map (fun tag => [if String.eqb c1 tag then 1%Z else 0%Z]) document).
Proof.
  intros Hne Hall. unfold LabelBinarizer.label_binarize.
  destruct (decide (length document = 0)) as [H0|_].
  { destruct document; [congruence|discriminate]. }
  rewrite (type_of_target_seen document [c0; c1]) by (simpl; auto).
  simpl. clear Hne Hall.
  induction document as [|tag document IH]; [reflexivity|].
  cbn [map comprehension]. simpl. rewrite IH. reflexivity.
Qed.

(** X22.  With one or two classes the rows that [transform] returns for
    seen tags have a single entry: always 0 with one class; with two
    classes 1 for the second class and 0 for the first. *)
Theorem transform_fewer_than_three_classes (self0 self : TargetVectorizer.t)
    (targets documents : list (list string)) :
  TargetVectorizer.adapt self0 targets = Ok self →
  [] ∉ documents →
  (∀ tag, tag ∈ concat documents → tag ∈ concat targets) →
  (∀ c, TargetVectorizer.get_classes self = Ok [c] →
        TargetVectorizer.transform self documents
        = Ok (map (map (fun _ => [0%Z])) documents))
  ∧ (∀ c0 c1, TargetVectorizer.get_classes self = Ok [c0; c1] →
        TargetVectorizer.transform self documents
        = Ok (map (map (fun tag =>
                 [if String.eqb c1 tag then 1%Z else 0%Z])) documents)).
Proof.
  intros Hadapt Hdocs Hseen.
  destruct (adapt_classes self0 self targets Hadapt) as [_ Hcls].
  unfold TargetVectorizer.adapt, LabelBinarizer.fit in Hadapt.
  destruct (decide (length (concat targets) = 0)); [discriminate|].
  simpl in Hadapt. inversion Hadapt; subst self. clear Hadapt.
  assert (Hall : Forall (fun document =>
            document ≠ []
            ∧ Forall (fun tag =>
                tag ∈ LabelBinarizer.unique_labels (concat targets)) document)
            documents).
  { apply Forall_forall. intros document Hin. split.
    - intros ->. exact (Hdocs Hin).
    - apply Forall_forall. intros tag Htag. apply elem_of_unique_labels.
      apply Hseen. apply list_elem_of_In, in_concat. exists document.
      split; apply list_elem_of_In; assumption. }
  clear Hdocs Hseen.
  remember (LabelBinarizer.unique_labels (concat targets)) as classes
    eqn:Hclasses.
  unfold TargetVectorizer.transform, TargetVectorizer.get_classes.
  cbn [TargetVectorizer.vectorizer LabelBinarizer.get_classes_
       LabelBinarizer.classes_ mbind result_bind Py.bind].
  split.
  - intros c Hget. inversion Hget as [Hc]. clear Hget Hcls Hclasses.
    subst classes. simpl.
    assert (Hencode :
      comprehension
        (LabelBinarizer.transform
           (Some {| LabelBinarizer.y_type_ :=
                      LabelBinarizer.type_of_target (concat targets);
                    LabelBinarizer.classes_ := [c] |}))
        documents
      = Ok (map (map (fun _ => [0%Z])) documents)).
    { induction Hall as [|document documents [Hne Htags] _ IH];
        [reflexivity|].
      cbn [map comprehension]. unfold LabelBinarizer.transform at 1. simpl.
      rewrite (label_binarize_one_class document c Hne Htags). simpl.
      rewrite IH. reflexivity. }
    rewrite Hencode. simpl. apply (array_matrices 1).
    apply Forall_forall. intros rows Hrows.
    apply list_elem_of_fmap in Hrows as (document & -> & _).
    apply Forall_forall. intros row Hrow.
    apply list_elem_of_fmap in Hrow as (tag & -> & _). reflexivity.
  - intros c0 c1 Hget. inversion Hget as [Hc]. clear Hget Hcls Hclasses.
    subst classes. simpl.
    assert (Hencode :
      comprehension
        (LabelBinarizer.transform
           (Some {| LabelBinarizer.y_type_ :=
                      LabelBinarizer.type_of_target (concat targets);
                    LabelBinarizer.classes_ := [c0; c1] |}))
        documents
      = Ok (map (map (fun tag =>
                   [if String.eqb c1 tag then 1%Z else 0%Z])) documents)).
    { induction Hall as [|document documents [Hne Htags] _ IH];
        [reflexivity|].
      cbn [map comprehension]. unfold LabelBinarizer.transform at 1. simpl.
      rewrite (label_binarize_two_classes document c0 c1 Hne Htags). simpl.
      rewrite IH. reflexivity. }
    rewrite Hencode. simpl. apply (array_matrices 1).
    apply Forall_forall. intros rows Hrows.
    apply list_elem_of_fmap in Hrows as (document & -> & _).
    apply Forall_forall. intros row Hrow.
    apply list_elem_of_fmap in Hrow as (tag & -> & _). reflexivity.
Qed.

(** ** Instances of the further statements *)

Lemma parse_dataset_split_aligned_witness :
  Forall2 (fun tokens tags : list string => length tokens = length tags)
    [["a"]; []; ["b"]] [["NN"]; []; ["VB"]].
Proof.
  exact (parse_dataset_split_aligned no_loadtxt [double_blank_document]
           [["a"]; []; ["b"]] [["NN"]; []; ["VB"]] eq_refl).
Defined.

Lemma parse_dataset_split_fields_clean_witness :
  Forall (Forall (fun token : string =>
    (TAB ∉ chars token) ∧ (LF ∉ chars token))) [["a"]; []; ["b"]]
  ∧ Forall (Forall (fun tag : string =>
    (TAB ∉ chars tag) ∧ (LF ∉ chars tag))) [["NN"]; []; ["VB"]].
Proof.
  exact (parse_dataset_split_fields_clean no_loadtxt [double_blank_document]
           [["a"]; []; ["b"]] [["NN"]; []; ["VB"]] eq_refl).
Defined.

Lemma train_dev_test_split_truncates_witness :
  ∃ X_train y_train X_dev y_dev X_test y_test g1,
    DataInput.train_dev_test_split exact example_X example_y_short
      (1 # 2) (1 # 2) example_random_state
    = Ok ((X_train, y_train), (X_dev, y_dev), (X_test, y_test), g1)
    ∧ X_train ++ X_dev ++ X_test
      ≡ₚ take (length example_X `min` length example_y_short) example_X
    ∧ y_train ++ y_dev ++ y_test
      ≡ₚ take (length example_X `min` length example_y_short)
           example_y_short.
Proof.
  apply (train_dev_test_split_truncates exact example_X example_y_short
           (1 # 2) (1 # 2) example_random_state).
  - discriminate.
  - discriminate.
  - apply rounds_to_nearest_exact.
  - vm_compute. discriminate.
  - vm_compute. discriminate.
  - vm_compute. discriminate.
  - vm_compute. discriminate.
Defined.

Lemma train_dev_test_split_clamps_witness :
  ∃ X_train y_train X_dev y_dev X_test y_test g1,
    DataInput.train_dev_test_split exact example_X example_y
      (2 # 1) (1 # 1) example_random_state
    = Ok ((X_train, y_train), (X_dev, y_dev), (X_test, y_test), g1)
    ∧ zip X_train y_train ++ zip X_dev y_dev ++ zip X_test y_test
      ≡ₚ zip example_X example_y
    ∧ length X_train
      = Z.to_nat (int (exact ((2 # 1) * inject_Z (Z.of_nat (length example_X)))%Q))
        `min` length example_X
    ∧ length X_train + length X_dev
      = Z.to_nat
          (int (exact ((2 # 1) * inject_Z (Z.of_nat (length example_X)))%Q)
           + int (exact ((1 # 1) * inject_Z (Z.of_nat (length example_X)))%Q))
        `min` length example_X
    ∧ length X_train + length X_dev + length X_test = length example_X.
Proof.
  apply (train_dev_test_split_clamps exact example_X example_y
           (2 # 1) (1 # 1) example_random_state).
  - discriminate.
  - reflexivity.
  - vm_compute. discriminate.
  - vm_compute. discriminate.
Defined.

Lemma train_dev_test_split_draws_witness :
  ∃ splits g1,
    DataInput.train_dev_test_split exact example_X example_y
      (1 # 3) (1 # 3) example_random_state = Ok (splits, g1)
    ∧ DataInput.outcomes g1 = DataInput.outcomes example_random_state
    ∧ DataInput.consumed g1
      = DataInput.consumed example_random_state
        + (length example_X `min` length example_y - 1).
Proof.
  destruct (DataInput.train_dev_test_split exact example_X example_y
              (1 # 3) (1 # 3) example_random_state)
    as [[splits g1]|e] eqn:H; [|vm_compute in H; discriminate].
  exists splits, g1. split; [reflexivity|].
  exact (train_dev_test_split_draws exact example_X example_y
           (1 # 3) (1 # 3) example_random_state g1 splits H).
Defined.

Lemma init_sentence_corpus_witness :
  ∃ X_train y_train X_dev y_dev X_test y_test g1,
    DataInput.init no_loadtxt exact [double_blank_document]
      (1 # 2) (1 # 4) true example_random_state
    = Ok ((X_train, y_train), (X_dev, y_dev), (X_test, y_test), g1)
    ∧ zip X_train y_train ++ zip X_dev y_dev ++ zip X_test y_test
      ≡ₚ zip (concat (map (sentence_fields 0) [double_blank_document]))
             (concat (map (sentence_fields 1) [double_blank_document]))
    ∧ length [double_blank_document]
      ≤ length X_train + length X_dev + length X_test.
Proof.
  apply (init_sentence_corpus no_loadtxt exact [double_blank_document]
           (1 # 2) (1 # 4) example_random_state).
  - discriminate.
  - constructor; [|constructor]. unfold records_only.
    repeat constructor; vm_compute; congruence.
  - apply rounds_to_nearest_exact.
  - vm_compute. discriminate.
  - vm_compute. discriminate.
  - vm_compute. discriminate.
  - vm_compute. discriminate.
Defined.

Lemma parse_glove_last_line_wins_witness :
  (<["cat" := ["0.3"; "0.4"]]> (<["cat" := ["0.1"; "0.2"]]> ∅)
     : gmap string (list string)) !! "cat"
  = Some (TextVectorizer.fromstring read_numeral
            ("0.3 0.4" +:+ String LF EmptyString)).
Proof.
  apply (parse_glove_last_line_wins read_numeral example_vectorizer
           two_line_table _
           ["cat 0.1 0.2" +:+ String LF EmptyString] []
           ("cat 0.3 0.4" +:+ String LF EmptyString) "cat"
           ("0.3 0.4" +:+ String LF EmptyString)).
  - reflexivity.
  - reflexivity.
  - reflexivity.
  - constructor.
Defined.

Lemma parse_glove_short_line_witness :
  TextVectorizer.parse_glove read_numeral example_vectorizer blank_line_table
  = Raise ValueError.
Proof.
  apply (parse_glove_short_line read_numeral example_vectorizer
           blank_line_table).
  apply Exists_cons_tl, Exists_cons_hd.
  exists EmptyString, EmptyString, (String LF EmptyString).
  split; [reflexivity|]. split; [constructor|]. split; [constructor|].
  constructor; [reflexivity|constructor].
Defined.

Lemma init_then_transform_witness :
  ∃ self,
    TextVectorizer.init read_numeral 20000 2 two_line_table = Ok self
    ∧ TextVectorizer.max_tokens self = 20000%Z
    ∧ TextVectorizer.embedding_dim self = 2
    ∧ TextVectorizer.transform self [["dog"]] = Raise NotAdaptedError.
Proof.
  destruct (TextVectorizer.init read_numeral 20000 2 two_line_table)
    as [self|e] eqn:H; [|vm_compute in H; discriminate].
  exists self. split; [reflexivity|].
  destruct (init_then_transform read_numeral 20000 2 two_line_table self H)
    as (Hm & Hd & _ & Hmiss).
  split; [exact Hm|]. split; [exact Hd|].
  apply Hmiss. repeat constructor; vm_compute; discriminate.
Defined.

Lemma adapt_known_tokens_noop_witness :
  TextVectorizer.adapt elements cat_vectorizer [["cat"]; []; ["cat"; "cat"]]
    example_np_random
  = (cat_vectorizer, example_np_random, 0).
Proof.
  apply (adapt_known_tokens_noop elements cat_vectorizer
           [["cat"]; []; ["cat"; "cat"]] example_np_random).
  - intros X. reflexivity.
  - simpl. intros word H. rewrite !elem_of_cons in H.
    assert (Hw : word = "cat").
    { destruct H as [H|[H|[H|H]]]; try exact H. inversion H. }
    subst word. unfold cat_vectorizer. simpl.
    rewrite lookup_insert_eq. eauto.
Defined.

Lemma adapt_twice_witness :
  let r1 := TextVectorizer.adapt elements example_vectorizer
              [["cat"; "fox"]] example_np_random in
  let r2 := TextVectorizer.adapt elements r1.1.1 [["fox"; "dog"]] r1.1.2 in
  dom (TextVectorizer.vocabulary r2.1.1)
  = dom (TextVectorizer.vocabulary example_vectorizer)
    ∪ list_to_set (concat [["cat"; "fox"]])
    ∪ list_to_set (concat [["fox"; "dog"]]).
Proof.
  exact (proj1 (adapt_twice elements example_vectorizer
                  [["cat"; "fox"]] [["fox"; "dog"]] example_np_random
                  (fun X => reflexivity (elements X)))).
Defined.


Lemma get_classes_after_adapt_witness :
  ∃ self1,
    TargetVectorizer.adapt TargetVectorizer.init example_targets = Ok self1
    ∧ ∃ classes,
        TargetVectorizer.get_classes self1 = Ok classes
        ∧ StronglySorted string_lt classes
        ∧ NoDup classes
        ∧ (∀ tag, tag ∈ classes ↔ tag ∈ concat example_targets).
Proof.
  eexists. split; [reflexivity|].
  eapply (get_classes_after_adapt TargetVectorizer.init _ example_targets).
  reflexivity.
Defined.

Lemma transform_after_adapt_outcome_witness :
  ∃ self,
    TargetVectorizer.adapt TargetVectorizer.init [["NN"; "VB"]] = Ok self
    ∧ TargetVectorizer.transform self [["NN"; "VB"; "XX"]; ["NN"; "NN"; "NN"]]
      = Raise ValueError
    ∧ ∃ out,
        TargetVectorizer.transform self [["NN"; "VB"; "XX"]; ["NN"; "NN"]]
        = Ok out.
Proof.
  eexists. split; [reflexivity|]. split.
  - refine (proj1 (proj2 (proj2 (proj2 (proj2
      (transform_after_adapt_outcome TargetVectorizer.init _
         [["NN"; "VB"]] [["NN"; "VB"; "XX"]; ["NN"; "NN"; "NN"]] eq_refl)))))
      _ _ _).
    + intros Hin. rewrite !elem_of_cons in Hin.
      destruct Hin as [Hin|[Hin|Hin]]; [discriminate|discriminate|inversion Hin].
    + intros d1 d2 Hd1 Hd2. rewrite !elem_of_cons in Hd1, Hd2.
      destruct Hd1 as [->|[->|Hd1]]; [| |inversion Hd1];
        destruct Hd2 as [->|[->|Hd2]]; try reflexivity; inversion Hd2.
    + exists ["NN"; "VB"; "XX"], ["NN"; "NN"; "NN"].
      split; [left|]. split; [right; left|]. vm_compute. lia.
  - refine (proj1 (proj2 (proj2 (proj2
      (transform_after_adapt_outcome TargetVectorizer.init _
         [["NN"; "VB"]] [["NN"; "VB"; "XX"]; ["NN"; "NN"]] eq_refl))))
      _ _).
    + intros Hin. rewrite !elem_of_cons in Hin.
      destruct Hin as [Hin|[Hin|Hin]]; [discriminate|discriminate|inversion Hin].
    + left. exists ["NN"; "VB"; "XX"], ["NN"; "NN"].
      split; [left|]. split; [right; left|]. simpl. lia.
Defined.

Lemma transform_one_hot_three_classes_witness :
  ∃ self out,
    TargetVectorizer.adapt TargetVectorizer.init example_targets = Ok self
    ∧ TargetVectorizer.transform self [["VB"; "XX"]] = Ok out
    ∧ Forall2 (Forall2 (fun tag row =>
        length row = length ["DT"; "NN"; "VB"]
        ∧ (∀ i, ["DT"; "NN"; "VB"] !! i = Some tag →
                row = <[i := 1%Z]>
                        (replicate (length ["DT"; "NN"; "VB"]) 0%Z))
        ∧ (tag ∉ ["DT"; "NN"; "VB"] →
           row = replicate (length ["DT"; "NN"; "VB"]) 0%Z)))
        [["VB"; "XX"]] out.
Proof.
  eexists.
  destruct (transform_one_hot_three_classes TargetVectorizer.init _
              example_targets [["VB"; "XX"]] ["DT"; "NN"; "VB"]
              eq_refl eq_refl) as (out & Hrun & Hrows).
  - simpl. lia.
  - intros H. apply list_elem_of_singleton in H. discriminate.
  - exists out. split; [reflexivity|]. split; assumption.
Defined.

Lemma transform_fewer_than_three_classes_witness :
  ∃ self,
    TargetVectorizer.adapt TargetVectorizer.init example_y_short = Ok self
    ∧ TargetVectorizer.transform self [["VB"; "NN"]]
      = Ok (map (map (fun tag =>
               [if String.eqb "VB" tag then 1%Z else 0%Z])) [["VB"; "NN"]]).
Proof.
  eexists. split; [reflexivity|].
  refine (proj2 (transform_fewer_than_three_classes TargetVectorizer.init _
                   example_y_short [["VB"; "NN"]] eq_refl _ _)
            "NN" "VB" eq_refl).
  - intros H. apply list_elem_of_singleton in H. discriminate.
  - simpl. intros tag H. set_solver.
Defined.

Lemma inverse_transform_after_transform_witness :
  ∃ self out,
    TargetVectorizer.adapt TargetVectorizer.init example_targets = Ok self
    ∧ TargetVectorizer.transform self [["VB"; "DT"]; ["NN"]] = Ok out
    ∧ TargetVectorizer.inverse_transform
        (LabelBinarizer.inverse_binarize (fun _ _ _ => Raise ValueError))
        self out
      = Ok [["VB"; "DT"]; ["NN"]].
Proof.
  eexists.
  destruct (inverse_transform_after_transform (fun _ _ _ => Raise ValueError)
              TargetVectorizer.init _ example_targets
              [["VB"; "DT"]; ["NN"]] eq_refl) as (out & Hrun & Hinv).
  - simpl. lia.
  - intros H. apply elem_of_cons in H as [H|H]; [discriminate|].
    apply list_elem_of_singleton in H. discriminate.
  - simpl. intros tag H. set_solver.
  - exists out. split; [reflexivity|]. split; assumption.
Defined.

Lemma adapt_vectors_from_samples_witness :
  ∃ word,
    TextVectorizer.vocabulary
      (TextVectorizer.adapt elements example_vectorizer [["cat"]]
         example_np_random).1.1 !! word
    = Some (sample_block example_np_random 0
              (TextVectorizer.embedding_dim example_vectorizer))
    ∧ length (sample_block example_np_random 0
                (TextVectorizer.embedding_dim example_vectorizer))
      = TextVectorizer.embedding_dim example_vectorizer.
Proof.
  destruct (elements ((list_to_set (concat [["cat"]]) : gset string)
                      ∖ dom (TextVectorizer.vocabulary example_vectorizer))
              !! 0) as [word|] eqn:H.
  - exists word.
    exact (adapt_vectors_from_samples elements example_vectorizer [["cat"]]
             example_np_random 0 word (fun X => reflexivity (elements X)) H).
  - exfalso. vm_compute in H. discriminate.
Defined.
